(** * KIRtyper: a shallow embedding of the typing pipeline

    The Python sources (Read.py, AlignmentInformation.py,
    ProgressiveAnalysis.py, CombinedAnalysis.py, KIRtyper.py) are rendered as
    Rocq functions.  Conventions:

    - a Python exception is a value [Raise e] of the [result] monad;
    - Python [int] is [Z]; the tallies, which the code keeps as floats that
      only ever hold whole numbers, are [Z] as well; the percentages are
      computed in IEEE 754 binary64, as Python's [float], and stored by their
      exact value in [Q];
    - a Python [str] is a [string]; a list of one-character strings (what
      [list(s)] builds) is a [list string];
    - an insertion-ordered [dict] is an association list with the update
      discipline of Python (overwrite in place, append when new); the memo of
      processed reads, which is only looked up and inserted into, is a [gmap];
    - the reference file is taken as already split into its allele lines: an
      ordered list of (allele id, sequence) pairs. *)

From Stdlib Require Import ZArith QArith Qround String Ascii List Lia Bool.
From Stdlib Require SpecFloat.
From stdpp Require Import gmap strings list fin_maps sorting.

Local Open Scope Z_scope.

(** ** Python primitives *)

Module Py.

Inductive exception : Type :=
| ValueError
| IndexError
| KeyError
| TypeError
| ZeroDivisionError
| UnboundLocalError.

Inductive result (A : Type) : Type :=
| Return (a : A)
| Raise (e : exception).

Arguments Return {A} a.
Arguments Raise {A} e.

Definition bind {A B : Type} (m : result A) (k : A → result B) : result B :=
  match m with
  | Return a => k a
  | Raise e => Raise e
  end.

Definition raises {A : Type} (m : result A) : Prop :=
  ∃ e, m = Raise e.

(** [str(c)] for a single character. *)
Definition chr (c : ascii) : string := String c EmptyString.

(** [list(s)]: the one-character strings of [s]. *)
Definition list_of_str (s : string) : list string :=
  map chr (list_ascii_of_string s).

(** [''.join(l)] with the loop [for digit in l: new_str += digit]. *)
Definition join_chars (l : list ascii) : string :=
  string_of_list_ascii l.

(** [range(a, b)]. *)
Definition range (a b : Z) : list Z := seqZ a (b - a).

(** [l[i]] with Python's negative indices. *)
Definition getitem {A : Type} (l : list A) (i : Z) : result A :=
  let n := Z.of_nat (length l) in
  let j := if i <? 0 then i + n else i in
  if (j <? 0) || (n <=? j) then Raise IndexError
  else match l !! Z.to_nat j with
       | Some x => Return x
       | None => Raise IndexError
       end.

(** [l.remove(x)]: the first occurrence goes; [ValueError] when absent. *)
Fixpoint list_remove_first {A : Type} `{EqDecision A} (x : A) (l : list A) : option (list A) :=
  match l with
  | [] => None
  | y :: l' =>
      if decide (x = y) then Some l'
      else match list_remove_first x l' with
           | Some r => Some (y :: r)
           | None => None
           end
  end.

Definition list_remove {A : Type} `{EqDecision A} (x : A) (l : list A) : result (list A) :=
  match list_remove_first x l with
  | Some r => Return r
  | None => Raise ValueError
  end.

(** *** [int(s)] on text

    The grammar CPython accepts in base 10: blanks, an optional sign, then
    digits with single underscores between them, then blanks. *)

Definition is_digit (c : ascii) : bool :=
  let n := nat_of_ascii c in (48 <=? n)%nat && (n <=? 57)%nat.

Definition digit_value (c : ascii) : Z := Z.of_nat (nat_of_ascii c) - 48.

Definition is_space (c : ascii) : bool :=
  let n := nat_of_ascii c in
  ((9 <=? n)%nat && (n <=? 13)%nat) || ((28 <=? n)%nat && (n <=? 32)%nat)
  || (n =? 133)%nat || (n =? 160)%nat.

Fixpoint lstrip (l : list ascii) : list ascii :=
  match l with
  | c :: l' => if is_space c then lstrip l' else l
  | [] => []
  end.

Definition strip (l : list ascii) : list ascii :=
  rev (lstrip (rev (lstrip l))).

Fixpoint int_digits (acc : Z) (after_underscore : bool) (l : list ascii) : option Z :=
  match l with
  | [] => if after_underscore then None else Some acc
  | c :: l' =>
      if is_digit c then int_digits (10 * acc + digit_value c) false l'
      else if Ascii.eqb c "_" then
             if after_underscore then None else int_digits acc true l'
           else None
  end.

Definition int_unsigned (l : list ascii) : option Z :=
  match l with
  | c :: l' => if is_digit c then int_digits (digit_value c) false l' else None
  | [] => None
  end.

Definition int_signed (l : list ascii) : option Z :=
  match l with
  | c :: l' =>
      if Ascii.eqb c "+" then int_unsigned l'
      else if Ascii.eqb c "-" then Z.opp <$> int_unsigned l'
      else int_unsigned l
  | [] => None
  end.

Definition int (s : string) : result Z :=
  match int_signed (strip (list_ascii_of_string s)) with
  | Some z => Return z
  | None => Raise ValueError
  end.

(** *** [float]

    IEEE 754 binary64 with rounding to nearest, ties to even. *)

Definition float : Type := SpecFloat.spec_float.

Definition prec : Z := 53.
Definition emax : Z := 1024.

(** [float(z)] *)
Definition float_of_int (z : Z) : float := SpecFloat.binary_normalize prec emax z 0 false.

(** [x / y] for a divisor other than zero, and [x * y]. *)
Definition float_div (x y : float) : float := SpecFloat.SFdiv prec emax x y.
Definition float_mul (x y : float) : float := SpecFloat.SFmul prec emax x y.

(** The number a finite float stands for (the percentages computed here are
    finite; an infinity or a NaN, which cannot arise, is given the value 0). *)
Definition float_value (x : float) : Q :=
  match x with
  | SpecFloat.S754_finite s m e =>
      let z := if s then Zneg m else Zpos m in
      Qred (if 0 <=? e then inject_Z (z * 2 ^ e) else (z # Pos.pow 2 (Z.to_pos (- e))))
  | _ => 0%Q
  end.

(** [round(x, 2)]: the number [x] stands for is rounded to the nearest
    hundredth, ties to the even one, and the float nearest to that decimal
    is returned. *)
Definition round2 (x : float) : float :=
  let y := (float_value x * 100)%Q in
  let n := Qfloor y in
  let m := match Qcompare (y - inject_Z n) (1 # 2) with
           | Lt => n
           | Gt => n + 1
           | Eq => if Z.even n then n else n + 1
           end in
  float_div (float_of_int m) (float_of_int 100).

(** [s.split(sep)] for a one-character separator. *)
Fixpoint split_loop (sep : ascii) (s current : list ascii) : list (list ascii) :=
  match s with
  | [] => [current]
  | c :: rest =>
      if Ascii.eqb c sep then current :: split_loop sep rest []
      else split_loop sep rest (current ++ [c])
  end.

Definition split (sep : ascii) (s : string) : list string :=
  map string_of_list_ascii (split_loop sep (list_ascii_of_string s) []).

(** The order of [str], by code point, as [np.unique] sorts with. *)
Definition str_le (a b : string) : Prop := String.leb a b = true.

#[global] Instance str_le_dec : RelDecision str_le.
Proof. intros a b. unfold str_le. apply _. Defined.

End Py.

Import Py.

#[global] Instance result_bind : MBind Py.result :=
  fun A B k m => Py.bind m k.
#[global] Instance result_ret : MRet Py.result := @Py.Return.

(** ** Read.py *)

Module Read.

Record t : Type := mk {
  id : string;
  flag : Z;
  leftmost_position : Z;
  quality : Z;
  cigar_lst : list ascii;
  sequence : string;
  parsed_cigar : list (string * ascii);
  aligned_sequence : list string;
  rightmost_position : option Z
}.

(** [Read.__init__] after the SAM line has been split into its fields: the
    leftmost position is the POS field minus one. *)
Definition init (qname : string) (flag_field pos_field mapq_field : Z)
    (cigar seq : string) : t :=
  {| id := qname;
     flag := flag_field;
     leftmost_position := pos_field - 1;
     quality := mapq_field;
     cigar_lst := list_ascii_of_string cigar;
     sequence := seq;
     parsed_cigar := [];
     aligned_sequence := [];
     rightmost_position := None |}.

Definition is_operator (c : ascii) : bool :=
  Ascii.eqb c "M" || Ascii.eqb c "D" || Ascii.eqb c "I".

(** The loop of [parse_cigar]: [cigar_sublist] gathers the characters met
    since the last operator, [parsed] is [self.parsed_cigar]. *)
Fixpoint parse_cigar_loop (cigar : list ascii) (cigar_sublist : list ascii)
    (parsed : list (string * ascii)) : list (string * ascii) :=
  match cigar with
  | [] => parsed
  | c :: rest =>
      if is_operator c then
        parse_cigar_loop rest [] (parsed ++ [(join_chars cigar_sublist, c)])
      else
        parse_cigar_loop rest (cigar_sublist ++ [c]) parsed
  end.

Definition parse_cigar (self : t) : t :=
  {| id := id self;
     flag := flag self;
     leftmost_position := leftmost_position self;
     quality := quality self;
     cigar_lst := cigar_lst self;
     sequence := sequence self;
     parsed_cigar := parse_cigar_loop (cigar_lst self) [] (parsed_cigar self);
     aligned_sequence := aligned_sequence self;
     rightmost_position := rightmost_position self |}.

(** [x is []] compares the identity of [x] with a list allocated on the
    spot, so it is false whatever [x] holds. *)
Definition is_fresh_empty_list {A : Type} (x : list A) : bool := false.

(** [for i in range(...): self.aligned_sequence += sequence_lst[i]]. *)
Fixpoint match_loop (sequence_lst : list string) (indices : list Z)
    (aligned : list string) : result (list string) :=
  match indices with
  | [] => Return aligned
  | i :: rest =>
      base ← getitem sequence_lst i;
      match_loop sequence_lst rest (aligned ++ [base])
  end.

(** [for i in range(consumed_positions): self.aligned_sequence += "."]. *)
Definition deletion_loop (indices : list Z) (aligned : list string) : list string :=
  fold_left (fun acc _ => acc ++ ["."%string]) indices aligned.

(** The loop over [self.parsed_cigar]; the state is
    [(self.aligned_sequence, last_position)]. *)
Fixpoint cigar_loop (sequence_lst : list string) (parsed : list (string * ascii))
    (aligned : list string) (last_position : Z) : result (list string) :=
  match parsed with
  | [] => Return aligned
  | (count, operator) :: rest =>
      consumed_positions ← int count;
      if Ascii.eqb operator "M" then
        aligned' ← match_loop sequence_lst
                     (range last_position (consumed_positions + last_position)) aligned;
        cigar_loop sequence_lst rest aligned' (last_position + consumed_positions)
      else if Ascii.eqb operator "D" then
        cigar_loop sequence_lst rest
          (deletion_loop (range 0 consumed_positions) aligned) last_position
      else if Ascii.eqb operator "I" then
        cigar_loop sequence_lst rest aligned (last_position + consumed_positions)
      else
        cigar_loop sequence_lst rest aligned last_position
  end.

(** What [get_aligned_sequence] returns: the warning text or the pair. *)
Inductive returned : Type :=
| Warning (message : string)
| Aligned (aligned : list string) (rightmost : Z).

Definition get_aligned_sequence (self : t) : result (t * returned) :=
  let sequence_lst := list_of_str (sequence self) in
  if is_fresh_empty_list (parsed_cigar self) then
    Return (self, Warning "WARNING: no cigar string found for this read")
  else
    aligned ← cigar_loop sequence_lst (parsed_cigar self) (aligned_sequence self) 0;
    let rightmost := leftmost_position self + Z.of_nat (length aligned) in
    Return ({| id := id self;
               flag := flag self;
               leftmost_position := leftmost_position self;
               quality := quality self;
               cigar_lst := cigar_lst self;
               sequence := sequence self;
               parsed_cigar := parsed_cigar self;
               aligned_sequence := aligned;
               rightmost_position := Some rightmost |},
            Aligned aligned rightmost).

(** [is_aligned_to]: some position of the read lies in the region.  A read
    without a rightmost position makes [range] raise. *)
Definition is_aligned_to (self : t) (region_range : Z * Z) : result bool :=
  match rightmost_position self with
  | None => Raise TypeError
  | Some rightmost =>
      Return (existsb (fun i => bool_decide (i ∈ range region_range.1 region_range.2))
                (range (leftmost_position self) rightmost))
  end.

(** [__init__] from the text of a SAM line: the fields between the tabs. *)
Definition of_sam_line (sam_line : string) : result t :=
  let sam_line := split "009" sam_line in
  qname ← Py.getitem sam_line 0;
  flag_text ← Py.getitem sam_line 1;
  flag_field ← Py.int flag_text;
  pos_text ← Py.getitem sam_line 3;
  pos_field ← Py.int pos_text;
  mapq_text ← Py.getitem sam_line 4;
  mapq_field ← Py.int mapq_text;
  cigar ← Py.getitem sam_line 5;
  seq ← Py.getitem sam_line 9;
  Return (init qname flag_field pos_field mapq_field cigar seq).

End Read.

(** ** Insertion-ordered dictionaries *)

Module Dict.

Section ops.
Context {K V : Type} `{EqDecision K}.

Fixpoint get (k : K) (d : list (K * V)) : option V :=
  match d with
  | [] => None
  | (k', v) :: d' => if decide (k = k') then Some v else get k d'
  end.

(** [k in d] *)
Definition contains (k : K) (d : list (K * V)) : bool :=
  match get k d with
  | Some _ => true
  | None => false
  end.

(** [d[k]] *)
Definition getitem (k : K) (d : list (K * V)) : result V :=
  match get k d with
  | Some v => Return v
  | None => Raise KeyError
  end.

(** [d[k] = v]: an existing key keeps its place, a new one goes last. *)
Fixpoint setitem (k : K) (v : V) (d : list (K * V)) : list (K * V) :=
  match d with
  | [] => [(k, v)]
  | (k', v') :: d' =>
      if decide (k = k') then (k, v) :: d' else (k', v') :: setitem k v d'
  end.

Definition keys (d : list (K * V)) : list K := fst <$> d.

Definition values (d : list (K * V)) : list V := snd <$> d.

End ops.

End Dict.

(** ** The reference file, as the pipeline reads it *)

Module Reference.

Record t : Type := mk {
  (** the lines [readlines()[12:-1]] of the file, each split into the allele
      id and the sequence with the region bars removed *)
  allele_lines : list (string * list string);
  exons_index_list : list (Z * Z)
}.

End Reference.

(** The attributes [get_regions_index] works on, kept apart from the record
    above, which is the instance as the later classes read it. *)
Module ReferenceRegions.

Record t : Type := mk {
  (** the regions of the first allelic sequence, split at the bars *)
  first_sequence : list string;
  regions_index_list : list Z;
  introns_index_list : list (Z * Z);
  exons_index_list : list (Z * Z)
}.

(** The three lists as [__init__] leaves them. *)
Definition init (first_sequence : list string) : t :=
  mk first_sequence [0] [] [].

(** [for region_index in range(len(self.first_sequence))] *)
Fixpoint region_loop (first_sequence : list string) (indices : list Z)
    (regions_index_list : list Z) : result (list Z) :=
  match indices with
  | [] => Return regions_index_list
  | region_index :: rest =>
      region ← Py.getitem first_sequence region_index;
      start ← Py.getitem regions_index_list region_index;
      let region_pos := Z.of_nat (String.length region) + start in
      region_loop first_sequence rest (regions_index_list ++ [region_pos])
  end.

(** [for i in range(len(self.regions_index_list) - 1)] *)
Fixpoint index_loop (regions_index_list : list Z) (indices : list Z)
    (introns_index_list exons_index_list : list (Z * Z))
    : result (list (Z * Z) * list (Z * Z)) :=
  match indices with
  | [] => Return (introns_index_list, exons_index_list)
  | i :: rest =>
      if i mod 2 =? 0 then
        a ← Py.getitem regions_index_list i;
        b ← Py.getitem regions_index_list (i + 1);
        index_loop regions_index_list rest (introns_index_list ++ [(a, b)])
                   exons_index_list
      else if i mod 2 =? 1 then
        a ← Py.getitem regions_index_list i;
        b ← Py.getitem regions_index_list (i + 1);
        index_loop regions_index_list rest introns_index_list
                   (exons_index_list ++ [(a, b)])
      else index_loop regions_index_list rest introns_index_list exons_index_list
  end.

Definition get_regions_index (self : t) : result t :=
  regions ← region_loop (first_sequence self)
              (range 0 (Z.of_nat (length (first_sequence self))))
              (regions_index_list self);
  '(introns, exons) ← index_loop regions (range 0 (Z.of_nat (length regions) - 1))
                        (introns_index_list self) (exons_index_list self);
  Return (mk (first_sequence self) regions introns exons).

End ReferenceRegions.

(** ** AlignmentInformation.py *)

Module AlignmentInformation.

(** One entry of [count_dictionary]: the dictionary
    [{"A": _, "T": _, "G": _, "C": _, ".": _}], whose keys never change. *)
Record tally : Type := mk_tally {
  count_A : Z;
  count_T : Z;
  count_G : Z;
  count_C : Z;
  count_gap : Z
}.

Definition tally_zero : tally := mk_tally 0 0 0 0 0.

Definition tally_items (c : tally) : list (string * Z) :=
  [("A"%string, count_A c); ("T"%string, count_T c); ("G"%string, count_G c);
   ("C"%string, count_C c); ("."%string, count_gap c)].

(** [entry[nucleotide] += 1] *)
Definition tally_incr (nucleotide : string) (c : tally) : result tally :=
  if String.eqb nucleotide "A" then
    Return (mk_tally (count_A c + 1) (count_T c) (count_G c) (count_C c) (count_gap c))
  else if String.eqb nucleotide "T" then
    Return (mk_tally (count_A c) (count_T c + 1) (count_G c) (count_C c) (count_gap c))
  else if String.eqb nucleotide "G" then
    Return (mk_tally (count_A c) (count_T c) (count_G c + 1) (count_C c) (count_gap c))
  else if String.eqb nucleotide "C" then
    Return (mk_tally (count_A c) (count_T c) (count_G c) (count_C c + 1) (count_gap c))
  else if String.eqb nucleotide "." then
    Return (mk_tally (count_A c) (count_T c) (count_G c) (count_C c) (count_gap c + 1))
  else Raise KeyError.

(** [sum(entry.values())] *)
Definition tally_total (c : tally) : Z :=
  fold_left Z.add (Dict.values (tally_items c)) 0.

(** A value stored in an entry of [proportion_dictionary]: a percentage (a
    float, held by the number it stands for), or the list that
    [ProgressiveAnalysis] stores under "Present Nucleotides". *)
Inductive pvalue : Type :=
| PFloat (q : Q)
| PList (l : list string).

Record t : Type := mk {
  reference : Reference.t;
  count_dictionary : list (Z * tally);
  proportion_dictionary : list (Z * list (string * pvalue));
  reference_alleles : list string;
  processed_reads_dictionary : gmap string (Z * option Z)
}.

Definition set_count_dictionary (self : t) (cd : list (Z * tally)) : t :=
  mk (reference self) cd (proportion_dictionary self) (reference_alleles self)
     (processed_reads_dictionary self).

Definition set_proportion_dictionary (self : t)
    (pd : list (Z * list (string * pvalue))) : t :=
  mk (reference self) (count_dictionary self) pd (reference_alleles self)
     (processed_reads_dictionary self).

Definition set_reference_alleles (self : t) (alleles : list string) : t :=
  mk (reference self) (count_dictionary self) (proportion_dictionary self) alleles
     (processed_reads_dictionary self).

Definition set_processed_reads_dictionary (self : t)
    (memo : gmap string (Z * option Z)) : t :=
  mk (reference self) (count_dictionary self) (proportion_dictionary self)
     (reference_alleles self) memo.

(** [__init__]: one zero tally per position of every exon range, the allele
    ids of the reference, an empty memo. *)
Definition init (a_reference_instance : Reference.t) : t :=
  {| reference := a_reference_instance;
     count_dictionary :=
       fold_left
         (fun cd (exon_range : Z * Z) =>
            fold_left (fun cd i => Dict.setitem i tally_zero cd)
                      (range exon_range.1 exon_range.2) cd)
         (Reference.exons_index_list a_reference_instance) [];
     proportion_dictionary := [];
     reference_alleles := fst <$> Reference.allele_lines a_reference_instance;
     processed_reads_dictionary := ∅ |}.

(** [range(a, b)] when [b] may still be [None]. *)
Definition range_opt (a : Z) (b : option Z) : result (list Z) :=
  match b with
  | Some b => Return (range a b)
  | None => Raise TypeError
  end.

(** The loop over [a_read_instance.aligned_sequence]. *)
Fixpoint count_loop (aligned : list string) (position : Z)
    (paired_reads_overlapping_positions : list Z)
    (cd : list (Z * tally)) : result (list (Z * tally)) :=
  match aligned with
  | [] => Return cd
  | nucleotide :: rest =>
      if String.eqb nucleotide "N" then
        count_loop rest (position + 1) paired_reads_overlapping_positions cd
      else if Dict.contains position cd
              && negb (bool_decide (position ∈ paired_reads_overlapping_positions)) then
        entry ← Dict.getitem position cd;
        entry' ← tally_incr nucleotide entry;
        count_loop rest (position + 1) paired_reads_overlapping_positions
                   (Dict.setitem position entry' cd)
      else
        count_loop rest (position + 1) paired_reads_overlapping_positions cd
  end.

Definition update_count_dictionary (self : t) (a_read_instance : Read.t) : result t :=
  let position := Read.leftmost_position a_read_instance in
  '(self, paired_reads_overlapping_positions) ←
    match processed_reads_dictionary self !! Read.id a_read_instance with
    | Some (first, last) =>
        paired_read_range ← range_opt (Read.leftmost_position a_read_instance)
                                      (Read.rightmost_position a_read_instance);
        memo_range ← range_opt first last;
        Return (self, filter (fun p => p ∈ memo_range) paired_read_range)
    | None =>
        Return (set_processed_reads_dictionary self
                  (<[Read.id a_read_instance :=
                       (Read.leftmost_position a_read_instance,
                        Read.rightmost_position a_read_instance)]>
                     (processed_reads_dictionary self)),
                [])
    end;
  cd ← count_loop (Read.aligned_sequence a_read_instance) position
                  paired_reads_overlapping_positions (count_dictionary self);
  Return (set_count_dictionary self cd).

(** [count / nucleotide_count * 100] on floats: dividing by [0.0] raises. *)
Definition percentage (count nucleotide_count : Z) : result float :=
  if nucleotide_count =? 0 then Raise ZeroDivisionError
  else Return (float_mul (float_div (float_of_int count) (float_of_int nucleotide_count))
                         (float_of_int 100)).

(** The inner loop [for nucleotide in self.count_dictionary[position]]. *)
Fixpoint nucleotide_loop (items : list (string * Z)) (nucleotide_count : Z)
    (entry : list (string * pvalue)) : result (list (string * pvalue)) :=
  match items with
  | [] => Return entry
  | (nucleotide, count) :: rest =>
      x ← percentage count nucleotide_count;
      nucleotide_loop rest nucleotide_count
        (Dict.setitem nucleotide (PFloat (float_value (round2 x))) entry)
  end.

(** The outer loop [for position in self.count_dictionary]. *)
Fixpoint proportion_loop (cd : list (Z * tally))
    (pd : list (Z * list (string * pvalue))) : result (list (Z * list (string * pvalue))) :=
  match cd with
  | [] => Return pd
  | (position, entry) :: rest =>
      let nucleotide_count := tally_total entry in
      new_entry ← nucleotide_loop (tally_items entry) nucleotide_count [];
      proportion_loop rest (Dict.setitem position new_entry pd)
  end.

Definition create_proportion_dictionary (self : t) : result t :=
  pd ← proportion_loop (count_dictionary self) (proportion_dictionary self);
  Return (set_proportion_dictionary self pd).

End AlignmentInformation.

(** ** ProgressiveAnalysis.py *)

Module ProgressiveAnalysis.

Import AlignmentInformation.

Record t : Type := mk {
  (** gene -> allele -> coding sequence (empty until [CombinedAnalysis]
      fills it in) *)
  result_alleles_dictionary : list (string * list (string * list string));
  exon_identical_alleles : list (string * list string)
}.

(** [allele.split("*")[0]], with KIR2DL5A and KIR2DL5B read as one locus. *)
Definition kir_gene_of (allele : string) : string :=
  let kir_gene := match split "*" allele with
                  | g :: _ => g
                  | [] => EmptyString
                  end in
  if String.eqb kir_gene "KIR2DL5A" || String.eqb kir_gene "KIR2DL5B"
  then "KIR2DL5"%string else kir_gene.

(** [for nucleotide in proportion_dictionary[position]]: the symbols whose
    percentage exceeds the threshold.  Comparing a list with a number raises. *)
Fixpoint present_loop (entry : list (string * pvalue)) (proportion_threshold : Q)
    (present_nucleotides : list string) : result (list string) :=
  match entry with
  | [] => Return present_nucleotides
  | (nucleotide, PFloat q) :: rest =>
      if negb (Qle_bool q proportion_threshold) then
        present_loop rest proportion_threshold (present_nucleotides ++ [nucleotide])
      else
        present_loop rest proportion_threshold present_nucleotides
  | (_, PList _) :: _ => Raise TypeError
  end.

(** [for allele in alignment_reference.readlines()[12:-1]] at one position. *)
Fixpoint allele_loop (lines : list (string * list string)) (position : Z)
    (present_nucleotides : list string)
    (primary_result_alleles : list string) : result (list string) :=
  match lines with
  | [] => Return primary_result_alleles
  | (allele_id, allele_sequence) :: rest =>
      if bool_decide (allele_id ∈ primary_result_alleles) then
        nucleotide ← Py.getitem allele_sequence position;
        if negb (bool_decide (nucleotide ∈ present_nucleotides)) then
          primary' ← list_remove allele_id primary_result_alleles;
          allele_loop rest position present_nucleotides primary'
        else
          allele_loop rest position present_nucleotides primary_result_alleles
      else
        allele_loop rest position present_nucleotides primary_result_alleles
  end.

(** The body of [for position in proportion_dictionary].  The list
    [primary_result_alleles] is the very object [reference_alleles] of the
    alignment instance, so removing from one removes from the other. *)
Definition position_step (proportion_threshold : Q) (alignment : AlignmentInformation.t)
    (position : Z) : result AlignmentInformation.t :=
  entry ← Dict.getitem position (proportion_dictionary alignment);
  present_nucleotides ← present_loop entry proportion_threshold [];
  let alignment :=
    set_proportion_dictionary alignment
      (Dict.setitem position
         (Dict.setitem "Present Nucleotides"%string (PList present_nucleotides) entry)
         (proportion_dictionary alignment)) in
  primary_result_alleles ←
    allele_loop (Reference.allele_lines (reference alignment)) position
                present_nucleotides (reference_alleles alignment);
  Return (set_reference_alleles alignment primary_result_alleles).

Fixpoint position_loop (proportion_threshold : Q) (positions : list Z)
    (alignment : AlignmentInformation.t) : result AlignmentInformation.t :=
  match positions with
  | [] => Return alignment
  | position :: rest =>
      alignment' ← position_step proportion_threshold alignment position;
      position_loop proportion_threshold rest alignment'
  end.

(** The grouping loop of [process_result_alleles]. *)
Definition group_by_gene (primary_result_alleles : list string)
    (rad : list (string * list string)) : list (string * list string) :=
  fold_left
    (fun rad allele =>
       let kir_gene := kir_gene_of allele in
       let rad := if Dict.contains kir_gene rad then rad
                  else Dict.setitem kir_gene [] rad in
       match Dict.get kir_gene rad with
       | Some alleles => Dict.setitem kir_gene (alleles ++ [allele]) rad
       | None => rad
       end)
    primary_result_alleles rad.

(** The inner loop of [exclude_exon_identical_alleles] over one gene; the
    state is [(exon_mismatches_codes, exon_identical_alleles[kir_gene])]. *)
Fixpoint identical_loop (alleles : list string) (exon_mismatches_codes : list (list string))
    (identical : list string) : result (list string) :=
  match alleles with
  | [] => Return identical
  | allele :: rest =>
      code ← Py.getitem (split "*" allele) 1;
      let allele_code := list_of_str code in
      if (4 <? length allele_code)%nat then
        let exon_mismatch_code := take 5 allele_code in
        if bool_decide (exon_mismatch_code ∈ exon_mismatches_codes) then
          identical_loop rest exon_mismatches_codes (identical ++ [allele])
        else
          identical_loop rest (exon_mismatches_codes ++ [exon_mismatch_code]) identical
      else
        identical_loop rest exon_mismatches_codes identical
  end.

(** [dict.fromkeys(alleles, [])] *)
Definition fromkeys (alleles : list string) : list (string * list string) :=
  fold_left (fun d allele => Dict.setitem allele [] d) alleles [].

Fixpoint exclude_exon_identical_alleles (grouped : list (string * list string))
    (self : t) : result t :=
  match grouped with
  | [] => Return self
  | (kir_gene, alleles) :: rest =>
      identical ← identical_loop alleles [] [];
      let kept :=
        filter (fun allele => allele ∉ identical) alleles in
      exclude_exon_identical_alleles rest
        {| result_alleles_dictionary :=
             Dict.setitem kir_gene (fromkeys kept) (result_alleles_dictionary self);
           exon_identical_alleles :=
             Dict.setitem kir_gene identical (exon_identical_alleles self) |}
  end.

Definition process_result_alleles (primary_result_alleles : list string) : result t :=
  exclude_exon_identical_alleles (group_by_gene primary_result_alleles [])
    {| result_alleles_dictionary := []; exon_identical_alleles := [] |}.

(** [__init__]: with no position at all the name [primary_result_alleles] is
    never bound when [process_result_alleles] is called. *)
Definition init (alignment : AlignmentInformation.t) (proportion_threshold : Q)
    : result (AlignmentInformation.t * t) :=
  let positions := Dict.keys (proportion_dictionary alignment) in
  alignment' ← position_loop proportion_threshold positions alignment;
  match positions with
  | [] => Raise UnboundLocalError
  | _ :: _ =>
      self ← process_result_alleles (reference_alleles alignment');
      Return (alignment', self)
  end.

End ProgressiveAnalysis.

(** ** CombinedAnalysis.py *)

Module CombinedAnalysis.

Import AlignmentInformation.

(** A genotype combination: one pair of alleles per detected gene. *)
Definition combination : Type := list (string * string).

Record t : Type := mk {
  all_genotype_combinations : list combination;
  coding_sequences_per_position : list (string * list (string * string));
  genotype_combinations_per_position : list (list combination);
  typing_result : option (list combination);
  result_alleles_dictionary : list (string * list string)
}.

Definition set_coding_sequences_per_position (self : t)
    (csp : list (string * list (string * string))) : t :=
  mk (all_genotype_combinations self) csp (genotype_combinations_per_position self)
     (typing_result self) (result_alleles_dictionary self).

Definition set_genotype_combinations_per_position (self : t)
    (gcpp : list (list combination)) : t :=
  mk (all_genotype_combinations self) (coding_sequences_per_position self) gcpp
     (typing_result self) (result_alleles_dictionary self).

(** [itertools.combinations_with_replacement(l, 2)] *)
Fixpoint combinations_with_replacement_2 {A : Type} (l : list A) : list (A * A) :=
  match l with
  | [] => []
  | x :: l' => map (pair x) (x :: l') ++ combinations_with_replacement_2 l'
  end.

(** [itertools.product] over the pools: the leftmost pool varies slowest. *)
Fixpoint product {A : Type} (pools : list (list A)) : list (list A) :=
  match pools with
  | [] => [[]]
  | pool :: rest => flat_map (fun x => map (cons x) (product rest)) pool
  end.

(** [coding_sequence.append(allele_sequence[position])] over the positions
    of the proportion dictionary. *)
Fixpoint coding_sequence_loop (allele_sequence : list string) (positions : list Z)
    (coding_sequence : list string) : result (list string) :=
  match positions with
  | [] => Return coding_sequence
  | position :: rest =>
      nucleotide ← Py.getitem allele_sequence position;
      coding_sequence_loop allele_sequence rest (coding_sequence ++ [nucleotide])
  end.

(** [allele.split("*")[0]] on the text of a line, with the alias.  The line
    starts with the allele id and a tab, so that the text before the first
    "*" is the one of the id wherever the id holds a "*"; where it holds
    none, the text runs on past the tab into the sequence (taken here
    without its region bars), and equals no key that is free of tabs. *)
Definition line_gene (allele_id : string) (allele_sequence : list string) : string :=
  ProgressiveAnalysis.kir_gene_of
    (allele_id ++ String "009" (String.concat "" allele_sequence)).

(** [get_result_alleles_coding_sequences]: the loop over the allele lines;
    it writes into the dictionary of the [ProgressiveAnalysis] instance. *)
Fixpoint get_result_alleles_coding_sequences_loop (lines : list (string * list string))
    (positions : list Z) (rad : list (string * list (string * list string)))
    : result (list (string * list (string * list string))) :=
  match lines with
  | [] => Return rad
  | (allele_id, allele_sequence) :: rest =>
      let kir_gene := line_gene allele_id allele_sequence in
      match Dict.get kir_gene rad with
      | Some alleles =>
          if Dict.contains allele_id alleles then
            coding_sequence ← coding_sequence_loop allele_sequence positions [];
            get_result_alleles_coding_sequences_loop rest positions
              (Dict.setitem kir_gene (Dict.setitem allele_id coding_sequence alleles) rad)
          else get_result_alleles_coding_sequences_loop rest positions rad
      | None => get_result_alleles_coding_sequences_loop rest positions rad
      end
  end.

Definition get_result_alleles_coding_sequences
    (progressive_analysis_instance : ProgressiveAnalysis.t)
    (alignment_information_instance : AlignmentInformation.t)
    : result ProgressiveAnalysis.t :=
  rad ← get_result_alleles_coding_sequences_loop
          (Reference.allele_lines (reference alignment_information_instance))
          (Dict.keys (proportion_dictionary alignment_information_instance))
          (ProgressiveAnalysis.result_alleles_dictionary progressive_analysis_instance);
  Return {| ProgressiveAnalysis.result_alleles_dictionary := rad;
            ProgressiveAnalysis.exon_identical_alleles :=
              ProgressiveAnalysis.exon_identical_alleles progressive_analysis_instance |}.

(** [self.coding_sequences_per_position[kir_gene][allele] = ...[coding_position]]
    for the alleles of one gene. *)
Fixpoint gene_nucleotides (alleles : list (string * list string)) (coding_position : Z)
    (entry : list (string * string)) : result (list (string * string)) :=
  match alleles with
  | [] => Return entry
  | (allele, coding_sequence) :: rest =>
      nucleotide ← Py.getitem coding_sequence coding_position;
      gene_nucleotides rest coding_position (Dict.setitem allele nucleotide entry)
  end.

Fixpoint coding_sequences_loop (rad : list (string * list (string * list string)))
    (coding_position : Z) (csp : list (string * list (string * string)))
    : result (list (string * list (string * string))) :=
  match rad with
  | [] => Return csp
  | (kir_gene, alleles) :: rest =>
      entry ← gene_nucleotides alleles coding_position [];
      coding_sequences_loop rest coding_position (Dict.setitem kir_gene entry csp)
  end.

(** [len(np.unique(values)) > 1] for some gene; a call that finds none
    returns [None], which the caller's [is True] reads as "no". *)
Definition is_discriminant (self : t) : bool :=
  existsb (fun gene_entry : string * list (string * string) =>
             (1 <? length (remove_dups (Dict.values gene_entry.2)))%nat)
          (coding_sequences_per_position self).

(** [covered_nucleotides] of one combination. *)
Fixpoint covered_loop (alleles : list string)
    (csp : list (string * list (string * string)))
    (covered_nucleotides : list string) : result (list string) :=
  match alleles with
  | [] => Return covered_nucleotides
  | allele :: rest =>
      let kir_gene := ProgressiveAnalysis.kir_gene_of allele in
      entry ← Dict.getitem kir_gene csp;
      nucleotide ← Dict.getitem allele entry;
      covered_loop rest csp (covered_nucleotides ++ [nucleotide])
  end.

(** The alleles of a combination in the order the two nested loops meet them. *)
Definition alleles_of (c : combination) : list string :=
  flat_map (fun pair : string * string => [pair.1; pair.2]) c.

(** [set(present_nucleotides).issubset(set(covered_nucleotides))] *)
Definition issubset (present_nucleotides covered_nucleotides : list string) : bool :=
  forallb (fun n => bool_decide (n ∈ covered_nucleotides)) present_nucleotides.

Fixpoint combination_loop (combinations : list combination)
    (csp : list (string * list (string * string))) (present_nucleotides : list string)
    (combinations_in_position : list combination) : result (list combination) :=
  match combinations with
  | [] => Return combinations_in_position
  | c :: rest =>
      covered_nucleotides ← covered_loop (alleles_of c) csp [];
      if issubset present_nucleotides covered_nucleotides then
        combination_loop rest csp present_nucleotides (combinations_in_position ++ [c])
      else
        combination_loop rest csp present_nucleotides combinations_in_position
  end.

Definition check_genotype_combinations (self : t) (present_nucleotides : list string)
    : result t :=
  combinations_in_position ←
    combination_loop (all_genotype_combinations self)
                     (coding_sequences_per_position self) present_nucleotides [];
  Return (set_genotype_combinations_per_position self
            (genotype_combinations_per_position self ++ [combinations_in_position])).

(** The symbols stored under "Present Nucleotides", gaps left out. *)
Definition present_non_gap (entry : list (string * pvalue)) : result (list string) :=
  v ← Dict.getitem "Present Nucleotides"%string entry;
  match v with
  | PList l => Return (filter (fun n => n ≠ "."%string) l)
  | PFloat _ => Raise TypeError
  end.

(** The body of the loop over [enumerate(proportion_dictionary)]. *)
Definition position_step (self : t)
    (rad : list (string * list (string * list string)))
    (pd : list (Z * list (string * pvalue)))
    (coding_position : Z) (alignment_position : Z) : result t :=
  entry ← Dict.getitem alignment_position pd;
  present_nucleotides ← present_non_gap entry;
  if (1 <? length present_nucleotides)%nat then
    csp ← coding_sequences_loop rad coding_position [];
    let self := set_coding_sequences_per_position self csp in
    if is_discriminant self then check_genotype_combinations self present_nucleotides
    else Return self
  else Return self.

Fixpoint position_loop (self : t)
    (rad : list (string * list (string * list string)))
    (pd : list (Z * list (string * pvalue)))
    (coding_position : Z) (positions : list Z) : result t :=
  match positions with
  | [] => Return self
  | alignment_position :: rest =>
      self' ← position_step self rad pd coding_position alignment_position;
      position_loop self' rad pd (coding_position + 1) rest
  end.

Definition build_all_genotype_combinations
    (rad : list (string * list (string * list string))) : list combination :=
  product (map (fun gene_entry : string * list (string * list string) =>
                  combinations_with_replacement_2 (Dict.keys gene_entry.2)) rad).

Definition find_matching_combinations_per_position (self : t)
    (progressive_analysis_instance : ProgressiveAnalysis.t)
    (alignment_information_instance : AlignmentInformation.t) : result t :=
  let rad := ProgressiveAnalysis.result_alleles_dictionary progressive_analysis_instance in
  let self :=
    mk (build_all_genotype_combinations rad) (coding_sequences_per_position self) []
       (typing_result self) (result_alleles_dictionary self) in
  position_loop self rad (proportion_dictionary alignment_information_instance) 0
    (Dict.keys (proportion_dictionary alignment_information_instance)).

(** The loop of [get_typing_results] over the per-position lists: the sets
    are kept as duplicate-free lists; with no list the loop assigns nothing. *)
Definition intersect_all (gcpp : list (list combination)) : option (list combination) :=
  match gcpp with
  | [] => None
  | first :: rest =>
      Some (fold_left (fun acc l => filter (fun c => c ∈ l) acc) rest (remove_dups first))
  end.

(** [get_typing_results]: where the loop assigned nothing [typing_result]
    is what it was before the call, and that value is tested against [None];
    the alleles that remain are sorted, as [np.unique] returns them, and
    appended to the dictionary the instance holds. *)
Definition get_typing_results (self : t) : t :=
  let typing_result' :=
    match intersect_all (genotype_combinations_per_position self) with
    | None => typing_result self
    | Some typing => Some typing
    end in
  match typing_result' with
  | None => self
  | Some typing =>
      let remaining_alleles :=
        merge_sort str_le (remove_dups (flat_map alleles_of typing)) in
      mk (all_genotype_combinations self) (coding_sequences_per_position self)
         (genotype_combinations_per_position self) (Some typing)
         (ProgressiveAnalysis.group_by_gene remaining_alleles
            (result_alleles_dictionary self))
  end.

(** [__init__]; the three objects are returned as the call leaves them. *)
Definition init (progressive_analysis_instance : ProgressiveAnalysis.t)
    (alignment_information_instance : AlignmentInformation.t)
    : result (ProgressiveAnalysis.t * AlignmentInformation.t * t) :=
  let self := mk [] [] [] None [] in
  progressive' ← get_result_alleles_coding_sequences progressive_analysis_instance
                   alignment_information_instance;
  self ← find_matching_combinations_per_position self progressive'
           alignment_information_instance;
  Return (progressive', alignment_information_instance, get_typing_results self).

End CombinedAnalysis.

(** ** KIRtyper.py *)

Module KIRtyper.

(** [for exon_range in reference.exons_index_list]: the read is tallied once,
    at the first exon range it reaches into. *)
Fixpoint exon_loop (exons : list (Z * Z)) (read : Read.t)
    (alignment : AlignmentInformation.t) : result AlignmentInformation.t :=
  match exons with
  | [] => Return alignment
  | exon_range :: rest =>
      in_exons ← Read.is_aligned_to read exon_range;
      match in_exons with
      | true => AlignmentInformation.update_count_dictionary alignment read
      | false => exon_loop rest read alignment
      end
  end.

(** The body of the loop over the SAM lines, for a line already turned into
    a [Read] by [Read.init]. *)
Definition process_read (exons : list (Z * Z)) (alignment : AlignmentInformation.t)
    (read : Read.t) : result AlignmentInformation.t :=
  if negb (Read.flag read =? 4) && (Read.quality read =? 255) then
    let read := Read.parse_cigar read in
    '(read, _) ← Read.get_aligned_sequence read;
    exon_loop exons read alignment
  else Return alignment.

Fixpoint read_loop (exons : list (Z * Z)) (reads : list Read.t)
    (alignment : AlignmentInformation.t) : result AlignmentInformation.t :=
  match reads with
  | [] => Return alignment
  | read :: rest =>
      alignment' ← process_read exons alignment read;
      read_loop exons rest alignment'
  end.

(** [main] up to the writing of the report; the reference is the instance
    after [get_regions_index]. *)
Definition main (reference : Reference.t) (reads : list Read.t)
    : result (ProgressiveAnalysis.t * AlignmentInformation.t * CombinedAnalysis.t) :=
  let alignment := AlignmentInformation.init reference in
  alignment ← read_loop (Reference.exons_index_list reference) reads alignment;
  alignment ← AlignmentInformation.create_proportion_dictionary alignment;
  '(alignment, progressive_analysis) ← ProgressiveAnalysis.init alignment 5;
  CombinedAnalysis.init progressive_analysis alignment.

End KIRtyper.

(** ** What the specification says, in its own words *)

Module Spec.

Import AlignmentInformation.

(** An operator description as the specification reads it: runs of digits,
    each followed by its operator. *)
Definition description : Type := list (list ascii * ascii).

Definition digit_run (digits : list ascii) : Prop :=
  digits ≠ [] ∧ Forall (fun c => is_digit c = true) digits.

Definition well_formed (ops : description) : Prop :=
  Forall (fun op : list ascii * ascii =>
            digit_run op.1 ∧ Read.is_operator op.2 = true) ops.

(** The text of a description. *)
Definition render (ops : description) : list ascii :=
  flat_map (fun op : list ascii * ascii => op.1 ++ [op.2]) ops.

(** The number a run of digits denotes. *)
Definition decimal (digits : list ascii) : Z :=
  fold_left (fun acc c => 10 * acc + digit_value c) digits 0.

(** The sum of the lengths of the operators of one kind. *)
Fixpoint total (kind : ascii) (ops : description) : Z :=
  match ops with
  | [] => 0
  | (digits, operator) :: rest =>
      if Ascii.eqb operator kind then decimal digits + total kind rest
      else total kind rest
  end.

(** The reconstruction: a Match emits the next raw bases, a Deletion emits
    gap symbols, an Insertion drops raw bases. *)
Fixpoint expand (ops : description) (raw : list string) : list string :=
  match ops with
  | [] => []
  | (digits, operator) :: rest =>
      let n := Z.to_nat (decimal digits) in
      if Ascii.eqb operator "M" then take n raw ++ expand rest (drop n raw)
      else if Ascii.eqb operator "D" then replicate n "."%string ++ expand rest raw
      else expand rest (drop n raw)
  end.

(** The operators of the SAM format other than M, D and I. *)
Definition other_operator (c : ascii) : bool :=
  bool_decide (c ∈ ["N"; "S"; "H"; "P"; "="; "X"]%char).

(** What the caller of [get_aligned_sequence] is handed back. *)
Definition handed_back (m : result (Read.t * Read.returned)) : result Read.returned :=
  m ≫= fun p => Return p.2.

(** The symbols a reconstructed read may hold. *)
Definition alphabet : list string := ["A"; "T"; "G"; "C"; "."; "N"]%string.

(** One symbol tallied into an entry: "N" leaves the entry as it is. *)
Definition record_symbol (nucleotide : string) (entry : tally) : tally :=
  if String.eqb nucleotide "N" then entry
  else match tally_incr nucleotide entry with
       | Return entry' => entry'
       | Raise _ => entry
       end.

(** The symbol a read starting at [position] holds at reference position [p]. *)
Definition symbol_at (aligned : list string) (position p : Z) : option string :=
  if p <? position then None else aligned !! Z.to_nat (p - position).

(** What one read adds to the entry of position [p], the excluded positions
    being given. *)
Definition visit (aligned : list string) (position : Z) (excluded : list Z)
    (p : Z) (entry : tally) : tally :=
  if bool_decide (p ∈ excluded) then entry
  else match symbol_at aligned position p with
       | Some nucleotide => record_symbol nucleotide entry
       | None => entry
       end.

(** A read as the driver hands it over: reconstructed, over the alphabet. *)
Definition reconstructed (read : Read.t) : Prop :=
  Forall (fun n => n ∈ alphabet) (Read.aligned_sequence read)
  ∧ Read.rightmost_position read
    = Some (Read.leftmost_position read
            + Z.of_nat (length (Read.aligned_sequence read))).

(** Every range of the memo has its right end. *)
Definition memo_closed (self : AlignmentInformation.t) : Prop :=
  ∀ qname first last,
    processed_reads_dictionary self !! qname = Some (first, last) → is_Some last.

(** The range [leftmost, rightmost) of a reconstructed read. *)
Definition in_range (read : Read.t) (p : Z) : Prop :=
  Read.leftmost_position read ≤ p
  < Read.leftmost_position read + Z.of_nat (length (Read.aligned_sequence read)).

(** Any sequence of calls of [update_count_dictionary]. *)
Fixpoint record_all (reads : list Read.t) (self : AlignmentInformation.t)
    : result AlignmentInformation.t :=
  match reads with
  | [] => Return self
  | read :: rest =>
      self' ← update_count_dictionary self read;
      record_all rest self'
  end.

(** The first record of a list that carries a given pairing id. *)
Fixpoint first_with_id (qname : string) (reads : list Read.t) : option Read.t :=
  match reads with
  | [] => None
  | read :: rest =>
      if decide (Read.id read = qname) then Some read else first_with_id qname rest
  end.

(** A proportion table as [create_proportion_dictionary] leaves it: under
    every position, symbols with their percentages and nothing else. *)
Definition table : Type := list (Z * list (string * Q)).

Definition derived_entry (entry : list (string * Q)) : list (string * pvalue) :=
  map (fun nq : string * Q => (nq.1, PFloat nq.2)) entry.

Definition derived (rows : table) : list (Z * list (string * pvalue)) :=
  map (fun row : Z * list (string * Q) => (row.1, derived_entry row.2)) rows.

(** The present symbols of a position: those whose percentage strictly
    exceeds the threshold. *)
Fixpoint present (proportion_threshold : Q) (entry : list (string * Q)) : list string :=
  match entry with
  | [] => []
  | (nucleotide, q) :: rest =>
      if negb (Qle_bool q proportion_threshold)
      then nucleotide :: present proportion_threshold rest
      else present proportion_threshold rest
  end.

(** The nucleotide an allele of the reference carries at a position. *)
Definition nucleotide_of (lines : list (string * list string)) (allele : string)
    (position : Z) : option string :=
  Dict.get allele lines ≫= fun allele_sequence => allele_sequence !! Z.to_nat position.

(** An allele survives a position when its nucleotide there is present. *)
Definition survives (proportion_threshold : Q) (lines : list (string * list string))
    (row : Z * list (string * Q)) (allele : string) : bool :=
  match nucleotide_of lines allele row.1 with
  | Some nucleotide => bool_decide (nucleotide ∈ present proportion_threshold row.2)
  | None => false
  end.

(** The survivor set of one position. *)
Definition survivor_set (proportion_threshold : Q) (lines : list (string * list string))
    (row : Z * list (string * Q)) (alleles : list string) : list string :=
  filter (fun allele => survives proportion_threshold lines row allele = true) alleles.

(** The intersection of the survivor sets of all positions. *)
Definition intersection (proportion_threshold : Q) (lines : list (string * list string))
    (rows : table) (alleles : list string) : list string :=
  filter (fun allele =>
            Forall (fun row => allele ∈ survivor_set proportion_threshold lines row alleles)
                   rows)
         alleles.

(** The table after the Progressive Filter: every entry with the list of
    its present symbols under one more key. *)
Definition annotated (proportion_threshold : Q) (rows : table)
    : list (Z * list (string * pvalue)) :=
  map (fun row : Z * list (string * Q) =>
         (row.1, derived_entry row.2
                 ++ [("Present Nucleotides"%string, PList (present proportion_threshold row.2))]))
      rows.

(** The five symbol keys of an entry. *)
Definition symbol_keys : list string := ["A"; "T"; "G"; "C"; "."]%string.

(** The surviving alleles, gene by gene, each with its coding sequence. *)
Definition survivors : Type := list (string * list (string * list string)).

(** The nucleotides the alleles of one gene carry at a coding position. *)
Definition nucleotides_at (coding_position : Z) (alleles : list (string * list string))
    : list (string * string) :=
  omap (fun ac : string * list string =>
          (fun n => (ac.1, n)) <$> ac.2 !! Z.to_nat coding_position)
       alleles.

Definition column (rad : survivors) (coding_position : Z)
    : list (string * list (string * string)) :=
  map (fun ge : string * list (string * list string) =>
         (ge.1, nucleotides_at coding_position ge.2)) rad.

(** A position is discriminant when the surviving alleles of some gene carry
    more than one nucleotide there. *)
Definition discriminant (rad : survivors) (coding_position : Z) : Prop :=
  ∃ kir_gene alleles allele1 sequence1 allele2 sequence2 n1 n2,
    (kir_gene, alleles) ∈ rad
    ∧ (allele1, sequence1) ∈ alleles ∧ (allele2, sequence2) ∈ alleles
    ∧ sequence1 !! Z.to_nat coding_position = Some n1
    ∧ sequence2 !! Z.to_nat coding_position = Some n2
    ∧ n1 ≠ n2.

(** The nucleotide an allele of a combination contributes at a position. *)
Definition contributed (rad : survivors) (coding_position : Z) (allele : string)
    : option string :=
  Dict.get (ProgressiveAnalysis.kir_gene_of allele) rad ≫= fun alleles =>
  Dict.get allele alleles ≫= fun coding_sequence =>
  coding_sequence !! Z.to_nat coding_position.

(** The nucleotides covered by a combination at a position. *)
Definition covered (rad : survivors) (coding_position : Z)
    (c : CombinedAnalysis.combination) : list string :=
  omap (contributed rad coding_position) (CombinedAnalysis.alleles_of c).

(** The dictionary of survivors as the Progressive Filter and
    [get_result_alleles_coding_sequences] leave it: genes and alleles are
    keys, so distinct; every allele sits under its own gene; every coding
    sequence reaches the position. *)
Definition well_keyed (rad : survivors) (coding_position : Z) : Prop :=
  NoDup (Dict.keys rad)
  ∧ ∀ kir_gene alleles,
      (kir_gene, alleles) ∈ rad →
      NoDup (Dict.keys alleles)
      ∧ ∀ allele coding_sequence,
          (allele, coding_sequence) ∈ alleles →
          ProgressiveAnalysis.kir_gene_of allele = kir_gene
          ∧ 0 ≤ coding_position < Z.of_nat (length coding_sequence).

(** A surviving allele carries a nucleotide at a position. *)
Definition carries (rad : survivors) (coding_position : Z) (allele nucleotide : string)
    : Prop :=
  ∃ kir_gene alleles coding_sequence,
    (kir_gene, alleles) ∈ rad
    ∧ (allele, coding_sequence) ∈ alleles
    ∧ coding_sequence !! Z.to_nat coding_position = Some nucleotide.

(** A combination explains a nucleotide at a position when one of the two
    alleles of one of its locus pairs carries it there. *)
Definition explains (rad : survivors) (coding_position : Z)
    (c : list (string * string)) (nucleotide : string) : Prop :=
  ∃ pair, pair ∈ c
          ∧ (carries rad coding_position pair.1 nucleotide
             ∨ carries rad coding_position pair.2 nucleotide).

End Spec.

(** What [allele_loop] keeps, line by line: an allele without a line is
    never looked at. *)
Definition kept (lines : list (string * list string)) (position : Z)
    (present_nucleotides : list string) (allele : string) : bool :=
  match Dict.get allele lines with
  | Some allele_sequence =>
      match allele_sequence !! Z.to_nat position with
      | Some nucleotide => bool_decide (nucleotide ∈ present_nucleotides)
      | None => false
      end
  | None => true
  end.

(** The two effects of one position of the Progressive Filter, on the table
    and on the candidates. *)
Definition step_table (proportion_threshold : Q)
    (pd : list (Z * list (string * AlignmentInformation.pvalue)))
    (row : Z * list (string * Q)) : list (Z * list (string * AlignmentInformation.pvalue)) :=
  Dict.setitem row.1
    (Dict.setitem "Present Nucleotides"%string
       (AlignmentInformation.PList (Spec.present proportion_threshold row.2))
       (Spec.derived_entry row.2))
    pd.

Definition step_candidates (proportion_threshold : Q) (lines : list (string * list string))
    (candidates : list string) (row : Z * list (string * Q)) : list string :=
  filter (fun allele =>
            kept lines row.1 (Spec.present proportion_threshold row.2) allele = true)
         candidates.


(** What [exclude_exon_identical_alleles] compares two alleles by: the first
    five characters of the code after the "*", for a code of more than four
    characters. *)
Definition exon_signature (allele : string) : option (list string) :=
  match split "*" allele !! 1%nat with
  | Some code =>
      if (4 <? length (list_of_str code))%nat then Some (take 5 (list_of_str code))
      else None
  | None => None
  end.

(** The number of nucleotides and gap symbols in a run of regions. *)
Definition regions_length (regions : list string) : Z :=
  foldr (fun region total => Z.of_nat (String.length region) + total) 0 regions.

(** The position at which region number [i] of a sequence starts. *)
Definition region_start (first_sequence : list string) (i : nat) : Z :=
  regions_length (take i first_sequence).

(** ** Worked data *)

Module Examples.

(** Two alleles of one gene that differ at the only exon position. *)
Definition panel : Reference.t :=
  Reference.mk [("G1*001"%string, ["A"; "C"]%string); ("G1*002"%string, ["A"; "G"]%string)]
               [(1, 2)].

Definition balanced_entry : list (string * Q) :=
  [("A"%string, 0%Q); ("T"%string, 0%Q); ("G"%string, 50%Q); ("C"%string, 50%Q);
   ("."%string, 0%Q)].

(** One read with C and one with G at the exon position, proportions derived. *)
Definition balanced : AlignmentInformation.t :=
  AlignmentInformation.mk panel
    [(1, AlignmentInformation.mk_tally 0 0 1 1 0)]
    (Spec.derived [(1, balanced_entry)])
    ["G1*001"; "G1*002"]%string
    ∅.

(** The two alleles as the Progressive Filter hands them on, with their
    coding sequences over the one exon position. *)
Definition survivors : Spec.survivors :=
  [("G1"%string, [("G1*001"%string, ["C"]%string); ("G1*002"%string, ["G"]%string)])].

(** The table of [balanced] after the Progressive Filter at threshold 5. *)
Definition balanced_annotated : list (Z * list (string * AlignmentInformation.pvalue)) :=
  Spec.annotated 5 [(1, balanced_entry)].

(** Two alleles of which one has a gap at the exon position, and a table
    where the base and the gap are both present. *)
Definition gap_survivors : Spec.survivors :=
  [("G1"%string, [("G1*001"%string, ["A"]%string); ("G1*002"%string, ["."]%string)])].

Definition gap_entry : list (string * Q) :=
  [("A"%string, 50%Q); ("T"%string, 0%Q); ("G"%string, 0%Q); ("C"%string, 0%Q);
   ("."%string, 50%Q)].

Definition gap_annotated : list (Z * list (string * AlignmentInformation.pvalue)) :=
  Spec.annotated 5 [(1, gap_entry)].

(** Two mates of one pair that share position 1, and a third record under
    the same pairing id further to the right. *)
Definition mate1 : Read.t :=
  Read.mk "pair" 0 0 255 ["2"; "M"]%char "AC" [("2"%string, "M"%char)]
          ["A"; "C"]%string (Some 2).

Definition mate2 : Read.t :=
  Read.mk "pair" 16 1 255 ["2"; "M"]%char "CG" [("2"%string, "M"%char)]
          ["C"; "G"]%string (Some 3).

Definition mate3 : Read.t :=
  Read.mk "pair" 16 2 255 ["2"; "M"]%char "GT" [("2"%string, "M"%char)]
          ["G"; "T"]%string (Some 4).

(** An accumulator over one exon that spans positions 0 to 3. *)
Definition accumulator : AlignmentInformation.t :=
  AlignmentInformation.init (Reference.mk [] [(0, 4)]).

(** Three alleles over an exon of two positions; every read shows A at the
    first and C at the second, so that each position eliminates one allele. *)
Definition trio_panel : Reference.t :=
  Reference.mk
    [("G1*001"%string, ["A"; "C"]%string); ("G1*002"%string, ["A"; "G"]%string);
     ("G1*003"%string, ["T"; "C"]%string)]
    [(0, 2)].

Definition trio_table : Spec.table :=
  [(0, [("A"%string, 100%Q); ("T"%string, 0%Q); ("G"%string, 0%Q); ("C"%string, 0%Q);
        ("."%string, 0%Q)]);
   (1, [("A"%string, 0%Q); ("T"%string, 0%Q); ("G"%string, 0%Q); ("C"%string, 100%Q);
        ("."%string, 0%Q)])].

Definition trio : AlignmentInformation.t :=
  AlignmentInformation.mk trio_panel
    [(0, AlignmentInformation.mk_tally 2 0 0 0 0);
     (1, AlignmentInformation.mk_tally 0 0 0 2 0)]
    (Spec.derived trio_table)
    ["G1*001"; "G1*002"; "G1*003"]%string
    ∅.

(** Two genes: the alleles of the first differ at the exon position, the
    one allele of the second carries a third nucleotide there; and a table
    where the two nucleotides of the first gene and the gap are present. *)
Definition two_gene_survivors : Spec.survivors :=
  [("G1"%string, [("G1*001"%string, ["A"]%string); ("G1*002"%string, ["C"]%string)]);
   ("G2"%string, [("G2*001"%string, ["G"]%string)])].

Definition two_gene_entry : list (string * Q) :=
  [("A"%string, 40%Q); ("T"%string, 0%Q); ("G"%string, 0%Q); ("C"%string, 40%Q);
   ("."%string, 20%Q)].

Definition two_gene_annotated : list (Z * list (string * AlignmentInformation.pvalue)) :=
  Spec.annotated 5 [(7, two_gene_entry)].

(** The matcher before its position loop. *)
Definition matcher (rad : Spec.survivors) : CombinedAnalysis.t :=
  CombinedAnalysis.mk (CombinedAnalysis.build_all_genotype_combinations rad) [] [] None [].

End Examples.

(** ** Tactics for closed instances *)

(** A list of symbols lies within the alphabet. *)
Ltac solve_alphabet :=
  repeat (apply Forall_cons; split; [by apply (bool_decide_unpack _) |]);
  by apply Forall_nil.

(** Membership in a list written out: one case per element. *)
Ltac split_elem H :=
  repeat (apply elem_of_cons in H; destruct H as [H | H]);
  try (by apply elem_of_nil in H).

(** * Properties *)

(** ** Python primitives *)

Lemma bind_return {A B : Type} (m : result A) (k : A → result B) (b : B) :
  m ≫= k = Return b → ∃ a, m = Return a ∧ k a = Return b.
Proof. destruct m as [a|e]; simpl; [eauto | discriminate]. Qed.

Lemma raises_bind_l {A B : Type} (m : result A) (k : A → result B) :
  raises m → raises (m ≫= k).
Proof. intros [e ->]. by exists e. Qed.

Lemma digit_not_space c : is_digit c = true → is_space c = false.
Proof.
  unfold is_digit, is_space. generalize (nat_of_ascii c). intros n H.
  cbv zeta in *.
  apply andb_true_iff in H as [H1 H2].
  apply Nat.leb_le in H1, H2.
  rewrite !orb_false_iff, !andb_false_iff, !Nat.leb_gt, !Nat.eqb_neq.
  lia.
Qed.

Lemma digit_not_char c d :
  is_digit c = true → is_digit d = false → Ascii.eqb c d = false.
Proof.
  intros Hc Hd. destruct (Ascii.eqb_spec c d) as [->|]; [congruence | done].
Qed.

Lemma digit_not_operator c : is_digit c = true → Read.is_operator c = false.
Proof.
  intros H. unfold Read.is_operator.
  rewrite !(digit_not_char c) by done. done.
Qed.

Lemma lstrip_digit c l : is_digit c = true → lstrip (c :: l) = c :: l.
Proof. intros H. simpl. by rewrite digit_not_space. Qed.

Lemma strip_digits l :
  Forall (fun c => is_digit c = true) l → strip l = l.
Proof.
  intros H. unfold strip.
  assert (Hl : lstrip l = l).
  { destruct H; [done | by apply lstrip_digit]. }
  rewrite Hl.
  assert (Hr : lstrip (rev l) = rev l).
  { destruct (rev l) as [|c r] eqn:E; [done |].
    apply lstrip_digit.
    assert (Hin : c ∈ rev l) by (rewrite E; left).
    rewrite list_elem_of_In, <- in_rev, <- list_elem_of_In in Hin.
    by rewrite Forall_forall in H; apply H. }
  rewrite Hr. apply rev_involutive.
Qed.

Lemma int_digits_run acc l :
  Forall (fun c => is_digit c = true) l →
  int_digits acc false l = Some (fold_left (fun a c => 10 * a + digit_value c) l acc).
Proof.
  intros H. revert acc. induction H as [|c l Hc _ IH]; intros acc; simpl; [done |].
  rewrite Hc. apply IH.
Qed.

Lemma digit_value_nonneg c : is_digit c = true → 0 ≤ digit_value c.
Proof.
  unfold is_digit, digit_value. intros H.
  apply andb_true_iff in H as [H1 _]. apply Nat.leb_le in H1. lia.
Qed.

Lemma fold_decimal_nonneg l acc :
  Forall (fun c => is_digit c = true) l → 0 ≤ acc →
  0 ≤ fold_left (fun a c => 10 * a + digit_value c) l acc.
Proof.
  intros H. revert acc. induction H as [|c l Hc _ IH]; intros acc Hacc; simpl; [done |].
  apply IH. pose proof (digit_value_nonneg c Hc). lia.
Qed.

Lemma decimal_nonneg digits : Spec.digit_run digits → 0 ≤ Spec.decimal digits.
Proof. intros [_ H]. by apply fold_decimal_nonneg. Qed.

(** [int] reads a run of digits as the number it denotes. *)
Lemma int_digit_run digits :
  Spec.digit_run digits → Py.int (join_chars digits) = Return (Spec.decimal digits).
Proof.
  intros [Hne H]. unfold Py.int, join_chars.
  rewrite list_ascii_of_string_of_list_ascii, strip_digits by done.
  destruct digits as [|c l]; [done |].
  inversion H as [|? ? Hc Hl]; subst.
  unfold int_signed.
  rewrite (digit_not_char c "+"), (digit_not_char c "-") by done.
  unfold int_unsigned. rewrite Hc.
  rewrite int_digits_run by done.
  unfold Spec.decimal. simpl. done.
Qed.

(** ** Read.py: the alignment reconstructor *)

Lemma parse_cigar_loop_run digits o rest sub parsed :
  Forall (fun c => is_digit c = true) digits →
  Read.is_operator o = true →
  Read.parse_cigar_loop (digits ++ o :: rest) sub parsed =
  Read.parse_cigar_loop rest [] (parsed ++ [(join_chars (sub ++ digits), o)]).
Proof.
  intros H Ho. revert sub.
  induction H as [|c l Hc _ IH]; intros sub; simpl.
  - by rewrite Ho, app_nil_r.
  - rewrite (digit_not_operator c Hc), IH, <- app_assoc. done.
Qed.

Lemma parse_cigar_loop_render ops tail parsed :
  Spec.well_formed ops →
  Read.parse_cigar_loop (Spec.render ops ++ tail) [] parsed =
  Read.parse_cigar_loop tail []
    (parsed ++ map (fun op : list ascii * ascii => (join_chars op.1, op.2)) ops).
Proof.
  intros H. revert parsed.
  induction H as [|[digits o] ops [[_ Hd] Ho] _ IH]; intros parsed; simpl in *.
  - by rewrite app_nil_r.
  - rewrite <- !app_assoc. simpl.
    rewrite parse_cigar_loop_run by done.
    rewrite IH, <- app_assoc. done.
Qed.

Lemma getitem_lookup {A : Type} (l : list A) (i : nat) (x : A) :
  l !! i = Some x → Py.getitem l (Z.of_nat i) = Return x.
Proof.
  intros H. unfold Py.getitem.
  pose proof (lookup_lt_Some _ _ _ H) as Hlt.
  destruct (Z.ltb_spec (Z.of_nat i) 0) as [|_]; [lia |].
  destruct (Z.ltb_spec (Z.of_nat i) 0) as [|_]; [lia |].
  destruct (Z.leb_spec (Z.of_nat (length l)) (Z.of_nat i)) as [|_]; [lia |].
  simpl. by rewrite Nat2Z.id, H.
Qed.

Lemma match_loop_take sequence_lst (n last : nat) aligned :
  (last + n ≤ length sequence_lst)%nat →
  Read.match_loop sequence_lst (seqZ (Z.of_nat last) (Z.of_nat n)) aligned =
  Return (aligned ++ take n (drop last sequence_lst)).
Proof.
  revert last aligned. induction n as [|n IH]; intros last aligned Hlen.
  - simpl. by rewrite app_nil_r.
  - rewrite seqZ_cons by lia. simpl.
    destruct (lookup_lt_is_Some_2 sequence_lst last) as [x Hx]; [lia |].
    rewrite (getitem_lookup _ _ _ Hx). simpl.
    replace (Z.succ (Z.of_nat last)) with (Z.of_nat (S last)) by lia.
    replace (Z.pred (Z.of_nat (S n))) with (Z.of_nat n) by lia.
    rewrite IH by lia.
    rewrite (drop_S _ _ _ Hx). simpl. by rewrite <- app_assoc.
Qed.

Lemma deletion_loop_replicate indices aligned :
  Read.deletion_loop indices aligned =
  aligned ++ replicate (length indices) "."%string.
Proof.
  unfold Read.deletion_loop. revert aligned.
  induction indices as [|i l IH]; intros aligned; simpl.
  - by rewrite app_nil_r.
  - rewrite IH, <- app_assoc. done.
Qed.

Lemma operator_cases o :
  Read.is_operator o = true → o = "M"%char ∨ o = "D"%char ∨ o = "I"%char.
Proof.
  unfold Read.is_operator. rewrite !orb_true_iff.
  intros [[H|H]|H]; apply Ascii.eqb_eq in H; auto.
Qed.

Lemma total_nonneg kind ops : Spec.well_formed ops → 0 ≤ Spec.total kind ops.
Proof.
  induction 1 as [|[d o] l [Hd _] _ IH]; simpl in *; [lia |].
  pose proof (decimal_nonneg _ Hd). destruct (Ascii.eqb o kind); lia.
Qed.

Lemma cigar_loop_expand sequence_lst ops aligned last :
  Spec.well_formed ops →
  0 ≤ last →
  last + Spec.total "M" ops + Spec.total "I" ops ≤ Z.of_nat (length sequence_lst) →
  Read.cigar_loop sequence_lst
    (map (fun op : list ascii * ascii => (join_chars op.1, op.2)) ops) aligned last =
  Return (aligned ++ Spec.expand ops (drop (Z.to_nat last) sequence_lst)).
Proof.
  intros H. revert aligned last.
  induction H as [|[digits o] ops [Hd Ho] Hops IH]; intros aligned last Hlast Hlen.
  - simpl. by rewrite app_nil_r.
  - simpl in Hd, Ho. cbn [map Read.cigar_loop fst snd].
    rewrite (int_digit_run _ Hd). cbn [mbind result_bind Py.bind].
    pose proof (decimal_nonneg _ Hd) as Hn.
    pose proof (total_nonneg "M" _ Hops) as HM.
    pose proof (total_nonneg "I" _ Hops) as HI.
    destruct (operator_cases o Ho) as [-> | [-> | ->]]; cbn in Hlen |- *.
    + unfold range.
      replace (Spec.decimal digits + last - last) with
        (Z.of_nat (Z.to_nat (Spec.decimal digits))) by lia.
      rewrite <- (Z2Nat.id last) at 1 by done.
      rewrite match_loop_take by lia.
      cbn [mbind result_bind Py.bind].
      rewrite IH by lia.
      rewrite <- app_assoc, drop_drop.
      by replace (Z.to_nat (last + Spec.decimal digits)) with
        (Z.to_nat last + Z.to_nat (Spec.decimal digits))%nat by lia.
    + rewrite deletion_loop_replicate. unfold range. rewrite length_seqZ.
      rewrite IH by lia.
      rewrite <- app_assoc. by rewrite Z.sub_0_r.
    + rewrite IH by lia.
      rewrite drop_drop.
      by replace (Z.to_nat (last + Spec.decimal digits)) with
        (Z.to_nat last + Z.to_nat (Spec.decimal digits))%nat by lia.
Qed.

Lemma expand_length ops raw :
  Spec.well_formed ops →
  Spec.total "M" ops + Spec.total "I" ops ≤ Z.of_nat (length raw) →
  Z.of_nat (length (Spec.expand ops raw)) = Spec.total "M" ops + Spec.total "D" ops.
Proof.
  intros H. revert raw.
  induction H as [|[digits o] ops [Hd Ho] Hops IH]; intros raw Hlen; [done |].
  simpl in Hd, Ho.
  pose proof (decimal_nonneg _ Hd) as Hn.
  pose proof (total_nonneg "M" _ Hops) as HM.
  pose proof (total_nonneg "I" _ Hops) as HI.
  destruct (operator_cases o Ho) as [-> | [-> | ->]]; cbn in Hlen |- *.
  - rewrite length_app, length_take, Nat2Z.inj_add, IH.
    + lia.
    + rewrite length_drop. lia.
  - rewrite length_app, length_replicate, Nat2Z.inj_add, IH by lia. lia.
  - rewrite IH; [lia |]. rewrite length_drop. lia.
Qed.

Lemma length_list_of_str s : length (list_of_str s) = String.length s.
Proof.
  unfold list_of_str. rewrite length_map.
  induction s as [|c s IH]; simpl; [done | by rewrite IH].
Qed.

Lemma expand_alphabet ops raw :
  Forall (fun n => n ∈ Spec.alphabet) raw →
  Forall (fun n => n ∈ Spec.alphabet) (Spec.expand ops raw).
Proof.
  revert raw. induction ops as [|[digits o] ops IH]; intros raw Hraw; simpl.
  - by apply Forall_nil.
  - destruct (Ascii.eqb o "M"); [| destruct (Ascii.eqb o "D")].
    + apply Forall_app. split; [by apply Forall_take | by apply IH, Forall_drop].
    + apply Forall_app. split; [| by apply IH].
      apply Forall_replicate. by apply (bool_decide_unpack _).
    + by apply IH, Forall_drop.
Qed.

(** The reconstruction of a well-formed record, in full. *)
Lemma get_aligned_sequence_expand qname flag_field pos_field mapq_field
    (ops : Spec.description) (seq : string) :
  Spec.well_formed ops →
  Spec.total "M" ops + Spec.total "I" ops ≤ Z.of_nat (String.length seq) →
  let aligned := Spec.expand ops (list_of_str seq) in
  let rightmost := pos_field - 1 + Z.of_nat (length aligned) in
  Read.get_aligned_sequence
    (Read.parse_cigar
       (Read.init qname flag_field pos_field mapq_field
          (string_of_list_ascii (Spec.render ops)) seq))
  = Return
      (Read.mk qname flag_field (pos_field - 1) mapq_field (Spec.render ops) seq
         (map (fun op : list ascii * ascii => (join_chars op.1, op.2)) ops)
         aligned (Some rightmost),
       Read.Aligned aligned rightmost).
Proof.
  intros Hwf Hlen aligned rightmost.
  unfold Read.get_aligned_sequence, Read.parse_cigar, Read.is_fresh_empty_list.
  cbn [Read.init Read.parsed_cigar Read.cigar_lst Read.sequence
       Read.aligned_sequence Read.leftmost_position Read.id Read.flag
       Read.quality Read.rightmost_position].
  rewrite list_ascii_of_string_of_list_ascii.
  assert (Hparse : Read.parse_cigar_loop (Spec.render ops) [] []
                   = map (fun op : list ascii * ascii => (join_chars op.1, op.2)) ops).
  { pose proof (parse_cigar_loop_render ops [] [] Hwf) as H.
    by rewrite app_nil_r in H. }
  rewrite Hparse.
  rewrite <- length_list_of_str in Hlen.
  rewrite cigar_loop_expand by (done || lia).
  done.
Qed.

(** A record reconstructed from bases among A, T, G, C and N is what the
    accumulator expects. *)
Lemma get_aligned_sequence_reconstructed qname flag_field pos_field mapq_field
    (ops : Spec.description) (seq : string) :
  Spec.well_formed ops →
  Spec.total "M" ops + Spec.total "I" ops ≤ Z.of_nat (String.length seq) →
  Forall (fun n => n ∈ Spec.alphabet) (list_of_str seq) →
  ∃ read' returned,
    Read.get_aligned_sequence
      (Read.parse_cigar
         (Read.init qname flag_field pos_field mapq_field
            (string_of_list_ascii (Spec.render ops)) seq))
    = Return (read', returned)
    ∧ Spec.reconstructed read'.
Proof.
  intros Hwf Hlen Hseq. eexists _, _.
  split; [by apply get_aligned_sequence_expand |].
  split; [by apply expand_alphabet | done].
Qed.

(** C6.  For a record whose operator description alternates runs of digits
    with operators among M, D and I, and whose raw sequence holds at least as
    many bases as its Matches and Insertions consume, the reconstruction
    returns; the aligned sequence is the expansion of the description (Match
    bases unchanged, Deletions as gap symbols, Insertions dropped), its
    length is the sum of the Match and Deletion lengths, and the rightmost
    position is the leftmost position plus that length. *)
Theorem C6_reconstructed_sequence qname flag_field pos_field mapq_field
    (ops : Spec.description) (seq : string) :
  Spec.well_formed ops →
  Spec.total "M" ops + Spec.total "I" ops ≤ Z.of_nat (String.length seq) →
  let read := Read.init qname flag_field pos_field mapq_field
                (string_of_list_ascii (Spec.render ops)) seq in
  ∃ read' aligned rightmost,
    Read.get_aligned_sequence (Read.parse_cigar read)
      = Return (read', Read.Aligned aligned rightmost)
    ∧ aligned = Spec.expand ops (list_of_str seq)
    ∧ Z.of_nat (length aligned) = Spec.total "M" ops + Spec.total "D" ops
    ∧ rightmost = Read.leftmost_position read + Z.of_nat (length aligned)
    ∧ Read.aligned_sequence read' = aligned
    ∧ Read.rightmost_position read' = Some rightmost.
Proof.
  intros Hwf Hlen read. eexists _, _, _.
  split; [by apply get_aligned_sequence_expand |].
  repeat split.
  apply expand_length; [done |]. by rewrite length_list_of_str.
Qed.

Lemma other_operator_cases c :
  Spec.other_operator c = true →
  is_digit c = false ∧ is_space c = false ∧ Read.is_operator c = false
  ∧ Ascii.eqb c "+" = false ∧ Ascii.eqb c "-" = false ∧ Ascii.eqb c "_" = false.
Proof.
  unfold Spec.other_operator. intros H. apply bool_decide_eq_true_1 in H.
  repeat (apply elem_of_cons in H as [-> | H]; [by vm_compute |]).
  by apply elem_of_nil in H.
Qed.

Lemma lstrip_keeps c l : c ∈ l → is_space c = false → c ∈ lstrip l.
Proof.
  intros Hin Hc. induction l as [|x l IH]; [done |]. simpl.
  destruct (is_space x) eqn:Hx; [| done].
  apply elem_of_cons in Hin as [-> | Hin]; [congruence | auto].
Qed.

Lemma elem_of_rev {A : Type} (x : A) (l : list A) : x ∈ rev l ↔ x ∈ l.
Proof. rewrite !list_elem_of_In. symmetry. apply in_rev. Qed.

Lemma strip_keeps c l : c ∈ l → is_space c = false → c ∈ strip l.
Proof.
  intros Hin Hc. unfold strip.
  rewrite elem_of_rev. apply lstrip_keeps; [| done].
  rewrite elem_of_rev. by apply lstrip_keeps.
Qed.

Lemma int_digits_stops c l acc b :
  c ∈ l → is_digit c = false → Ascii.eqb c "_" = false → int_digits acc b l = None.
Proof.
  intros Hin Hd Hu. revert acc b.
  induction l as [|x l IH]; intros acc b; [by apply elem_of_nil in Hin |].
  apply elem_of_cons in Hin as [<- | Hin]; simpl.
  - by rewrite Hd, Hu.
  - destruct (is_digit x); [by apply IH |].
    destruct (Ascii.eqb x "_"); [| done].
    destruct b; [done | by apply IH].
Qed.

Lemma int_unsigned_stops c l :
  c ∈ l → is_digit c = false → Ascii.eqb c "_" = false → int_unsigned l = None.
Proof.
  intros Hin Hd Hu. destruct l as [|x l]; [done |]. simpl.
  apply elem_of_cons in Hin as [<- | Hin]; [by rewrite Hd |].
  destruct (is_digit x); [| done]. by eapply int_digits_stops.
Qed.

(** [int] refuses any text that holds one of the other operators. *)
Lemma int_other_operator c s :
  c ∈ list_ascii_of_string s → Spec.other_operator c = true →
  Py.int s = Raise ValueError.
Proof.
  intros Hin Hc.
  destruct (other_operator_cases c Hc) as (Hd & Hs & _ & Hplus & Hminus & Hu).
  unfold Py.int.
  pose proof (strip_keeps _ _ Hin Hs) as Hin'.
  destruct (strip (list_ascii_of_string s)) as [|x l]; [done |].
  unfold int_signed.
  destruct (Ascii.eqb_spec x "+") as [-> | _].
  { apply elem_of_cons in Hin' as [-> | Hin']; [done |].
    by rewrite (int_unsigned_stops c l). }
  destruct (Ascii.eqb_spec x "-") as [-> | _].
  { apply elem_of_cons in Hin' as [-> | Hin']; [done |].
    by rewrite (int_unsigned_stops c l). }
  by rewrite (int_unsigned_stops c (x :: l)).
Qed.

Lemma parse_cigar_loop_keeps cigar sub parsed e :
  e ∈ parsed → e ∈ Read.parse_cigar_loop cigar sub parsed.
Proof.
  revert sub parsed. induction cigar as [|x cigar IH]; intros sub parsed He; [done |].
  simpl. destruct (Read.is_operator x); apply IH; [| done].
  apply elem_of_app. by left.
Qed.

Lemma parse_cigar_loop_pending c post sub parsed :
  c ∈ sub → existsb Read.is_operator post = true →
  ∃ count o, (count, o) ∈ Read.parse_cigar_loop post sub parsed
             ∧ c ∈ list_ascii_of_string count.
Proof.
  revert sub parsed. induction post as [|x post IH]; intros sub parsed Hc Hop; [done |].
  simpl in *. destruct (Read.is_operator x) eqn:Hx.
  - exists (join_chars sub), x. split.
    + apply parse_cigar_loop_keeps, elem_of_app. right. left.
    + unfold join_chars. by rewrite list_ascii_of_string_of_list_ascii.
  - apply IH; [| done]. apply elem_of_app. by left.
Qed.

Lemma parse_cigar_loop_other pre c post sub parsed :
  Spec.other_operator c = true → existsb Read.is_operator post = true →
  ∃ count o, (count, o) ∈ Read.parse_cigar_loop (pre ++ c :: post) sub parsed
             ∧ c ∈ list_ascii_of_string count.
Proof.
  intros Hc Hop. revert sub parsed.
  induction pre as [|x pre IH]; intros sub parsed; simpl.
  - destruct (other_operator_cases c Hc) as (_ & _ & -> & _).
    apply parse_cigar_loop_pending; [| done].
    apply elem_of_app. right. left.
  - destruct (Read.is_operator x); apply IH.
Qed.

Lemma cigar_loop_raises sequence_lst parsed aligned last count o :
  (count, o) ∈ parsed → raises (Py.int count) →
  raises (Read.cigar_loop sequence_lst parsed aligned last).
Proof.
  intros Hin Hint. revert aligned last.
  induction parsed as [|[count' o'] parsed IH]; intros aligned last;
    [by apply elem_of_nil in Hin |].
  apply elem_of_cons in Hin as [Heq | Hin].
  - inversion Heq; subst. simpl. by apply raises_bind_l.
  - simpl. destruct (Py.int count') as [n | e]; [| by exists e].
    cbn [mbind result_bind Py.bind].
    destruct (Ascii.eqb o' "M").
    { destruct (Read.match_loop _ _ _) as [a | e]; [by apply IH | by exists e]. }
    destruct (Ascii.eqb o' "D"); [by apply IH |].
    destruct (Ascii.eqb o' "I"); by apply IH.
Qed.

Lemma get_aligned_sequence_other_operator qname flag_field pos_field mapq_field
    pre c post seq :
  Spec.other_operator c = true → existsb Read.is_operator post = true →
  raises (Read.get_aligned_sequence
            (Read.parse_cigar
               (Read.init qname flag_field pos_field mapq_field
                  (string_of_list_ascii (pre ++ c :: post)) seq))).
Proof.
  intros Hc Hop.
  unfold Read.get_aligned_sequence, Read.parse_cigar, Read.is_fresh_empty_list.
  cbn [Read.init Read.parsed_cigar Read.cigar_lst Read.sequence
       Read.aligned_sequence Read.leftmost_position].
  rewrite list_ascii_of_string_of_list_ascii.
  destruct (parse_cigar_loop_other pre c post [] [] Hc Hop) as (count & o & Hin & Hcount).
  apply raises_bind_l.
  eapply cigar_loop_raises; [done |].
  exists ValueError. by eapply int_other_operator.
Qed.

Lemma read_loop_raises exons before read after alignment :
  (∀ a, raises (KIRtyper.process_read exons a read)) →
  raises (KIRtyper.read_loop exons (before ++ read :: after) alignment).
Proof.
  intros Hread. revert alignment.
  induction before as [|r before IH]; intros alignment; simpl.
  - by apply raises_bind_l.
  - destruct (KIRtyper.process_read exons alignment r) as [a | e]; [| by exists e].
    apply IH.
Qed.

Lemma parse_cigar_loop_no_operator tail sub parsed :
  forallb (fun c => negb (Read.is_operator c)) tail = true →
  Read.parse_cigar_loop tail sub parsed = parsed.
Proof.
  revert sub. induction tail as [|x tail IH]; intros sub H; [done |].
  simpl in *. apply andb_true_iff in H as [Hx H].
  apply negb_true_iff in Hx. rewrite Hx. by apply IH.
Qed.

Lemma parse_cigar_loop_trailing cigar tail sub parsed :
  forallb (fun c => negb (Read.is_operator c)) tail = true →
  Read.parse_cigar_loop (cigar ++ tail) sub parsed =
  Read.parse_cigar_loop cigar sub parsed.
Proof.
  intros H. revert sub parsed.
  induction cigar as [|x cigar IH]; intros sub parsed; simpl.
  - by apply parse_cigar_loop_no_operator.
  - destruct (Read.is_operator x); apply IH.
Qed.

(** An empty operator description goes through the reconstruction without
    the warning: the test [self.parsed_cigar is []] never holds. *)
Lemma empty_description_is_silent qname flag_field pos_field mapq_field seq :
  Spec.handed_back
    (Read.get_aligned_sequence
       (Read.parse_cigar (Read.init qname flag_field pos_field mapq_field "" seq)))
  = Return (Read.Aligned [] (pos_field - 1)).
Proof. simpl. by rewrite Z.add_0_r. Qed.

(** C7, as the code has it.  An operator of the SAM format other than M, D
    and I is not recognised as an operator.  When a recognised operator
    follows it, its character is read as part of that operator's count, the
    conversion of the count fails and the reconstruction raises; the driver
    does not catch the exception, so a batch that holds such a record, mapped
    and of quality 255, raises as a whole.  When no recognised operator
    follows, the trailing characters are left out and the record is
    reconstructed as if they were not there. *)
Theorem C7_other_operators qname flag_field pos_field mapq_field seq :
  (∀ pre c post,
     Spec.other_operator c = true → existsb Read.is_operator post = true →
     let read := Read.init qname flag_field pos_field mapq_field
                   (string_of_list_ascii (pre ++ c :: post)) seq in
     raises (Read.get_aligned_sequence (Read.parse_cigar read))
     ∧ (flag_field ≠ 4 → mapq_field = 255 →
        ∀ exons before after alignment,
          raises (KIRtyper.read_loop exons (before ++ read :: after) alignment)))
  ∧ (∀ cigar tail,
       forallb (fun c => negb (Read.is_operator c)) tail = true →
       Spec.handed_back
         (Read.get_aligned_sequence
            (Read.parse_cigar
               (Read.init qname flag_field pos_field mapq_field
                  (string_of_list_ascii (cigar ++ tail)) seq)))
       = Spec.handed_back
           (Read.get_aligned_sequence
              (Read.parse_cigar
                 (Read.init qname flag_field pos_field mapq_field
                    (string_of_list_ascii cigar) seq)))).
Proof.
  split.
  - intros pre c post Hc Hop read.
    pose proof (get_aligned_sequence_other_operator qname flag_field pos_field
                  mapq_field pre c post seq Hc Hop) as Hraise.
    split; [done |].
    intros Hflag Hq exons before after alignment.
    apply read_loop_raises. intros a.
    unfold KIRtyper.process_read.
    replace (Read.flag read) with flag_field by done.
    replace (Read.quality read) with mapq_field by done.
    destruct (Z.eqb_spec flag_field 4) as [| _]; [done |].
    rewrite Hq. cbn [negb andb Z.eqb Pos.eqb].
    by apply raises_bind_l.
  - intros cigar tail Htail.
    unfold Read.get_aligned_sequence, Read.parse_cigar, Read.is_fresh_empty_list.
    cbn [Read.init Read.parsed_cigar Read.cigar_lst Read.sequence
         Read.aligned_sequence Read.leftmost_position].
    rewrite !list_ascii_of_string_of_list_ascii.
    rewrite parse_cigar_loop_trailing by done.
    by destruct (Read.cigar_loop _ _ _ _).
Qed.

(** C7 as stated does not hold: a record with an operator outside M, D and I
    can be reconstructed without any error being reported. *)
Lemma C7_counterexample :
  ¬ (∀ qname flag_field pos_field mapq_field cigar seq,
       existsb Spec.other_operator (list_ascii_of_string cigar) = true →
       raises (Read.get_aligned_sequence
                 (Read.parse_cigar
                    (Read.init qname flag_field pos_field mapq_field cigar seq)))).
Proof.
  intros H.
  destruct (H "r1"%string 0 1 255 "3M2S"%string "ACGTA"%string eq_refl) as [e He].
  vm_compute in He. discriminate.
Qed.

(** ** Dictionaries *)

Section dict_lemmas.
Context {K V : Type} `{EqDecision K}.
Implicit Types (d : list (K * V)) (k : K) (v : V).

Lemma dict_get_setitem_eq k v d : Dict.get k (Dict.setitem k v d) = Some v.
Proof.
  induction d as [|[k' v'] d IH]; simpl.
  - by rewrite decide_True.
  - destruct (decide (k = k')); simpl; [by rewrite decide_True |].
    by rewrite decide_False.
Qed.

Lemma dict_get_setitem_ne k k' v d :
  k ≠ k' → Dict.get k' (Dict.setitem k v d) = Dict.get k' d.
Proof.
  intros Hne. induction d as [|[k0 v0] d IH]; simpl.
  - by rewrite decide_False.
  - destruct (decide (k = k0)) as [<- |]; simpl.
    + by rewrite !decide_False.
    + destruct (decide (k' = k0)); done.
Qed.

Lemma dict_keys_setitem_present k v d :
  is_Some (Dict.get k d) → Dict.keys (Dict.setitem k v d) = Dict.keys d.
Proof.
  unfold Dict.keys. induction d as [|[k' v'] d IH]; simpl; intros [x Hx]; [done |].
  destruct (decide (k = k')) as [-> |]; simpl; [done |].
  f_equal. apply IH. by exists x.
Qed.

Lemma dict_setitem_absent k v d :
  Dict.get k d = None → Dict.setitem k v d = d ++ [(k, v)].
Proof.
  induction d as [|[k' v'] d IH]; simpl; intros H; [done |].
  destruct (decide (k = k')); [done |]. by rewrite IH.
Qed.

Lemma dict_get_None k d : Dict.get k d = None ↔ k ∉ Dict.keys d.
Proof.
  unfold Dict.keys. induction d as [|[k' v'] d IH]; simpl.
  - split; [intros _; apply not_elem_of_nil | done].
  - rewrite not_elem_of_cons. destruct (decide (k = k')); [| by rewrite IH; tauto].
    split; [done | tauto].
Qed.

Lemma dict_get_elem_of k v d : Dict.get k d = Some v → (k, v) ∈ d.
Proof.
  induction d as [|[k' v'] d IH]; simpl; [done |].
  destruct (decide (k = k')) as [-> |].
  - intros [= ->]. left.
  - intros H. right. by apply IH.
Qed.

Lemma dict_get_NoDup k v d :
  NoDup (Dict.keys d) → (k, v) ∈ d → Dict.get k d = Some v.
Proof.
  unfold Dict.keys. induction d as [|[k' v'] d IH]; simpl; intros Hnd Hin.
  - by apply elem_of_nil in Hin.
  - apply NoDup_cons in Hnd as [Hk Hnd].
    apply elem_of_cons in Hin as [[= -> ->] | Hin].
    + by rewrite decide_True.
    + destruct (decide (k = k')) as [-> |]; [| by apply IH].
      destruct Hk. apply list_elem_of_fmap. by exists (k', v).
Qed.

Lemma dict_contains_get k d :
  Dict.contains k d = true ↔ is_Some (Dict.get k d).
Proof.
  unfold Dict.contains. destruct (Dict.get k d); split; done.
Qed.

End dict_lemmas.

(** ** AlignmentInformation.py: proportions *)

Import AlignmentInformation.

Lemma nucleotide_loop_zero items entry :
  items ≠ [] → nucleotide_loop items 0 entry = Raise ZeroDivisionError.
Proof. destruct items as [|[n c] items]; done. Qed.

Lemma nucleotide_loop_returns items nucleotide_count entry :
  nucleotide_count ≠ 0 →
  ∃ entry', nucleotide_loop items nucleotide_count entry = Return entry'.
Proof.
  intros Hn. revert entry.
  induction items as [|[n c] items IH]; intros entry; simpl; [by eexists |].
  unfold percentage. destruct (Z.eqb_spec nucleotide_count 0); [done |].
  apply IH.
Qed.

Lemma proportion_loop_zero cd pd position entry :
  (position, entry) ∈ cd → tally_total entry = 0 →
  proportion_loop cd pd = Raise ZeroDivisionError.
Proof.
  intros Hin Hzero. revert pd.
  induction cd as [|[position' entry'] cd IH]; intros pd;
    [by apply elem_of_nil in Hin |].
  cbn [proportion_loop]. destruct (Z.eq_dec (tally_total entry') 0) as [Hz | Hnz].
  - rewrite Hz. by rewrite nucleotide_loop_zero.
  - destruct (nucleotide_loop_returns (tally_items entry') _ [] Hnz) as [e ->].
    cbn [mbind result_bind Py.bind].
    apply elem_of_cons in Hin as [[= -> ->] | Hin]; [done | by apply IH].
Qed.

(** C1.  What the code does at a position without evidence: the division
    by the total raises [ZeroDivisionError], no proportion table comes out
    and no value marks the position as undefined. *)
Theorem C1_zero_evidence_raises (self : AlignmentInformation.t) position entry :
  (position, entry) ∈ count_dictionary self →
  tally_total entry = 0 →
  create_proportion_dictionary self = Raise ZeroDivisionError.
Proof.
  intros Hin Hzero. unfold create_proportion_dictionary.
  by rewrite (proportion_loop_zero _ _ position entry).
Qed.

(** ** AlignmentInformation.py: tallying *)

Lemma tally_incr_alphabet nucleotide entry :
  nucleotide ∈ Spec.alphabet → String.eqb nucleotide "N" = false →
  tally_incr nucleotide entry = Return (Spec.record_symbol nucleotide entry).
Proof.
  unfold Spec.alphabet, Spec.record_symbol. intros Hin HN. rewrite HN.
  repeat (apply elem_of_cons in Hin as [-> | Hin];
          [first [done | by vm_compute in HN] |]).
  by apply elem_of_nil in Hin.
Qed.

Lemma tally_total_eq entry :
  tally_total entry
  = count_A entry + count_T entry + count_G entry + count_C entry + count_gap entry.
Proof. unfold tally_total. simpl. lia. Qed.

Lemma tally_total_record_symbol nucleotide entry :
  nucleotide ∈ Spec.alphabet →
  tally_total (Spec.record_symbol nucleotide entry)
  = tally_total entry + (if String.eqb nucleotide "N" then 0 else 1).
Proof.
  unfold Spec.alphabet. intros Hin.
  repeat (apply elem_of_cons in Hin as [-> | Hin];
          [unfold Spec.record_symbol, tally_incr; simpl;
           rewrite !tally_total_eq; simpl; lia |]).
  by apply elem_of_nil in Hin.
Qed.

Lemma symbol_at_cons nucleotide rest position p :
  Spec.symbol_at (nucleotide :: rest) position p
  = if decide (p = position) then Some nucleotide
    else Spec.symbol_at rest (position + 1) p.
Proof.
  unfold Spec.symbol_at. destruct (decide (p = position)) as [-> | Hne].
  - rewrite Z.ltb_irrefl, Z.sub_diag. done.
  - destruct (Z.ltb_spec p position), (Z.ltb_spec p (position + 1)); try lia; [done |].
    replace (Z.to_nat (p - position)) with (S (Z.to_nat (p - (position + 1)))) by lia.
    done.
Qed.

Lemma symbol_at_before aligned position p :
  p < position → Spec.symbol_at aligned position p = None.
Proof. unfold Spec.symbol_at. intros H. by destruct (Z.ltb_spec p position); [| lia]. Qed.

Lemma symbol_at_alphabet aligned position p nucleotide :
  Forall (fun n => n ∈ Spec.alphabet) aligned →
  Spec.symbol_at aligned position p = Some nucleotide → nucleotide ∈ Spec.alphabet.
Proof.
  unfold Spec.symbol_at. intros Hall H.
  destruct (p <? position); [done |].
  rewrite Forall_forall in Hall. apply Hall.
  by eapply list_elem_of_lookup_2.
Qed.

Lemma symbol_at_range aligned position p :
  position ≤ p < position + Z.of_nat (length aligned) →
  is_Some (Spec.symbol_at aligned position p).
Proof.
  unfold Spec.symbol_at. intros H.
  destruct (Z.ltb_spec p position); [lia |].
  apply lookup_lt_is_Some_2. lia.
Qed.

Lemma visit_cons nucleotide rest position excluded p entry :
  Spec.visit (nucleotide :: rest) position excluded p entry
  = if decide (p = position) then
      if bool_decide (p ∈ excluded) then entry
      else Spec.record_symbol nucleotide entry
    else Spec.visit rest (position + 1) excluded p entry.
Proof.
  unfold Spec.visit. rewrite symbol_at_cons.
  destruct (decide (p = position)); done.
Qed.

Lemma visit_before aligned position excluded p entry :
  p < position → Spec.visit aligned position excluded p entry = entry.
Proof.
  intros H. unfold Spec.visit. rewrite symbol_at_before by done.
  by destruct (bool_decide _).
Qed.

(** The loop of [update_count_dictionary] returns on a read over the
    alphabet, and touches each entry as [Spec.visit] says. *)
Lemma count_loop_spec aligned position excluded cd :
  Forall (fun n => n ∈ Spec.alphabet) aligned →
  ∃ cd', count_loop aligned position excluded cd = Return cd'
         ∧ ∀ p, Dict.get p cd'
                = Spec.visit aligned position excluded p <$> Dict.get p cd.
Proof.
  intros Hall. revert position cd.
  induction Hall as [|nucleotide rest Hn _ IH]; intros position cd.
  - exists cd. split; [done |]. intros p. unfold Spec.visit, Spec.symbol_at.
    rewrite lookup_nil. destruct (Dict.get p cd); simpl; [| done].
    by destruct (bool_decide _), (p <? position).
  - cbn [count_loop].
    destruct (String.eqb nucleotide "N") eqn:HN.
    { destruct (IH (position + 1) cd) as (cd' & Hrun & Hget).
      exists cd'. split; [done |]. intros p. rewrite Hget.
      destruct (Dict.get p cd) as [entry |]; simpl; [| done].
      rewrite visit_cons. destruct (decide (p = position)) as [-> |]; [| done].
      rewrite visit_before by lia. unfold Spec.record_symbol. rewrite HN.
      by destruct (bool_decide _). }
    destruct (Dict.contains position cd) eqn:Hc; cbn [andb].
    2:{ destruct (IH (position + 1) cd) as (cd' & Hrun & Hget).
      exists cd'. split; [done |]. intros p. rewrite Hget.
      destruct (Dict.get p cd) as [entry |] eqn:Hp; simpl; [| done].
      rewrite visit_cons. destruct (decide (p = position)) as [-> |]; [| done].
      unfold Dict.contains in Hc. by rewrite Hp in Hc. }
    destruct (bool_decide (position ∈ excluded)) eqn:Hex; cbn [negb].
    { destruct (IH (position + 1) cd) as (cd' & Hrun & Hget).
      exists cd'. split; [done |]. intros p. rewrite Hget.
      destruct (Dict.get p cd) as [entry |] eqn:Hp; simpl; [| done].
      rewrite visit_cons. destruct (decide (p = position)) as [-> |]; [| done].
      rewrite Hex. by rewrite visit_before by lia. }
    unfold Dict.contains in Hc. unfold Dict.getitem.
    destruct (Dict.get position cd) as [entry |] eqn:Hentry; [| done].
    cbn [mbind result_bind Py.bind].
    rewrite tally_incr_alphabet by done.
    cbn [mbind result_bind Py.bind].
    destruct (IH (position + 1)
                (Dict.setitem position (Spec.record_symbol nucleotide entry) cd))
      as (cd' & Hrun & Hget).
    exists cd'. split; [done |]. intros p. rewrite Hget.
    destruct (decide (p = position)) as [-> | Hne].
    + rewrite dict_get_setitem_eq, Hentry. simpl.
      rewrite visit_before by lia. rewrite visit_cons, decide_True by done.
      by rewrite Hex.
    + rewrite dict_get_setitem_ne by done.
      destruct (Dict.get p cd); simpl; [| done].
      by rewrite visit_cons, decide_False.
Qed.

Lemma elem_of_overlap p left right first last :
  p ∈ filter (fun q => q ∈ range first last) (range left right)
  ↔ (left ≤ p < right) ∧ (first ≤ p < last).
Proof.
  rewrite list_elem_of_filter. unfold range. rewrite !elem_of_seqZ. lia.
Qed.

(** The first record under a pairing id: its range goes to the memo and its
    whole span is tallied. *)
Lemma update_first self read :
  processed_reads_dictionary self !! Read.id read = None →
  Forall (fun n => n ∈ Spec.alphabet) (Read.aligned_sequence read) →
  ∃ self',
    update_count_dictionary self read = Return self'
    ∧ processed_reads_dictionary self'
      = <[Read.id read := (Read.leftmost_position read, Read.rightmost_position read)]>
          (processed_reads_dictionary self)
    ∧ ∀ p, Dict.get p (count_dictionary self')
           = Spec.visit (Read.aligned_sequence read) (Read.leftmost_position read) [] p
               <$> Dict.get p (count_dictionary self).
Proof.
  intros Hmemo Hall. unfold update_count_dictionary. rewrite Hmemo.
  cbn [mbind result_bind Py.bind].
  destruct (count_loop_spec _ (Read.leftmost_position read) [] (count_dictionary self) Hall)
    as (cd' & Hrun & Hget).
  cbn [set_processed_reads_dictionary count_dictionary].
  rewrite Hrun. cbn [mbind result_bind Py.bind].
  eexists. split; [reflexivity |]. split; done.
Qed.

(** A later record under the same pairing id: the memo stays as it is and
    the intersection with the memoized range is left out. *)
Lemma update_later self read first last right :
  processed_reads_dictionary self !! Read.id read = Some (first, Some last) →
  Read.rightmost_position read = Some right →
  Forall (fun n => n ∈ Spec.alphabet) (Read.aligned_sequence read) →
  ∃ self',
    update_count_dictionary self read = Return self'
    ∧ processed_reads_dictionary self' = processed_reads_dictionary self
    ∧ ∀ p, Dict.get p (count_dictionary self')
           = Spec.visit (Read.aligned_sequence read) (Read.leftmost_position read)
               (filter (fun q => q ∈ range first last)
                       (range (Read.leftmost_position read) right)) p
               <$> Dict.get p (count_dictionary self).
Proof.
  intros Hmemo Hright Hall. unfold update_count_dictionary. rewrite Hmemo, Hright.
  cbn [range_opt mbind result_bind Py.bind].
  destruct (count_loop_spec _ (Read.leftmost_position read)
              (filter (fun q => q ∈ range first last)
                      (range (Read.leftmost_position read) right))
              (count_dictionary self) Hall)
    as (cd' & Hrun & Hget).
  rewrite Hrun. cbn [mbind result_bind Py.bind].
  eexists. split; [reflexivity |]. split; done.
Qed.

Lemma visit_excluded aligned position excluded p entry :
  p ∈ excluded → Spec.visit aligned position excluded p entry = entry.
Proof. intros H. unfold Spec.visit. by rewrite bool_decide_eq_true_2. Qed.

Lemma visit_counted aligned position excluded p entry nucleotide :
  p ∉ excluded → Spec.symbol_at aligned position p = Some nucleotide →
  Spec.visit aligned position excluded p entry = Spec.record_symbol nucleotide entry.
Proof.
  intros H Hs. unfold Spec.visit. by rewrite bool_decide_eq_false_2, Hs.
Qed.

(** C4, as the code has it.  Two records share a pairing id and the first
    of them opens the memo.  At every position of the table that lies in
    both ranges, the table receives what the first record holds there and
    nothing from the second: one contribution when the first record's symbol
    is a base or a gap, none when it is "N"; never two. *)
Theorem C4_overlap_tallied_from_first_mate (self : AlignmentInformation.t)
    (read1 read2 : Read.t) :
  processed_reads_dictionary self !! Read.id read1 = None →
  Read.id read2 = Read.id read1 →
  Spec.reconstructed read1 → Spec.reconstructed read2 →
  ∃ self1 self2,
    update_count_dictionary self read1 = Return self1
    ∧ update_count_dictionary self1 read2 = Return self2
    ∧ ∀ p entry,
        Spec.in_range read1 p → Spec.in_range read2 p →
        Dict.get p (count_dictionary self) = Some entry →
        ∃ nucleotide,
          Spec.symbol_at (Read.aligned_sequence read1)
                         (Read.leftmost_position read1) p = Some nucleotide
          ∧ Dict.get p (count_dictionary self1)
            = Some (Spec.record_symbol nucleotide entry)
          ∧ Dict.get p (count_dictionary self2)
            = Some (Spec.record_symbol nucleotide entry)
          ∧ tally_total (Spec.record_symbol nucleotide entry)
            = tally_total entry + (if String.eqb nucleotide "N" then 0 else 1).
Proof.
  intros Hmemo Hid [Hall1 Hright1] [Hall2 Hright2].
  destruct (update_first self read1 Hmemo Hall1) as (self1 & Hrun1 & Hmemo1 & Hget1).
  assert (Hmemo2 : processed_reads_dictionary self1 !! Read.id read2
                   = Some (Read.leftmost_position read1,
                           Some (Read.leftmost_position read1
                                 + Z.of_nat (length (Read.aligned_sequence read1))))).
  { rewrite Hmemo1, Hid, lookup_insert_eq. by rewrite Hright1. }
  destruct (update_later self1 read2 _ _ _ Hmemo2 Hright2 Hall2)
    as (self2 & Hrun2 & _ & Hget2).
  exists self1, self2. split; [done |]. split; [done |].
  intros p entry Hp1 Hp2 Hentry.
  destruct (symbol_at_range _ _ _ Hp1) as [nucleotide Hsym].
  exists nucleotide. split; [done |].
  assert (H1 : Dict.get p (count_dictionary self1)
               = Some (Spec.record_symbol nucleotide entry)).
  { rewrite Hget1, Hentry. simpl. f_equal.
    apply visit_counted; [apply not_elem_of_nil | done]. }
  split; [done |]. split.
  - rewrite Hget2, H1. simpl. f_equal. apply visit_excluded.
    apply elem_of_overlap. unfold Spec.in_range in Hp1, Hp2. lia.
  - apply tally_total_record_symbol.
    exact (symbol_at_alphabet _ _ _ _ Hall1 Hsym).
Qed.

(** C4 as stated does not hold: when the first mate holds "N" at a shared
    position, the table receives no contribution there at all. *)
Lemma C4_counterexample :
  ¬ (∀ (self self1 self2 : AlignmentInformation.t) (read1 read2 : Read.t) p entry entry2,
       processed_reads_dictionary self !! Read.id read1 = None →
       Read.id read2 = Read.id read1 →
       Spec.reconstructed read1 → Spec.reconstructed read2 →
       Spec.in_range read1 p → Spec.in_range read2 p →
       update_count_dictionary self read1 = Return self1 →
       update_count_dictionary self1 read2 = Return self2 →
       Dict.get p (count_dictionary self) = Some entry →
       Dict.get p (count_dictionary self2) = Some entry2 →
       tally_total entry2 = tally_total entry + 1).
Proof.
  intros H.
  pose (reference := Reference.mk [] [(0, 2)]).
  pose (read1 := Read.mk "pair" 0 0 255 [] "NA" [] ["N"; "A"]%string (Some 2)).
  pose (read2 := Read.mk "pair" 16 0 255 [] "CA" [] ["C"; "A"]%string (Some 2)).
  pose (self := AlignmentInformation.init reference).
  pose (self1 := set_count_dictionary
                   (set_processed_reads_dictionary self {[ "pair"%string := (0, Some 2) ]})
                   [(0, tally_zero); (1, mk_tally 1 0 0 0 0)]).
  assert (Hfalse : tally_total tally_zero = tally_total tally_zero + 1); [| done].
  apply (H self self1 self1 read1 read2 0 tally_zero tally_zero);
    try (by vm_compute).
  - split; [| done]. solve_alphabet.
  - split; [| done]. solve_alphabet.
Qed.

Lemma update_returns self read :
  Spec.memo_closed self → Spec.reconstructed read →
  ∃ self',
    update_count_dictionary self read = Return self'
    ∧ Spec.memo_closed self'
    ∧ ∀ qname,
        processed_reads_dictionary self' !! qname
        = match processed_reads_dictionary self !! qname with
          | Some range => Some range
          | None =>
              if decide (Read.id read = qname)
              then Some (Read.leftmost_position read, Read.rightmost_position read)
              else None
          end.
Proof.
  intros Hclosed [Hall Hright].
  destruct (processed_reads_dictionary self !! Read.id read) as [[first last] |] eqn:Hmemo.
  - destruct (Hclosed _ _ _ Hmemo) as [last' ->].
    destruct (update_later self read _ _ _ Hmemo Hright Hall)
      as (self' & Hrun & Hsame & _).
    exists self'. split; [done |]. split.
    + intros qname f l. rewrite Hsame. apply Hclosed.
    + intros qname. rewrite Hsame.
      destruct (processed_reads_dictionary self !! qname) eqn:Hq; [done |].
      destruct (decide (Read.id read = qname)) as [<- |]; [congruence | done].
  - destruct (update_first self read Hmemo Hall) as (self' & Hrun & Hins & _).
    exists self'. split; [done |]. split.
    + intros qname f l. rewrite Hins.
      destruct (decide (Read.id read = qname)) as [<- | Hne].
      * rewrite lookup_insert_eq, Hright. intros [= <- <-]. by eexists.
      * rewrite lookup_insert_ne by done. apply Hclosed.
    + intros qname. rewrite Hins.
      destruct (decide (Read.id read = qname)) as [<- | Hne].
      * by rewrite lookup_insert_eq, Hmemo.
      * rewrite lookup_insert_ne by done.
        by destruct (processed_reads_dictionary self !! qname).
Qed.

(** After any sequence of calls the memo holds, for each pairing id, the
    range it held before or else the range of the first record under it. *)
Lemma record_all_memo reads self :
  Forall Spec.reconstructed reads → Spec.memo_closed self →
  ∃ self',
    Spec.record_all reads self = Return self'
    ∧ ∀ qname,
        processed_reads_dictionary self' !! qname
        = match processed_reads_dictionary self !! qname with
          | Some range => Some range
          | None =>
              (fun read => (Read.leftmost_position read, Read.rightmost_position read))
                <$> Spec.first_with_id qname reads
          end.
Proof.
  intros Hreads. revert self.
  induction Hreads as [|read reads Hread _ IH]; intros self Hclosed.
  - exists self. split; [done |]. intros qname.
    by destruct (processed_reads_dictionary self !! qname).
  - destruct (update_returns self read Hclosed Hread) as (self1 & Hrun & Hclosed1 & Hmemo1).
    destruct (IH self1 Hclosed1) as (self' & Hrest & Hmemo').
    exists self'. split.
    + cbn [Spec.record_all]. rewrite Hrun. done.
    + intros qname. rewrite Hmemo', Hmemo1. cbn [Spec.first_with_id].
      destruct (processed_reads_dictionary self !! qname); [done |].
      by destruct (decide (Read.id read = qname)).
Qed.

(** C10.  The memo is written once per pairing id and never again: after
    any sequence of calls it holds the range of the first record processed
    under each id (or the range it already held).  With three records under
    one id, the second and the third are each compared with the first only:
    a position of the table that lies in the second and in the third but not
    in the first is tallied by both. *)
Theorem C10_memo_first_writer_wins :
  (∀ reads self,
     Forall Spec.reconstructed reads → Spec.memo_closed self →
     ∃ self',
       Spec.record_all reads self = Return self'
       ∧ ∀ qname,
           processed_reads_dictionary self' !! qname
           = match processed_reads_dictionary self !! qname with
             | Some range => Some range
             | None =>
                 (fun read => (Read.leftmost_position read, Read.rightmost_position read))
                   <$> Spec.first_with_id qname reads
             end)
  ∧ (∀ self read1 read2 read3,
       processed_reads_dictionary self !! Read.id read1 = None →
       Read.id read2 = Read.id read1 → Read.id read3 = Read.id read1 →
       Spec.reconstructed read1 → Spec.reconstructed read2 → Spec.reconstructed read3 →
       ∃ self3,
         Spec.record_all [read1; read2; read3] self = Return self3
         ∧ ∀ p entry n2 n3,
             ¬ Spec.in_range read1 p → Spec.in_range read2 p → Spec.in_range read3 p →
             Dict.get p (count_dictionary self) = Some entry →
             Spec.symbol_at (Read.aligned_sequence read2)
                            (Read.leftmost_position read2) p = Some n2 →
             Spec.symbol_at (Read.aligned_sequence read3)
                            (Read.leftmost_position read3) p = Some n3 →
             n2 ≠ "N"%string → n3 ≠ "N"%string →
             ∃ entry3,
               Dict.get p (count_dictionary self3) = Some entry3
               ∧ tally_total entry3 = tally_total entry + 2).
Proof.
  split; [exact record_all_memo |].
  intros self read1 read2 read3 Hmemo Hid2 Hid3 [Hall1 Hright1] [Hall2 Hright2]
         [Hall3 Hright3].
  destruct (update_first self read1 Hmemo Hall1) as (self1 & Hrun1 & Hmemo1 & Hget1).
  assert (Hm2 : processed_reads_dictionary self1 !! Read.id read2
                = Some (Read.leftmost_position read1,
                        Some (Read.leftmost_position read1
                              + Z.of_nat (length (Read.aligned_sequence read1))))).
  { rewrite Hmemo1, Hid2, lookup_insert_eq. by rewrite Hright1. }
  destruct (update_later self1 read2 _ _ _ Hm2 Hright2 Hall2)
    as (self2 & Hrun2 & Hmemo2 & Hget2).
  assert (Hm3 : processed_reads_dictionary self2 !! Read.id read3
                = Some (Read.leftmost_position read1,
                        Some (Read.leftmost_position read1
                              + Z.of_nat (length (Read.aligned_sequence read1))))).
  { rewrite Hmemo2, Hid3, <- Hid2. done. }
  destruct (update_later self2 read3 _ _ _ Hm3 Hright3 Hall3)
    as (self3 & Hrun3 & _ & Hget3).
  exists self3. split.
  { cbn [Spec.record_all]. rewrite Hrun1. cbn [mbind result_bind Py.bind].
    rewrite Hrun2. cbn [mbind result_bind Py.bind]. rewrite Hrun3. done. }
  intros p entry n2 n3 Hout Hin2 Hin3 Hentry Hs2 Hs3 HN2 HN3.
  assert (Hnot : ∀ left right,
             p ∉ filter (fun q => q ∈ range (Read.leftmost_position read1)
                                    (Read.leftmost_position read1
                                     + Z.of_nat (length (Read.aligned_sequence read1))))
                        (range left right)).
  { intros left right Hp. apply elem_of_overlap in Hp as [_ Hp].
    apply Hout. exact Hp. }
  exists (Spec.record_symbol n3 (Spec.record_symbol n2 entry)). split.
  - rewrite Hget3, Hget2, Hget1, Hentry. simpl. f_equal.
    assert (H0 : Spec.visit (Read.aligned_sequence read1)
                            (Read.leftmost_position read1) [] p entry = entry).
    { unfold Spec.visit, Spec.symbol_at. simpl.
      unfold Spec.in_range in Hout.
      destruct (Z.ltb_spec p (Read.leftmost_position read1)); [done |].
      rewrite lookup_ge_None_2; [done | lia]. }
    rewrite H0.
    rewrite (visit_counted _ _ _ _ _ n3) by first [apply Hnot | exact Hs3].
    by rewrite (visit_counted _ _ _ _ _ n2) by first [apply Hnot | exact Hs2].
  - rewrite !tally_total_record_symbol
      by (eapply symbol_at_alphabet; [| eassumption]; assumption).
    apply String.eqb_neq in HN2, HN3. rewrite HN2, HN3. lia.
Qed.

(** ** ProgressiveAnalysis.py *)

Lemma present_loop_derived entry proportion_threshold acc :
  ProgressiveAnalysis.present_loop (Spec.derived_entry entry) proportion_threshold acc
  = Return (acc ++ Spec.present proportion_threshold entry).
Proof.
  revert acc. induction entry as [|[n q] entry IH]; intros acc; simpl.
  - by rewrite app_nil_r.
  - destruct (negb (Qle_bool q proportion_threshold)); rewrite IH; [| done].
    by rewrite <- app_assoc.
Qed.

Lemma filter_ext_elem {A : Type} (P Q : A → Prop)
    `{!∀ x, Decision (P x)} `{!∀ x, Decision (Q x)} (l : list A) :
  (∀ x, x ∈ l → (P x ↔ Q x)) → filter P l = filter Q l.
Proof.
  induction l as [|x l IH]; intros Hext; [done |].
  rewrite !filter_cons.
  assert (Hx : P x ↔ Q x) by (apply Hext; left).
  rewrite IH by (intros y Hy; apply Hext; by right).
  destruct (decide (P x)), (decide (Q x)); tauto || done.
Qed.

Lemma filter_all {A : Type} (P : A → Prop) `{!∀ x, Decision (P x)} (l : list A) :
  (∀ x, x ∈ l → P x) → filter P l = l.
Proof.
  induction l as [|x l IH]; intros Hall; [done |].
  rewrite filter_cons, decide_True by (apply Hall; left).
  f_equal. apply IH. intros y Hy. apply Hall. by right.
Qed.

Lemma filter_none {A : Type} (P : A → Prop) `{!∀ x, Decision (P x)} (l : list A) :
  (∀ x, x ∈ l → ¬ P x) → filter P l = [].
Proof.
  induction l as [|x l IH]; intros Hall; [done |].
  rewrite filter_cons, decide_False by (apply Hall; left).
  apply IH. intros y Hy. apply Hall. by right.
Qed.

Lemma list_remove_NoDup {A : Type} `{EqDecision A} (x : A) (l : list A) :
  NoDup l → x ∈ l → list_remove x l = Return (filter (fun y => y ≠ x) l).
Proof.
  unfold list_remove. intros Hnd Hin.
  enough (list_remove_first x l = Some (filter (fun y => y ≠ x) l)) as -> by done.
  induction l as [|y l IH]; [by apply elem_of_nil in Hin |].
  apply NoDup_cons in Hnd as [Hy Hnd]. simpl. rewrite filter_cons.
  destruct (decide (x = y)) as [<- | Hne].
  - rewrite decide_False by tauto. f_equal.
    symmetry. apply filter_all. by intros z Hz ->.
  - rewrite decide_True by done.
    apply elem_of_cons in Hin as [-> | Hin]; [done |].
    by rewrite IH.
Qed.

Lemma getitem_in_range {A : Type} (l : list A) (i : Z) :
  0 ≤ i < Z.of_nat (length l) →
  ∃ x, l !! Z.to_nat i = Some x ∧ Py.getitem l i = Return x.
Proof.
  intros Hi.
  destruct (lookup_lt_is_Some_2 l (Z.to_nat i)) as [x Hx]; [lia |].
  exists x. split; [done |].
  rewrite <- (Z2Nat.id i) by lia. by apply getitem_lookup.
Qed.

Lemma kept_head allele_id allele_sequence rest position present_nucleotides nucleotide :
  allele_id ∉ Dict.keys rest →
  allele_sequence !! Z.to_nat position = Some nucleotide →
  kept ((allele_id, allele_sequence) :: rest) position present_nucleotides allele_id
  = bool_decide (nucleotide ∈ present_nucleotides)
  ∧ kept rest position present_nucleotides allele_id = true.
Proof.
  intros Hnot Hn. unfold kept. simpl. rewrite decide_True by done. rewrite Hn.
  split; [done |]. apply dict_get_None in Hnot. by rewrite Hnot.
Qed.

Lemma kept_tail allele_id allele_sequence rest position present_nucleotides allele :
  allele ≠ allele_id →
  kept ((allele_id, allele_sequence) :: rest) position present_nucleotides allele
  = kept rest position present_nucleotides allele.
Proof. intros Hne. unfold kept. simpl. by rewrite decide_False. Qed.

(** One position of the Progressive Filter: the candidates whose nucleotide
    is present stay, in their order. *)
Lemma allele_loop_filter lines position present_nucleotides candidates :
  NoDup (Dict.keys lines) → NoDup candidates →
  (∀ allele_id allele_sequence,
     (allele_id, allele_sequence) ∈ lines →
     0 ≤ position < Z.of_nat (length allele_sequence)) →
  ProgressiveAnalysis.allele_loop lines position present_nucleotides candidates
  = Return (filter (fun allele => kept lines position present_nucleotides allele = true)
                   candidates).
Proof.
  intros Hlines. revert candidates.
  induction lines as [|[allele_id allele_sequence] rest IH]; intros candidates Hnd Hrange.
  - simpl. f_equal. symmetry. by apply filter_all.
  - unfold Dict.keys in Hlines. simpl in Hlines.
    apply NoDup_cons in Hlines as [Hid Hrest].
    assert (Hrange' : ∀ a s, (a, s) ∈ rest → 0 ≤ position < Z.of_nat (length s)).
    { intros a s Has. apply (Hrange a). by right. }
    cbn [ProgressiveAnalysis.allele_loop].
    destruct (bool_decide (allele_id ∈ candidates)) eqn:Hin.
    + apply bool_decide_eq_true_1 in Hin.
      destruct (getitem_in_range allele_sequence position) as (nucleotide & Hn & ->).
      { apply (Hrange allele_id). left. }
      cbn [mbind result_bind Py.bind].
      destruct (kept_head allele_id allele_sequence rest position present_nucleotides
                  nucleotide Hid Hn) as [Hhead Hrest_id].
      destruct (bool_decide (nucleotide ∈ present_nucleotides)) eqn:Hpresent; cbn [negb].
      * rewrite IH by done. f_equal. apply filter_ext_elem. intros x Hx.
        destruct (decide (x = allele_id)) as [-> |].
        -- by rewrite Hhead, Hrest_id.
        -- by rewrite kept_tail.
      * rewrite list_remove_NoDup by done. cbn [mbind result_bind Py.bind].
        rewrite IH by (done || by apply NoDup_filter). f_equal.
        rewrite list_filter_filter. apply filter_ext_elem. intros x Hx.
        destruct (decide (x = allele_id)) as [-> |].
        -- rewrite Hhead. split; [tauto | done].
        -- rewrite kept_tail by done. tauto.
    + apply bool_decide_eq_false_1 in Hin.
      rewrite IH by done. f_equal. apply filter_ext_elem. intros x Hx.
      rewrite kept_tail; [done |]. by intros ->.
Qed.

(** The body of the position loop on an entry that holds percentages only. *)
Lemma progressive_position_step proportion_threshold alignment position entry :
  Dict.get position (proportion_dictionary alignment) = Some (Spec.derived_entry entry) →
  NoDup (Dict.keys (Reference.allele_lines (reference alignment))) →
  NoDup (reference_alleles alignment) →
  (∀ allele_id allele_sequence,
     (allele_id, allele_sequence) ∈ Reference.allele_lines (reference alignment) →
     0 ≤ position < Z.of_nat (length allele_sequence)) →
  ProgressiveAnalysis.position_step proportion_threshold alignment position
  = Return
      (set_reference_alleles
         (set_proportion_dictionary alignment
            (Dict.setitem position
               (Dict.setitem "Present Nucleotides"%string
                  (PList (Spec.present proportion_threshold entry))
                  (Spec.derived_entry entry))
               (proportion_dictionary alignment)))
         (filter (fun allele =>
                    kept (Reference.allele_lines (reference alignment)) position
                         (Spec.present proportion_threshold entry) allele = true)
                 (reference_alleles alignment))).
Proof.
  intros Hentry Hlines Hnd Hrange.
  unfold ProgressiveAnalysis.position_step, Dict.getitem. rewrite Hentry.
  cbn [mbind result_bind Py.bind].
  rewrite present_loop_derived. cbn [mbind result_bind Py.bind app].
  cbn [set_proportion_dictionary reference reference_alleles].
  rewrite allele_loop_filter by done. done.
Qed.

(** The position loop over rows that hold percentages only. *)
Lemma progressive_position_loop proportion_threshold (rows : Spec.table) alignment :
  NoDup (Dict.keys rows) →
  (∀ row, row ∈ rows →
          Dict.get row.1 (proportion_dictionary alignment)
          = Some (Spec.derived_entry row.2)) →
  NoDup (Dict.keys (Reference.allele_lines (reference alignment))) →
  NoDup (reference_alleles alignment) →
  (∀ row allele_id allele_sequence,
     row ∈ rows →
     (allele_id, allele_sequence) ∈ Reference.allele_lines (reference alignment) →
     0 ≤ row.1 < Z.of_nat (length allele_sequence)) →
  ProgressiveAnalysis.position_loop proportion_threshold (Dict.keys rows) alignment
  = Return
      (set_reference_alleles
         (set_proportion_dictionary alignment
            (foldl (step_table proportion_threshold) (proportion_dictionary alignment) rows))
         (foldl (step_candidates proportion_threshold
                   (Reference.allele_lines (reference alignment)))
                (reference_alleles alignment) rows)).
Proof.
  revert alignment.
  induction rows as [|row rows IH]; intros alignment Hkeys Hget Hlines Hnd Hrange.
  - simpl. by destruct alignment.
  - unfold Dict.keys in Hkeys. simpl in Hkeys.
    apply NoDup_cons in Hkeys as [Hrow Hkeys].
    cbn [Dict.keys fmap list_fmap ProgressiveAnalysis.position_loop].
    rewrite (progressive_position_step _ _ _ row.2); try done.
    2:{ apply Hget. left. }
    2:{ intros a sq Ha. apply (Hrange row a sq); [left | done]. }
    cbn [mbind result_bind Py.bind].
    change (list_fmap _ _ fst rows) with (Dict.keys rows).
    rewrite IH; clear IH.
    + by destruct alignment.
    + done.
    + intros row' Hrow'. cbn [set_reference_alleles set_proportion_dictionary
                               proportion_dictionary].
      rewrite dict_get_setitem_ne.
      * apply Hget. by right.
      * intros Heq. apply Hrow. rewrite Heq.
        apply list_elem_of_fmap. by exists row'.
    + by destruct alignment.
    + destruct alignment; simpl in *. by apply NoDup_filter.
    + intros row' a sq Hrow' Ha. apply (Hrange row' a sq); [by right |].
      by destruct alignment.
Qed.

Lemma foldl_step_candidates proportion_threshold lines rows candidates :
  foldl (step_candidates proportion_threshold lines) candidates rows
  = filter (fun allele =>
              Forall (fun row : Z * list (string * Q) =>
                        kept lines row.1 (Spec.present proportion_threshold row.2) allele
                        = true) rows)
           candidates.
Proof.
  revert candidates. induction rows as [|row rows IH]; intros candidates.
  - simpl. symmetry. apply filter_all. intros x _. apply Forall_nil_2.
  - simpl. rewrite IH. unfold step_candidates. rewrite list_filter_filter.
    apply filter_ext_elem. intros x _. rewrite Forall_cons. tauto.
Qed.

Lemma kept_survives proportion_threshold lines (row : Z * list (string * Q)) allele :
  allele ∈ Dict.keys lines →
  kept lines row.1 (Spec.present proportion_threshold row.2) allele
  = Spec.survives proportion_threshold lines row allele.
Proof.
  intros Hin. unfold kept, Spec.survives, Spec.nucleotide_of.
  destruct (Dict.get allele lines) eqn:Hget; [done |].
  by apply dict_get_None in Hget.
Qed.

Lemma filter_intersection proportion_threshold lines rows candidates :
  candidates ⊆ Dict.keys lines →
  filter (fun allele =>
            Forall (fun row : Z * list (string * Q) =>
                      kept lines row.1 (Spec.present proportion_threshold row.2) allele
                      = true) rows)
         candidates
  = Spec.intersection proportion_threshold lines rows candidates.
Proof.
  intros Hsub. unfold Spec.intersection, Spec.survivor_set.
  apply filter_ext_elem. intros x Hx.
  rewrite !Forall_forall. split; intros Hall row Hrow.
  - apply list_elem_of_filter. split; [| done].
    rewrite <- kept_survives by (by apply Hsub). by apply Hall.
  - specialize (Hall row Hrow). apply list_elem_of_filter in Hall as [Hs _].
    rewrite kept_survives by (by apply Hsub). done.
Qed.

Lemma intersection_perm proportion_threshold lines rows rows' candidates :
  rows ≡ₚ rows' →
  Spec.intersection proportion_threshold lines rows candidates
  = Spec.intersection proportion_threshold lines rows' candidates.
Proof.
  intros Hperm. unfold Spec.intersection. apply filter_ext_elem. intros x _.
  by rewrite Hperm.
Qed.

Lemma intersection_idempotent proportion_threshold lines rows candidates :
  Spec.intersection proportion_threshold lines rows
    (Spec.intersection proportion_threshold lines rows candidates)
  = Spec.intersection proportion_threshold lines rows candidates.
Proof.
  unfold Spec.intersection at 1. apply filter_all. intros x Hx.
  pose proof Hx as Hx'. unfold Spec.intersection in Hx'.
  apply list_elem_of_filter in Hx' as [Hall _].
  rewrite Forall_forall in Hall |- *. intros row Hrow.
  specialize (Hall row Hrow). unfold Spec.survivor_set in Hall |- *.
  apply list_elem_of_filter in Hall as [Hs _].
  apply list_elem_of_filter. done.
Qed.

Lemma derived_keys (rows : Spec.table) : Dict.keys (Spec.derived rows) = Dict.keys rows.
Proof.
  unfold Dict.keys, Spec.derived. induction rows as [|row rows IH]; [done |].
  simpl. f_equal. exact IH.
Qed.

Lemma derived_get (rows : Spec.table) row :
  NoDup (Dict.keys rows) → row ∈ rows →
  Dict.get row.1 (Spec.derived rows) = Some (Spec.derived_entry row.2).
Proof.
  intros Hnd Hrow. apply dict_get_NoDup.
  - by rewrite derived_keys.
  - unfold Spec.derived. apply list_elem_of_fmap.
    exists row. split; [done | done].
Qed.

(** The pass over any arrangement of the rows of a derived table. *)
Lemma progressive_filter_result proportion_threshold (table rows : Spec.table) alignment :
  proportion_dictionary alignment = Spec.derived table →
  NoDup (Dict.keys table) →
  rows ≡ₚ table →
  NoDup (Dict.keys (Reference.allele_lines (reference alignment))) →
  NoDup (reference_alleles alignment) →
  reference_alleles alignment ⊆ Dict.keys (Reference.allele_lines (reference alignment)) →
  (∀ row allele_id allele_sequence,
     row ∈ table →
     (allele_id, allele_sequence) ∈ Reference.allele_lines (reference alignment) →
     0 ≤ row.1 < Z.of_nat (length allele_sequence)) →
  ∃ alignment',
    ProgressiveAnalysis.position_loop proportion_threshold (Dict.keys rows) alignment
    = Return alignment'
    ∧ reference_alleles alignment'
      = Spec.intersection proportion_threshold
          (Reference.allele_lines (reference alignment)) table (reference_alleles alignment)
    ∧ proportion_dictionary alignment'
      = foldl (step_table proportion_threshold) (proportion_dictionary alignment) rows.
Proof.
  intros Hpd Htable Hperm Hlines Hnd Hsub Hrange.
  eexists. split; [| split].
  - apply progressive_position_loop; try done.
    + unfold Dict.keys. by rewrite Hperm.
    + intros row Hrow. rewrite Hpd. apply derived_get; [done |]. by rewrite <- Hperm.
    + intros row a sq Hrow. apply Hrange. by rewrite <- Hperm.
  - cbn [set_reference_alleles reference_alleles].
    rewrite foldl_step_candidates, filter_intersection by done.
    by apply intersection_perm.
  - done.
Qed.

Lemma present_loop_list entry proportion_threshold present_nucleotides key l :
  (key, PList l) ∈ entry →
  ProgressiveAnalysis.present_loop entry proportion_threshold present_nucleotides
  = Raise TypeError.
Proof.
  revert present_nucleotides.
  induction entry as [|[k v] entry IH]; intros present_nucleotides Hin;
    [by apply elem_of_nil in Hin |].
  apply elem_of_cons in Hin as [[= <- <-] | Hin]; [done |].
  cbn [ProgressiveAnalysis.present_loop].
  destruct v as [q | l']; [| done].
  destruct (negb (Qle_bool q proportion_threshold)); by apply IH.
Qed.

Lemma foldl_step_table_other proportion_threshold pd (rows : Spec.table) position :
  position ∉ Dict.keys rows →
  Dict.get position (foldl (step_table proportion_threshold) pd rows)
  = Dict.get position pd.
Proof.
  revert pd. induction rows as [|row rows IH]; intros pd Hout; [done |].
  cbn [foldl]. rewrite IH.
  - unfold step_table. apply dict_get_setitem_ne.
    intros Heq. apply Hout. rewrite <- Heq. left.
  - intros Hin. apply Hout. by right.
Qed.

Lemma foldl_step_table_get proportion_threshold pd (rows : Spec.table) row :
  NoDup (Dict.keys rows) → row ∈ rows →
  Dict.get row.1 (foldl (step_table proportion_threshold) pd rows)
  = Some (Dict.setitem "Present Nucleotides"%string
            (PList (Spec.present proportion_threshold row.2))
            (Spec.derived_entry row.2)).
Proof.
  revert pd. induction rows as [|first rows IH]; intros pd Hnd Hrow;
    [by apply elem_of_nil in Hrow |].
  cbn [Dict.keys fmap list_fmap] in Hnd. apply NoDup_cons in Hnd as [Hfirst Hnd].
  cbn [foldl]. apply elem_of_cons in Hrow as [-> | Hrow].
  - rewrite foldl_step_table_other by done. unfold step_table.
    apply dict_get_setitem_eq.
  - by apply IH.
Qed.

Lemma foldl_step_table_keys proportion_threshold pd (rows : Spec.table) :
  Forall (fun row : Z * list (string * Q) => row.1 ∈ Dict.keys pd) rows →
  Dict.keys (foldl (step_table proportion_threshold) pd rows) = Dict.keys pd.
Proof.
  revert pd. induction rows as [|row rows IH]; intros pd Hall; [done |].
  apply Forall_cons in Hall as [Hrow Hall]. cbn [foldl].
  assert (Hstep : Dict.keys (step_table proportion_threshold pd row) = Dict.keys pd).
  { unfold step_table. apply dict_keys_setitem_present.
    destruct (Dict.get row.1 pd) eqn:Hget; [done |].
    by apply dict_get_None in Hget. }
  rewrite IH; [done |]. by rewrite Hstep.
Qed.

(** A second visit of a position the Progressive Filter has been through
    raises: the entry holds a list by now. *)
Lemma second_visit_raises proportion_threshold (rows : Spec.table) pd alignment row :
  NoDup (Dict.keys rows) → row ∈ rows →
  proportion_dictionary alignment = foldl (step_table proportion_threshold) pd rows →
  ProgressiveAnalysis.position_step proportion_threshold alignment row.1
  = Raise TypeError.
Proof.
  intros Hnd Hrow Hpd. unfold ProgressiveAnalysis.position_step, Dict.getitem.
  rewrite Hpd, foldl_step_table_get by done. cbn [mbind result_bind Py.bind].
  rewrite (present_loop_list _ _ _ "Present Nucleotides"%string
             (Spec.present proportion_threshold row.2)); [done |].
  apply dict_get_elem_of, dict_get_setitem_eq.
Qed.

(** C8, as the code has it.  On a derived table and a reference panel whose
    allele ids are distinct and whose sequences reach every position of the
    table, the position loop of the Progressive Filter returns, whatever the
    order in which the positions are taken, the intersection over all
    positions of the per-position survivor sets.  The result lies within the
    candidates it started from, and the candidates left after any first part
    of the positions contain it.  Checking a position again against the
    survivors would remove nothing; but the filter cannot be run again on
    the instance: under every position it has visited it left a list, a
    second visit raises [TypeError], and so does a second [__init__]. *)
Theorem C8_progressive_filter_is_an_intersection proportion_threshold
    (table rows : Spec.table) (alignment : AlignmentInformation.t) :
  proportion_dictionary alignment = Spec.derived table →
  NoDup (Dict.keys table) →
  rows ≡ₚ table →
  NoDup (Dict.keys (Reference.allele_lines (reference alignment))) →
  NoDup (reference_alleles alignment) →
  reference_alleles alignment ⊆ Dict.keys (Reference.allele_lines (reference alignment)) →
  (∀ row allele_id allele_sequence,
     row ∈ table →
     (allele_id, allele_sequence) ∈ Reference.allele_lines (reference alignment) →
     0 ≤ row.1 < Z.of_nat (length allele_sequence)) →
  ∃ alignment',
    ProgressiveAnalysis.position_loop proportion_threshold (Dict.keys rows) alignment
    = Return alignment'
    ∧ reference_alleles alignment'
      = Spec.intersection proportion_threshold
          (Reference.allele_lines (reference alignment)) table (reference_alleles alignment)
    ∧ reference_alleles alignment' `sublist_of` reference_alleles alignment
    ∧ (∀ earlier later,
         rows = earlier ++ later →
         ∃ alignment1,
           ProgressiveAnalysis.position_loop proportion_threshold (Dict.keys earlier)
             alignment = Return alignment1
           ∧ reference_alleles alignment' ⊆ reference_alleles alignment1)
    ∧ (∀ row,
         row ∈ table →
         ProgressiveAnalysis.allele_loop (Reference.allele_lines (reference alignment'))
           row.1 (Spec.present proportion_threshold row.2) (reference_alleles alignment')
         = Return (reference_alleles alignment'))
    ∧ (∀ row,
         row ∈ table →
         ProgressiveAnalysis.position_step proportion_threshold alignment' row.1
         = Raise TypeError)
    ∧ (table ≠ [] →
       ProgressiveAnalysis.init alignment' proportion_threshold = Raise TypeError).
Proof.
  intros Hpd Htable Hperm Hlines Hnd Hsub Hrange.
  assert (Hkeys : NoDup (Dict.keys rows)) by (unfold Dict.keys; by rewrite Hperm).
  assert (Hloop :
            ProgressiveAnalysis.position_loop proportion_threshold (Dict.keys rows)
              alignment
            = Return
                (set_reference_alleles
                   (set_proportion_dictionary alignment
                      (foldl (step_table proportion_threshold)
                         (proportion_dictionary alignment) rows))
                   (foldl (step_candidates proportion_threshold
                             (Reference.allele_lines (reference alignment)))
                      (reference_alleles alignment) rows))).
  { apply progressive_position_loop; try done.
    - intros row Hrow. rewrite Hpd. apply derived_get; [done | by rewrite <- Hperm].
    - intros row a sq Hrow. apply Hrange. by rewrite <- Hperm. }
  destruct (progressive_filter_result proportion_threshold table rows alignment)
    as (alignment' & Hrun & Hfinal & _); try done.
  assert (Hstate :
            alignment'
            = set_reference_alleles
                (set_proportion_dictionary alignment
                   (foldl (step_table proportion_threshold)
                      (proportion_dictionary alignment) rows))
                (foldl (step_candidates proportion_threshold
                          (Reference.allele_lines (reference alignment)))
                   (reference_alleles alignment) rows)).
  { rewrite Hloop in Hrun. by injection Hrun as <-. }
  assert (Hvisit :
            ∀ row, row ∈ table →
                   ProgressiveAnalysis.position_step proportion_threshold alignment' row.1
                   = Raise TypeError).
  { intros row Hrow.
    apply (second_visit_raises proportion_threshold rows
             (proportion_dictionary alignment)); [done | by rewrite Hperm |].
    rewrite Hstate. by destruct alignment. }
  exists alignment'. split; [done |]. split; [done |].
  split; [| split; [| split; [| split; [exact Hvisit |]]]].
  - rewrite Hfinal. unfold Spec.intersection. apply sublist_filter.
  - intros earlier later Hsplit.
    eexists. split.
    + apply progressive_position_loop; try done.
      * subst rows. unfold Dict.keys in Hkeys. rewrite fmap_app in Hkeys.
        by apply NoDup_app in Hkeys as [? _].
      * intros row Hrow. rewrite Hpd. apply derived_get; [done |].
        rewrite <- Hperm, Hsplit. apply elem_of_app. by left.
      * intros row a sq Hrow. apply Hrange.
        rewrite <- Hperm, Hsplit. apply elem_of_app. by left.
    + cbn [set_reference_alleles reference_alleles].
      rewrite Hfinal, <- (intersection_perm _ _ rows table) by done.
      rewrite <- filter_intersection by done.
      rewrite foldl_step_candidates. subst rows.
      intros x Hx. apply list_elem_of_filter in Hx as [Hall Hx].
      apply list_elem_of_filter. split; [| done].
      by apply Forall_app in Hall as [? _].
  - intros row Hrow.
    assert (Hsurvivors :
              reference_alleles alignment'
              = filter (fun allele =>
                          Forall (fun row : Z * list (string * Q) =>
                                    kept (Reference.allele_lines (reference alignment))
                                      row.1 (Spec.present proportion_threshold row.2)
                                      allele = true) rows)
                       (reference_alleles alignment)).
    { rewrite Hstate. cbn [set_reference_alleles reference_alleles].
      apply foldl_step_candidates. }
    replace (reference alignment') with (reference alignment)
      by (rewrite Hstate; by destruct alignment).
    rewrite allele_loop_filter.
    + f_equal. apply filter_all. intros allele Hallele.
      rewrite Hsurvivors in Hallele.
      apply list_elem_of_filter in Hallele as [Hall _].
      apply (proj1 (Forall_forall _ _) Hall). by rewrite Hperm.
    + done.
    + rewrite Hsurvivors. by apply NoDup_filter.
    + intros a sq Ha. by apply (Hrange row a sq).
  - intros Hne. unfold ProgressiveAnalysis.init.
    assert (Hpositions : Dict.keys (proportion_dictionary alignment') = Dict.keys table).
    { replace (proportion_dictionary alignment')
        with (foldl (step_table proportion_threshold)
                (proportion_dictionary alignment) rows)
        by (rewrite Hstate; by destruct alignment).
      rewrite foldl_step_table_keys; [by rewrite Hpd, derived_keys |].
      apply Forall_forall. intros row Hrow. rewrite Hpd, derived_keys.
      apply list_elem_of_fmap. exists row. split; [done | by rewrite <- Hperm]. }
    rewrite Hpositions. destruct table as [|row table]; [done |].
    cbn [Dict.keys fmap list_fmap ProgressiveAnalysis.position_loop].
    rewrite (Hvisit row) by left. done.
Qed.

(** C8 as stated does not hold: the Progressive Filter is not idempotent.
    Run a second time on the instance it has been through, it raises instead
    of returning the same candidates. *)
Lemma C8_counterexample :
  ¬ (∀ proportion_threshold (alignment alignment' : AlignmentInformation.t) progressive,
       ProgressiveAnalysis.init alignment proportion_threshold
       = Return (alignment', progressive) →
       ∃ alignment'' progressive',
         ProgressiveAnalysis.init alignment' proportion_threshold
         = Return (alignment'', progressive')
         ∧ reference_alleles alignment'' = reference_alleles alignment').
Proof.
  intros H.
  destruct (ProgressiveAnalysis.init Examples.balanced 5)
    as [[alignment' progressive] | e] eqn:Hinit; [| by vm_compute in Hinit].
  destruct (H 5%Q Examples.balanced alignment' progressive Hinit)
    as (alignment'' & progressive' & Hagain & _).
  vm_compute in Hinit. injection Hinit as <- _. by vm_compute in Hagain.
Qed.

(** C2, as the code has it.  At a position whose present-symbol set is
    empty the nucleotide of no allele is among the present symbols, so the
    position removes every allele that is still a candidate; the pass goes
    on without raising. *)
Theorem C2_empty_present_set_removes_every_candidate proportion_threshold
    (alignment : AlignmentInformation.t) position entry :
  Dict.get position (proportion_dictionary alignment) = Some (Spec.derived_entry entry) →
  Spec.present proportion_threshold entry = [] →
  NoDup (Dict.keys (Reference.allele_lines (reference alignment))) →
  NoDup (reference_alleles alignment) →
  reference_alleles alignment ⊆ Dict.keys (Reference.allele_lines (reference alignment)) →
  (∀ allele_id allele_sequence,
     (allele_id, allele_sequence) ∈ Reference.allele_lines (reference alignment) →
     0 ≤ position < Z.of_nat (length allele_sequence)) →
  ∃ alignment',
    ProgressiveAnalysis.position_step proportion_threshold alignment position
    = Return alignment'
    ∧ reference_alleles alignment' = [].
Proof.
  intros Hentry Hempty Hlines Hnd Hsub Hrange.
  eexists. split; [by apply progressive_position_step |].
  cbn [set_reference_alleles reference_alleles]. rewrite Hempty.
  apply filter_none. intros x Hx. unfold kept.
  destruct (Dict.get x _) as [allele_sequence |] eqn:Hget.
  - apply dict_get_elem_of in Hget.
    destruct (getitem_in_range allele_sequence position (Hrange _ _ Hget))
      as (nucleotide & -> & _).
    rewrite bool_decide_eq_false_2; [done | apply not_elem_of_nil].
  - apply dict_get_None in Hget. destruct Hget. by apply Hsub.
Qed.

(** C2 as stated does not hold: with the two symbols of a position at 50
    per cent each and a threshold of 50, no symbol is present and the
    position empties the candidate list. *)
Lemma C2_counterexample :
  ¬ (∀ proportion_threshold (alignment alignment' : AlignmentInformation.t) position entry,
       Dict.get position (proportion_dictionary alignment)
       = Some (Spec.derived_entry entry) →
       Spec.present proportion_threshold entry = [] →
       ProgressiveAnalysis.position_step proportion_threshold alignment position
       = Return alignment' →
       reference_alleles alignment' = reference_alleles alignment).
Proof.
  intros H.
  destruct (ProgressiveAnalysis.position_step 50 Examples.balanced 1)
    as [alignment' | e] eqn:Hstep; [| by vm_compute in Hstep].
  pose proof (H 50%Q Examples.balanced alignment' 1 Examples.balanced_entry
                eq_refl eq_refl Hstep) as Heq.
  vm_compute in Hstep. injection Hstep as <-. by vm_compute in Heq.
Qed.

Lemma dict_setitem_app {K V : Type} `{EqDecision K} (k : K) (v v0 : V)
    (pre d : list (K * V)) :
  k ∉ Dict.keys pre →
  Dict.setitem k v (pre ++ (k, v0) :: d) = pre ++ (k, v) :: d.
Proof.
  unfold Dict.keys. induction pre as [|[k' v'] pre IH]; simpl; intros Hk.
  - by rewrite decide_True.
  - apply not_elem_of_cons in Hk as [Hne Hk].
    rewrite decide_False by done. by rewrite IH.
Qed.

Lemma derived_entry_keys entry : Dict.keys (Spec.derived_entry entry) = Dict.keys entry.
Proof.
  unfold Dict.keys, Spec.derived_entry. induction entry as [|nq entry IH]; [done |].
  simpl. f_equal. exact IH.
Qed.

Lemma foldl_step_table proportion_threshold pre (rest : Spec.table) :
  NoDup (Dict.keys pre ++ Dict.keys rest) →
  (∀ row, row ∈ rest → "Present Nucleotides"%string ∉ Dict.keys row.2) →
  foldl (step_table proportion_threshold) (pre ++ Spec.derived rest) rest
  = pre ++ Spec.annotated proportion_threshold rest.
Proof.
  revert pre. induction rest as [|row rest IH]; intros pre Hnd Hkey; [done |].
  cbn [foldl Spec.derived Spec.annotated map].
  unfold step_table at 2.
  rewrite dict_setitem_app.
  2:{ apply NoDup_app in Hnd as (_ & Hdisj & _). intros Hin.
      apply (Hdisj _ Hin). unfold Dict.keys. simpl. left. }
  rewrite dict_setitem_absent.
  2:{ apply dict_get_None. rewrite derived_entry_keys. apply Hkey. left. }
  rewrite (cons_middle _ pre), app_assoc.
  fold (Spec.derived rest). rewrite IH.
  - rewrite <- app_assoc. done.
  - unfold Dict.keys in *. rewrite fmap_app. simpl in *.
    rewrite <- app_assoc. simpl.
    by apply NoDup_app in Hnd as (H1 & H2 & H3); apply NoDup_app.
  - intros row' Hrow'. apply Hkey. by right.
Qed.

Lemma combined_init_frame progressive alignment progressive' alignment' combined :
  CombinedAnalysis.init progressive alignment = Return (progressive', alignment', combined) →
  alignment' = alignment.
Proof.
  unfold CombinedAnalysis.init. intros H.
  apply bind_return in H as (p1 & _ & H).
  apply bind_return in H as (c1 & _ & H).
  by injection H as _ <- _.
Qed.

Lemma annotated_keys proportion_threshold (table : Spec.table) :
  Dict.keys (Spec.annotated proportion_threshold table) = Dict.keys table.
Proof.
  unfold Dict.keys, Spec.annotated. induction table as [|row table IH]; [done |].
  simpl. f_equal. exact IH.
Qed.

Lemma dict_get_last {K V : Type} `{EqDecision K} (k : K) (v : V) (d : list (K * V)) :
  k ∉ Dict.keys d → Dict.get k (d ++ [(k, v)]) = Some v.
Proof.
  intros Hout. apply dict_get_None in Hout.
  rewrite <- (dict_setitem_absent k v d Hout). apply dict_get_setitem_eq.
Qed.

(** What the Combinatorial Matcher finds under a position: before the
    Progressive Filter there is no list to read, after it the list of the
    present symbols. *)
Lemma present_non_gap_derived (entry : list (string * Q)) :
  Dict.keys entry = Spec.symbol_keys →
  CombinedAnalysis.present_non_gap (Spec.derived_entry entry) = Raise KeyError.
Proof.
  intros Hkeys. unfold CombinedAnalysis.present_non_gap, Dict.getitem.
  rewrite (proj2 (dict_get_None _ _)); [done |].
  rewrite derived_entry_keys, Hkeys. by apply (bool_decide_unpack _).
Qed.

Lemma present_non_gap_annotated proportion_threshold (entry : list (string * Q)) :
  Dict.keys entry = Spec.symbol_keys →
  CombinedAnalysis.present_non_gap
    (Spec.derived_entry entry
     ++ [("Present Nucleotides"%string, PList (Spec.present proportion_threshold entry))])
  = Return (filter (fun n => n ≠ "."%string) (Spec.present proportion_threshold entry)).
Proof.
  intros Hkeys. unfold CombinedAnalysis.present_non_gap, Dict.getitem.
  rewrite dict_get_last; [done |].
  rewrite derived_entry_keys, Hkeys. by apply (bool_decide_unpack _).
Qed.

(** C9, as the code has it.  The Progressive Filter writes into the table:
    under every position it stores the list of present symbols under the key
    "Present Nucleotides".  The five symbol keys stay, in their order and
    with their percentages.  The Combinatorial Matcher reads that list, which
    it would not find in the table as derived, and leaves the alignment
    instance the filter has been through as it found it. *)
Theorem C9_table_gains_present_nucleotides proportion_threshold (table : Spec.table)
    (alignment : AlignmentInformation.t) :
  proportion_dictionary alignment = Spec.derived table →
  NoDup (Dict.keys table) →
  (∀ row, row ∈ table → Dict.keys row.2 = Spec.symbol_keys) →
  NoDup (Dict.keys (Reference.allele_lines (reference alignment))) →
  NoDup (reference_alleles alignment) →
  (∀ row allele_id allele_sequence,
     row ∈ table →
     (allele_id, allele_sequence) ∈ Reference.allele_lines (reference alignment) →
     0 ≤ row.1 < Z.of_nat (length allele_sequence)) →
  ∃ alignment',
    ProgressiveAnalysis.position_loop proportion_threshold
      (Dict.keys (proportion_dictionary alignment)) alignment = Return alignment'
    ∧ proportion_dictionary alignment' = Spec.annotated proportion_threshold table
    ∧ (∀ row,
         row ∈ table →
         ∃ entry entry',
           Dict.get row.1 (proportion_dictionary alignment) = Some entry
           ∧ CombinedAnalysis.present_non_gap entry = Raise KeyError
           ∧ Dict.get row.1 (proportion_dictionary alignment') = Some entry'
           ∧ CombinedAnalysis.present_non_gap entry'
             = Return (filter (fun n => n ≠ "."%string)
                         (Spec.present proportion_threshold row.2)))
    ∧ (∀ progressive progressive' alignment'' combined,
         CombinedAnalysis.init progressive alignment'
         = Return (progressive', alignment'', combined) →
         alignment'' = alignment'
         ∧ proportion_dictionary alignment''
           = Spec.annotated proportion_threshold table).
Proof.
  intros Hpd Htable Hkeys Hlines Hnd Hrange.
  eexists. split; [| split; [| split]].
  - rewrite Hpd at 1. rewrite derived_keys.
    apply progressive_position_loop; try done.
    intros row Hrow. rewrite Hpd. by apply derived_get.
  - cbn [set_reference_alleles set_proportion_dictionary proportion_dictionary].
    rewrite Hpd.
    apply (foldl_step_table proportion_threshold [] table); [done |].
    intros row Hrow. rewrite (Hkeys row Hrow). by apply (bool_decide_unpack _).
  - intros row Hrow.
    exists (Spec.derived_entry row.2),
           (Spec.derived_entry row.2
            ++ [("Present Nucleotides"%string,
                 PList (Spec.present proportion_threshold row.2))]).
    split; [rewrite Hpd; by apply derived_get |].
    split; [by apply present_non_gap_derived, Hkeys |].
    split; [| by apply present_non_gap_annotated, Hkeys].
    cbn [set_reference_alleles set_proportion_dictionary proportion_dictionary].
    rewrite Hpd.
    pose proof (foldl_step_table proportion_threshold [] table) as Hfold.
    cbn [app Dict.keys fmap list_fmap] in Hfold.
    rewrite Hfold; [| done |].
    + apply dict_get_NoDup; [by rewrite annotated_keys |].
      unfold Spec.annotated. apply list_elem_of_fmap. by exists row.
    + intros row' Hrow'. rewrite (Hkeys row' Hrow'). by apply (bool_decide_unpack _).
  - intros progressive progressive' alignment'' combined Hrun.
    apply combined_init_frame in Hrun as ->. split; [done |].
    cbn [set_reference_alleles set_proportion_dictionary proportion_dictionary].
    rewrite Hpd.
    apply (foldl_step_table proportion_threshold [] table); [done |].
    intros row Hrow. rewrite (Hkeys row Hrow). by apply (bool_decide_unpack _).
Qed.

(** C9 as stated does not hold: after the Progressive Filter the table has a
    sixth key under its position. *)
Lemma C9_counterexample :
  ¬ (∀ proportion_threshold (alignment alignment' : AlignmentInformation.t) progressive,
       ProgressiveAnalysis.init alignment proportion_threshold
       = Return (alignment', progressive) →
       proportion_dictionary alignment' = proportion_dictionary alignment).
Proof.
  intros H.
  destruct (ProgressiveAnalysis.init Examples.balanced 5)
    as [[alignment' progressive] | e] eqn:Hinit; [| by vm_compute in Hinit].
  pose proof (H 5%Q Examples.balanced alignment' progressive Hinit) as Heq.
  vm_compute in Hinit. injection Hinit as <- _. by vm_compute in Heq.
Qed.

(** ** CombinedAnalysis.py *)

Lemma gene_nucleotides_spec alleles coding_position entry :
  NoDup (Dict.keys entry ++ Dict.keys alleles) →
  (∀ allele coding_sequence,
     (allele, coding_sequence) ∈ alleles →
     0 ≤ coding_position < Z.of_nat (length coding_sequence)) →
  CombinedAnalysis.gene_nucleotides alleles coding_position entry
  = Return (entry ++ Spec.nucleotides_at coding_position alleles).
Proof.
  revert entry.
  induction alleles as [|[allele coding_sequence] alleles IH]; intros entry Hnd Hrange.
  - simpl. by rewrite app_nil_r.
  - cbn [CombinedAnalysis.gene_nucleotides].
    destruct (getitem_in_range coding_sequence coding_position)
      as (nucleotide & Hn & ->); [apply (Hrange allele); left |].
    cbn [mbind result_bind Py.bind].
    unfold Dict.keys in Hnd. simpl in Hnd.
    rewrite dict_setitem_absent.
    2:{ apply dict_get_None. apply NoDup_app in Hnd as (_ & Hdisj & _).
        intros Hin. apply (Hdisj _ Hin). left. }
    rewrite IH.
    + unfold Spec.nucleotides_at. simpl. rewrite Hn. simpl.
      by rewrite <- app_assoc.
    + unfold Dict.keys. rewrite fmap_app, <- app_assoc. simpl.
      apply NoDup_app in Hnd as (H1 & H2 & H3). apply NoDup_app. done.
    + intros a cs Ha. apply (Hrange a). by right.
Qed.

Lemma coding_sequences_loop_spec (rad : Spec.survivors) coding_position csp :
  NoDup (Dict.keys csp ++ Dict.keys rad) →
  (∀ kir_gene alleles,
     (kir_gene, alleles) ∈ rad →
     NoDup (Dict.keys alleles)
     ∧ ∀ allele coding_sequence,
         (allele, coding_sequence) ∈ alleles →
         0 ≤ coding_position < Z.of_nat (length coding_sequence)) →
  CombinedAnalysis.coding_sequences_loop rad coding_position csp
  = Return (csp ++ Spec.column rad coding_position).
Proof.
  revert csp. induction rad as [|[kir_gene alleles] rad IH]; intros csp Hnd Hwf.
  - simpl. by rewrite app_nil_r.
  - cbn [CombinedAnalysis.coding_sequences_loop].
    destruct (Hwf kir_gene alleles) as [Hkeys Hrange]; [left |].
    rewrite gene_nucleotides_spec by done.
    cbn [mbind result_bind Py.bind app].
    unfold Dict.keys in Hnd. simpl in Hnd.
    rewrite dict_setitem_absent.
    2:{ apply dict_get_None. apply NoDup_app in Hnd as (_ & Hdisj & _).
        intros Hin. apply (Hdisj _ Hin). left. }
    rewrite IH.
    + simpl. by rewrite <- app_assoc.
    + unfold Dict.keys. rewrite fmap_app, <- app_assoc. simpl.
      apply NoDup_app in Hnd as (H1 & H2 & H3). apply NoDup_app. done.
    + intros g a Hg. apply (Hwf g). by right.
Qed.

Lemma remove_dups_two {A : Type} `{EqDecision A} (l : list A) :
  (1 < length (remove_dups l))%nat ↔ ∃ x y, x ∈ l ∧ y ∈ l ∧ x ≠ y.
Proof.
  pose proof (NoDup_remove_dups l) as Hnd.
  split.
  - destruct (remove_dups l) as [|x [|y l']] eqn:E; simpl; try lia. intros _.
    exists x, y. split; [| split].
    + apply elem_of_remove_dups. rewrite E. left.
    + apply elem_of_remove_dups. rewrite E. right. left.
    + apply NoDup_cons in Hnd as [Hx _]. intros ->. apply Hx. left.
  - intros (x & y & Hx & Hy & Hne).
    apply elem_of_remove_dups in Hx, Hy.
    destruct (remove_dups l) as [|a [|b l']]; simpl; [| | lia].
    + by apply elem_of_nil in Hx.
    + apply list_elem_of_singleton in Hx, Hy. congruence.
Qed.

Lemma elem_of_nucleotides_at coding_position alleles allele n :
  (allele, n) ∈ Spec.nucleotides_at coding_position alleles
  ↔ ∃ coding_sequence,
      (allele, coding_sequence) ∈ alleles
      ∧ coding_sequence !! Z.to_nat coding_position = Some n.
Proof.
  unfold Spec.nucleotides_at. rewrite list_elem_of_omap. split.
  - intros ([a cs] & Hin & Heq). simpl in Heq.
    destruct (cs !! Z.to_nat coding_position) eqn:Hn; [| done].
    simpl in Heq. injection Heq as -> ->. by exists cs.
  - intros (cs & Hin & Hn). exists (allele, cs). split; [done |].
    simpl. by rewrite Hn.
Qed.

(** [is_discriminant] on the column of a position says what the
    specification calls discriminant. *)
Lemma is_discriminant_spec (self : CombinedAnalysis.t) (rad : Spec.survivors)
    coding_position :
  CombinedAnalysis.coding_sequences_per_position self = Spec.column rad coding_position →
  CombinedAnalysis.is_discriminant self = true ↔ Spec.discriminant rad coding_position.
Proof.
  intros Hcsp. unfold CombinedAnalysis.is_discriminant. rewrite Hcsp.
  rewrite existsb_exists. split.
  - intros ([g entry] & Hin & Hlen). simpl in Hlen.
    apply Nat.ltb_lt, remove_dups_two in Hlen as (n1 & n2 & H1 & H2 & Hne).
    unfold Dict.values in H1, H2.
    apply list_elem_of_fmap in H1 as ([a1 n1'] & -> & H1).
    apply list_elem_of_fmap in H2 as ([a2 n2'] & -> & H2).
    apply list_elem_of_In in Hin. unfold Spec.column in Hin.
    apply list_elem_of_fmap in Hin as ([g' alleles] & [= -> ->] & Hin).
    apply elem_of_nucleotides_at in H1 as (cs1 & Hc1 & Hn1).
    apply elem_of_nucleotides_at in H2 as (cs2 & Hc2 & Hn2).
    exists g', alleles, a1, cs1, a2, cs2, n1', n2'. done.
  - intros (g & alleles & a1 & cs1 & a2 & cs2 & n1 & n2 & Hg & H1 & H2 & Hn1 & Hn2 & Hne).
    exists (g, Spec.nucleotides_at coding_position alleles). split.
    + apply list_elem_of_In. unfold Spec.column. apply list_elem_of_fmap.
      by exists (g, alleles).
    + simpl. apply Nat.ltb_lt, remove_dups_two.
      exists n1, n2. split; [| split; [| done]].
      * unfold Dict.values. apply list_elem_of_fmap. exists (a1, n1). split; [done |].
        apply elem_of_nucleotides_at. by exists cs1.
      * unfold Dict.values. apply list_elem_of_fmap. exists (a2, n2). split; [done |].
        apply elem_of_nucleotides_at. by exists cs2.
Qed.

Lemma dict_get_column (rad : Spec.survivors) coding_position kir_gene :
  Dict.get kir_gene (Spec.column rad coding_position)
  = Spec.nucleotides_at coding_position <$> Dict.get kir_gene rad.
Proof.
  induction rad as [|[g alleles] rad IH]; [done |].
  simpl. destruct (decide (kir_gene = g)); [done | exact IH].
Qed.

Lemma dict_get_nucleotides_at coding_position alleles allele :
  (∀ a cs, (a, cs) ∈ alleles → 0 ≤ coding_position < Z.of_nat (length cs)) →
  Dict.get allele (Spec.nucleotides_at coding_position alleles)
  = Dict.get allele alleles ≫= fun cs => cs !! Z.to_nat coding_position.
Proof.
  induction alleles as [|[a cs] alleles IH]; intros Hrange; [done |].
  destruct (getitem_in_range cs coding_position) as (n & Hn & _);
    [apply (Hrange a); left |].
  unfold Spec.nucleotides_at. simpl. rewrite Hn. simpl.
  destruct (decide (allele = a)); [done |].
  apply IH. intros a' cs' Ha'. apply (Hrange a'). by right.
Qed.

Lemma contributed_column (rad : Spec.survivors) coding_position allele :
  Spec.well_keyed rad coding_position →
  Dict.get (ProgressiveAnalysis.kir_gene_of allele) (Spec.column rad coding_position)
    ≫= Dict.get allele
  = Spec.contributed rad coding_position allele.
Proof.
  intros [_ Hwf]. unfold Spec.contributed. rewrite dict_get_column.
  destruct (Dict.get _ rad) as [alleles |] eqn:Hget; [| done]. simpl.
  apply dict_get_elem_of in Hget. destruct (Hwf _ _ Hget) as [_ Hrange].
  apply dict_get_nucleotides_at. intros a cs Ha. by apply (Hrange a cs).
Qed.

Lemma covered_loop_spec alleles (rad : Spec.survivors) coding_position covered :
  Spec.well_keyed rad coding_position →
  (∀ allele, allele ∈ alleles → is_Some (Spec.contributed rad coding_position allele)) →
  CombinedAnalysis.covered_loop alleles (Spec.column rad coding_position) covered
  = Return (covered ++ omap (Spec.contributed rad coding_position) alleles).
Proof.
  intros Hwf. revert covered.
  induction alleles as [|allele alleles IH]; intros covered Hall.
  - simpl. by rewrite app_nil_r.
  - cbn [CombinedAnalysis.covered_loop].
    destruct (Hall allele) as [n Hn]; [left |].
    pose proof (contributed_column rad coding_position allele Hwf) as Hcol.
    rewrite Hn in Hcol. unfold Dict.getitem.
    destruct (Dict.get _ (Spec.column rad coding_position)) as [entry |]; [| done].
    simpl in Hcol. cbn [mbind result_bind Py.bind]. rewrite Hcol.
    cbn [mbind result_bind Py.bind].
    rewrite IH by (intros a Ha; apply Hall; by right).
    simpl. rewrite Hn. by rewrite <- app_assoc.
Qed.

Lemma combination_loop_spec combinations (rad : Spec.survivors) coding_position
    present_nucleotides matching :
  Spec.well_keyed rad coding_position →
  (∀ c allele, c ∈ combinations → allele ∈ CombinedAnalysis.alleles_of c →
               is_Some (Spec.contributed rad coding_position allele)) →
  CombinedAnalysis.combination_loop combinations (Spec.column rad coding_position)
    present_nucleotides matching
  = Return
      (matching
       ++ filter (fun c => CombinedAnalysis.issubset present_nucleotides
                             (Spec.covered rad coding_position c) = true)
                 combinations).
Proof.
  intros Hwf. revert matching.
  induction combinations as [|c combinations IH]; intros matching Hall.
  - simpl. by rewrite app_nil_r.
  - cbn [CombinedAnalysis.combination_loop].
    rewrite covered_loop_spec by (done || (intros a Ha; apply (Hall c); [left | done])).
    cbn [mbind result_bind Py.bind app]. fold (Spec.covered rad coding_position c).
    rewrite filter_cons.
    destruct (CombinedAnalysis.issubset _ _) eqn:Hsub.
    + rewrite decide_True by done.
      rewrite IH by (intros c' a Hc'; apply Hall; by right).
      by rewrite <- app_assoc.
    + rewrite decide_False by (by intros ?).
      apply IH. intros c' a Hc'. apply Hall. by right.
Qed.

Lemma elem_of_combinations_with_replacement_2 {A : Type} (l : list A) (x y : A) :
  (x, y) ∈ CombinedAnalysis.combinations_with_replacement_2 l → x ∈ l ∧ y ∈ l.
Proof.
  induction l as [|z l IH]; simpl; intros Hin; [by apply elem_of_nil in Hin |].
  apply elem_of_cons in Hin as [[= -> ->] | Hin]; [split; left |].
  apply elem_of_app in Hin as [Hin | Hin].
  - apply list_elem_of_fmap in Hin as (w & [= -> ->] & Hw). split; [left | by right].
  - destruct (IH Hin). split; by right.
Qed.

Lemma elem_of_product {A : Type} (pools : list (list A)) (c : list A) :
  c ∈ CombinedAnalysis.product pools → Forall2 (fun x pool => x ∈ pool) c pools.
Proof.
  revert c. induction pools as [|pool pools IH]; intros c Hc; simpl in Hc.
  - apply list_elem_of_singleton in Hc as ->. constructor.
  - apply list_elem_of_In, in_flat_map in Hc as (x & Hx & Hc).
    apply list_elem_of_In in Hx, Hc.
    apply list_elem_of_fmap in Hc as (c' & -> & Hc').
    constructor; [done | by apply IH].
Qed.

Lemma build_all_contributed (rad : Spec.survivors) coding_position c allele :
  Spec.well_keyed rad coding_position →
  c ∈ CombinedAnalysis.build_all_genotype_combinations rad →
  allele ∈ CombinedAnalysis.alleles_of c →
  is_Some (Spec.contributed rad coding_position allele).
Proof.
  intros [Hgenes Hwf] Hc Hallele.
  unfold CombinedAnalysis.build_all_genotype_combinations in Hc.
  apply elem_of_product in Hc.
  unfold CombinedAnalysis.alleles_of in Hallele.
  apply list_elem_of_In, in_flat_map in Hallele as ([a1 a2] & Hpair & Hallele).
  apply list_elem_of_In in Hpair.
  apply list_elem_of_lookup in Hpair as [i Hi].
  destruct (Forall2_lookup_l _ _ _ _ _ Hc Hi) as (pool & Hpool & Hin).
  rewrite list_lookup_fmap in Hpool.
  apply fmap_Some in Hpool as ([g alleles] & Hrad & ->). simpl in Hin.
  apply elem_of_combinations_with_replacement_2 in Hin as [H1 H2].
  apply list_elem_of_lookup_2 in Hrad.
  destruct (Hwf _ _ Hrad) as [Hkeys Hin].
  assert (Hkey : allele ∈ Dict.keys alleles).
  { simpl in Hallele. destruct Hallele as [<- | [<- | []]]; done. }
  unfold Dict.keys in Hkey.
  apply list_elem_of_fmap in Hkey as ([a cs] & -> & Hcs). simpl.
  destruct (Hin _ _ Hcs) as [Hgene Hrange].
  unfold Spec.contributed. rewrite Hgene.
  rewrite (dict_get_NoDup _ _ _ Hgenes Hrad). simpl.
  rewrite (dict_get_NoDup _ _ _ Hkeys Hcs). simpl.
  apply lookup_lt_is_Some_2. lia.
Qed.

Lemma issubset_spec present_nucleotides covered_nucleotides :
  CombinedAnalysis.issubset present_nucleotides covered_nucleotides = true
  ↔ ∀ n, n ∈ present_nucleotides → n ∈ covered_nucleotides.
Proof.
  unfold CombinedAnalysis.issubset. rewrite forallb_forall. split.
  - intros H n Hn. apply list_elem_of_In in Hn.
    specialize (H n Hn). by apply bool_decide_eq_true in H.
  - intros H n Hn. apply bool_decide_eq_true, H. by apply list_elem_of_In.
Qed.

Lemma check_genotype_combinations_spec (self : CombinedAnalysis.t) (rad : Spec.survivors)
    coding_position present_nucleotides :
  Spec.well_keyed rad coding_position →
  CombinedAnalysis.all_genotype_combinations self
  = CombinedAnalysis.build_all_genotype_combinations rad →
  CombinedAnalysis.coding_sequences_per_position self = Spec.column rad coding_position →
  CombinedAnalysis.check_genotype_combinations self present_nucleotides
  = Return
      (CombinedAnalysis.set_genotype_combinations_per_position self
         (CombinedAnalysis.genotype_combinations_per_position self
          ++ [filter (fun c => CombinedAnalysis.issubset present_nucleotides
                                 (Spec.covered rad coding_position c) = true)
                     (CombinedAnalysis.all_genotype_combinations self)])).
Proof.
  intros Hwf Hall Hcsp. unfold CombinedAnalysis.check_genotype_combinations.
  rewrite Hcsp, combination_loop_spec; [done | done |].
  intros c allele Hc. rewrite Hall in Hc. by apply build_all_contributed.
Qed.

(** The body of the matcher's position loop. *)
Lemma combined_position_step (self : CombinedAnalysis.t) (rad : Spec.survivors) pd
    coding_position alignment_position entry l :
  Spec.well_keyed rad coding_position →
  CombinedAnalysis.all_genotype_combinations self
  = CombinedAnalysis.build_all_genotype_combinations rad →
  Dict.get alignment_position pd = Some entry →
  Dict.get "Present Nucleotides"%string entry = Some (PList l) →
  let present_nucleotides := filter (fun n => n ≠ "."%string) l in
  let self_at := CombinedAnalysis.set_coding_sequences_per_position self
                   (Spec.column rad coding_position) in
  CombinedAnalysis.position_step self rad pd coding_position alignment_position
  = Return
      (if (1 <? length present_nucleotides)%nat then
         if CombinedAnalysis.is_discriminant self_at then
           CombinedAnalysis.set_genotype_combinations_per_position self_at
             (CombinedAnalysis.genotype_combinations_per_position self
              ++ [filter (fun c => CombinedAnalysis.issubset present_nucleotides
                                     (Spec.covered rad coding_position c) = true)
                         (CombinedAnalysis.all_genotype_combinations self)])
         else self_at
       else self).
Proof.
  intros Hwf Hall Hentry Hpresent present_nucleotides self_at.
  unfold CombinedAnalysis.position_step, Dict.getitem. rewrite Hentry.
  cbn [mbind result_bind Py.bind].
  unfold CombinedAnalysis.present_non_gap, Dict.getitem. rewrite Hpresent.
  cbn [mbind result_bind Py.bind]. fold present_nucleotides.
  destruct (1 <? length present_nucleotides)%nat; [| done].
  rewrite coding_sequences_loop_spec.
  - cbn [mbind result_bind Py.bind app]. fold self_at.
    destruct (CombinedAnalysis.is_discriminant self_at); [| done].
    by rewrite (check_genotype_combinations_spec self_at rad coding_position).
  - simpl. by destruct Hwf.
  - intros g alleles Hg. destruct Hwf as [_ Hwf].
    destruct (Hwf g alleles Hg) as [Hkeys Hin]. split; [done |].
    intros a cs Ha. by destruct (Hin a cs Ha).
Qed.

(** C3, as the code has it.  A position contributes a set of matching
    combinations exactly when more than one non-gap symbol is present at it
    and, for at least one gene, the surviving alleles carry more than one
    nucleotide there; every other position is skipped. *)
Theorem C3_contributing_positions (self : CombinedAnalysis.t) (rad : Spec.survivors) pd
    coding_position alignment_position entry l :
  Spec.well_keyed rad coding_position →
  CombinedAnalysis.all_genotype_combinations self
  = CombinedAnalysis.build_all_genotype_combinations rad →
  Dict.get alignment_position pd = Some entry →
  Dict.get "Present Nucleotides"%string entry = Some (PList l) →
  ∃ self',
    CombinedAnalysis.position_step self rad pd coding_position alignment_position
    = Return self'
    ∧ ((1 < length (filter (fun n => n ≠ "."%string) l))%nat
       ∧ Spec.discriminant rad coding_position →
       ∃ matching,
         CombinedAnalysis.genotype_combinations_per_position self'
         = CombinedAnalysis.genotype_combinations_per_position self ++ [matching])
    ∧ (¬ ((1 < length (filter (fun n => n ≠ "."%string) l))%nat
          ∧ Spec.discriminant rad coding_position) →
       CombinedAnalysis.genotype_combinations_per_position self'
       = CombinedAnalysis.genotype_combinations_per_position self).
Proof.
  intros Hwf Hall Hentry Hpresent.
  eexists. split; [by eapply combined_position_step |].
  cbv zeta.
  pose proof (is_discriminant_spec
                (CombinedAnalysis.set_coding_sequences_per_position self
                   (Spec.column rad coding_position)) rad coding_position eq_refl) as Hd.
  destruct (Nat.ltb_spec 1 (length (filter (fun n => n ≠ "."%string) l))) as [Hlen | Hlen].
  - destruct (CombinedAnalysis.is_discriminant _) eqn:Hdisc.
    + split; [by eexists | intros Hno; destruct Hno; split; [done | by apply Hd]].
    + split; [| done]. intros [_ Hyes]. apply Hd in Hyes. congruence.
  - split; [| done]. intros [Hyes _]. lia.
Qed.

Lemma well_keyed_gap_survivors : Spec.well_keyed Examples.gap_survivors 0.
Proof.
  split; [by apply (bool_decide_unpack _) |].
  intros g alleles Hg. apply list_elem_of_singleton in Hg as [= -> ->].
  split; [by apply (bool_decide_unpack _) |].
  intros a cs Ha.
  repeat (apply elem_of_cons in Ha as [[= -> ->] | Ha]; [by vm_compute |]).
  by apply elem_of_nil in Ha.
Qed.

Lemma well_keyed_survivors : Spec.well_keyed Examples.survivors 0.
Proof.
  split; [by apply (bool_decide_unpack _) |].
  intros g alleles Hg. apply list_elem_of_singleton in Hg as [= -> ->].
  split; [by apply (bool_decide_unpack _) |].
  intros a cs Ha.
  repeat (apply elem_of_cons in Ha as [[= -> ->] | Ha]; [by vm_compute |]).
  by apply elem_of_nil in Ha.
Qed.

(** C3 as stated does not hold: two alleles that differ at a position, one
    by a base and one by a gap, make it discriminant, and yet the position is
    skipped because only one non-gap symbol is present. *)
Lemma C3_counterexample :
  ¬ (∀ (self self' : CombinedAnalysis.t) (rad : Spec.survivors) pd
       coding_position alignment_position,
       Spec.well_keyed rad coding_position →
       CombinedAnalysis.all_genotype_combinations self
       = CombinedAnalysis.build_all_genotype_combinations rad →
       CombinedAnalysis.position_step self rad pd coding_position alignment_position
       = Return self' →
       Spec.discriminant rad coding_position →
       ∃ matching,
         CombinedAnalysis.genotype_combinations_per_position self'
         = CombinedAnalysis.genotype_combinations_per_position self ++ [matching]).
Proof.
  intros H.
  destruct (H (Examples.matcher Examples.gap_survivors)
              (Examples.matcher Examples.gap_survivors)
              Examples.gap_survivors Examples.gap_annotated 0 1
              well_keyed_gap_survivors eq_refl eq_refl) as [matching Hm].
  - exists "G1"%string, [("G1*001"%string, ["A"]%string); ("G1*002"%string, ["."]%string)],
      "G1*001"%string, ["A"]%string, "G1*002"%string, ["."]%string, "A"%string, "."%string.
    repeat split; try done.
    + left.
    + left.
    + right. left.
  - simpl in Hm. discriminate.
Qed.

Lemma contributed_carries (rad : Spec.survivors) coding_position allele nucleotide :
  Spec.well_keyed rad coding_position →
  Spec.contributed rad coding_position allele = Some nucleotide
  ↔ Spec.carries rad coding_position allele nucleotide.
Proof.
  intros [Hgenes Hwf]. unfold Spec.contributed, Spec.carries. split.
  - destruct (Dict.get (ProgressiveAnalysis.kir_gene_of allele) rad)
      as [alleles|] eqn:Hgene; [| done].
    cbn [mbind option_bind].
    destruct (Dict.get allele alleles) as [coding_sequence|] eqn:Hallele; [| done].
    cbn [mbind option_bind]. intros Hn.
    exists (ProgressiveAnalysis.kir_gene_of allele), alleles, coding_sequence.
    split; [by apply dict_get_elem_of |]. split; [by apply dict_get_elem_of | done].
  - intros (kir_gene & alleles & coding_sequence & Hgene & Hallele & Hn).
    destruct (Hwf _ _ Hgene) as [Halleles Hown].
    destruct (Hown _ _ Hallele) as [-> _].
    rewrite (dict_get_NoDup _ alleles) by done. cbn [mbind option_bind].
    rewrite (dict_get_NoDup _ coding_sequence) by done. done.
Qed.

Lemma covered_explains (rad : Spec.survivors) coding_position
    (c : CombinedAnalysis.combination) nucleotide :
  Spec.well_keyed rad coding_position →
  nucleotide ∈ Spec.covered rad coding_position c
  ↔ Spec.explains rad coding_position c nucleotide.
Proof.
  intros Hwf. unfold Spec.covered, Spec.explains, CombinedAnalysis.alleles_of.
  rewrite list_elem_of_omap. split.
  - intros (allele & Hallele & Hn).
    apply list_elem_of_In, in_flat_map in Hallele as (pair & Hpair & Hallele).
    exists pair. split; [by apply list_elem_of_In |].
    apply (contributed_carries _ _ _ _ Hwf) in Hn.
    destruct Hallele as [<- | [<- | []]]; [by left | by right].
  - intros (pair & Hpair & [Hn | Hn]);
      apply (contributed_carries _ _ _ _ Hwf) in Hn.
    + exists pair.1. split; [| done].
      apply list_elem_of_In, in_flat_map. exists pair.
      split; [by apply list_elem_of_In | by left].
    + exists pair.2. split; [| done].
      apply list_elem_of_In, in_flat_map. exists pair.
      split; [by apply list_elem_of_In | by right; left].
Qed.

(** C5, as the code has it.  At a position at which the survivors of some
    gene differ the matcher leaves its universe as it was.  Where the entry
    lists more than one present non-gap symbol it records one list more, and
    a combination is in that list if and only if it belongs to the universe
    and every present non-gap symbol is carried at the position by an allele
    of one of its locus pairs; what else its alleles carry does not stand in
    the way.  Where the entry lists at most one such symbol it records
    nothing. *)
Theorem C5_matching_is_coverage (self : CombinedAnalysis.t) (rad : Spec.survivors) pd
    coding_position alignment_position entry l :
  Spec.well_keyed rad coding_position →
  CombinedAnalysis.all_genotype_combinations self
  = CombinedAnalysis.build_all_genotype_combinations rad →
  Dict.get alignment_position pd = Some entry →
  Dict.get "Present Nucleotides"%string entry = Some (PList l) →
  Spec.discriminant rad coding_position →
  ∃ self',
    CombinedAnalysis.position_step self rad pd coding_position alignment_position
    = Return self'
    ∧ CombinedAnalysis.all_genotype_combinations self'
      = CombinedAnalysis.all_genotype_combinations self
    ∧ ((1 < length (filter (fun n => n ≠ "."%string) l))%nat →
       ∃ matching,
         CombinedAnalysis.genotype_combinations_per_position self'
         = CombinedAnalysis.genotype_combinations_per_position self ++ [matching]
         ∧ ∀ c,
             c ∈ matching
             ↔ c ∈ CombinedAnalysis.all_genotype_combinations self
               ∧ ∀ n, n ∈ l → n ≠ "."%string →
                      Spec.explains rad coding_position c n)
    ∧ (¬ (1 < length (filter (fun n => n ≠ "."%string) l))%nat →
       CombinedAnalysis.genotype_combinations_per_position self'
       = CombinedAnalysis.genotype_combinations_per_position self).
Proof.
  intros Hwf Hall Hentry Hpresent Hdisc.
  eexists. split; [by eapply combined_position_step |]. cbv zeta.
  apply (is_discriminant_spec
           (CombinedAnalysis.set_coding_sequences_per_position self
              (Spec.column rad coding_position)) rad coding_position eq_refl) in Hdisc.
  rewrite Hdisc.
  destruct (Nat.ltb_spec 1 (length (filter (fun n => n ≠ "."%string) l)))
    as [Hmore | Hfew].
  - split; [done |]. split; [| intros Hno; by destruct Hno].
    intros _. eexists. split; [done |].
    intros c. rewrite list_elem_of_filter, issubset_spec. split.
    + intros [Hcovered Hc]. split; [done |]. intros n Hn Hgap.
      apply (covered_explains _ _ _ _ Hwf), Hcovered. by apply list_elem_of_filter.
    + intros [Hc Hexplained]. split; [| done]. intros n Hn.
      apply list_elem_of_filter in Hn as [Hgap Hn].
      apply (covered_explains _ _ _ _ Hwf). by apply Hexplained.
  - split; [done |]. split; [intros Hyes; lia | done].
Qed.

(** C5 as stated does not hold at every discriminant position: where only
    one non-gap symbol is present, a combination that covers it is not
    recorded, for nothing is. *)
Lemma C5_counterexample :
  ¬ (∀ (self self' : CombinedAnalysis.t) (rad : Spec.survivors) pd
       coding_position alignment_position entry l (c : CombinedAnalysis.combination),
       Spec.well_keyed rad coding_position →
       CombinedAnalysis.all_genotype_combinations self
       = CombinedAnalysis.build_all_genotype_combinations rad →
       Dict.get alignment_position pd = Some entry →
       Dict.get "Present Nucleotides"%string entry = Some (PList l) →
       CombinedAnalysis.position_step self rad pd coding_position alignment_position
       = Return self' →
       Spec.discriminant rad coding_position →
       c ∈ CombinedAnalysis.all_genotype_combinations self →
       (∀ n, n ∈ l → n ≠ "."%string → Spec.explains rad coding_position c n) →
       ∃ matching,
         CombinedAnalysis.genotype_combinations_per_position self'
         = CombinedAnalysis.genotype_combinations_per_position self ++ [matching]
         ∧ c ∈ matching).
Proof.
  intros H.
  destruct (H (Examples.matcher Examples.gap_survivors)
              (Examples.matcher Examples.gap_survivors)
              Examples.gap_survivors Examples.gap_annotated 0 1
              (Spec.derived_entry Examples.gap_entry
               ++ [("Present Nucleotides"%string, PList ["A"; "."]%string)])
              ["A"; "."]%string [("G1*001", "G1*001")]%string
              well_keyed_gap_survivors eq_refl eq_refl eq_refl eq_refl)
    as (matching & Hlists & _).
  - exists "G1"%string, [("G1*001"%string, ["A"]%string); ("G1*002"%string, ["."]%string)],
      "G1*001"%string, ["A"]%string, "G1*002"%string, ["."]%string, "A"%string, "."%string.
    repeat split; try done.
    + left.
    + left.
    + right. left.
  - by apply (bool_decide_unpack _).
  - intros n Hn Hgap.
    apply elem_of_cons in Hn as [-> | Hn].
    + exists ("G1*001", "G1*001")%string. split; [left |]. left.
      exists "G1"%string,
             [("G1*001"%string, ["A"]%string); ("G1*002"%string, ["."]%string)],
             ["A"]%string.
      split; [left | split; [left | done]].
    + apply list_elem_of_singleton in Hn. done.
  - simpl in Hlists. discriminate.
Qed.

(** ** The pipeline hands the Progressive Filter a derived table *)

Lemma nucleotide_loop_nonzero items nucleotide_count entry :
  nucleotide_count ≠ 0 →
  nucleotide_loop items nucleotide_count entry
  = Return
      (foldl (fun e (nc : string * Z) =>
                Dict.setitem nc.1
                  (PFloat
                     (float_value
                        (round2
                           (float_mul
                              (float_div (float_of_int nc.2) (float_of_int nucleotide_count))
                              (float_of_int 100))))) e)
             entry items).
Proof.
  intros Hn. revert entry.
  induction items as [|[n c] items IH]; intros entry; [done |].
  cbn [nucleotide_loop]. unfold percentage.
  destruct (Z.eqb_spec nucleotide_count 0); [done |].
  cbn [mbind result_bind Py.bind]. by rewrite IH.
Qed.



(** ** The theorems at work on the worked data *)

Lemma C1_witness :
  create_proportion_dictionary (AlignmentInformation.init Examples.panel)
  = Raise ZeroDivisionError.
Proof.
  apply (C1_zero_evidence_raises (AlignmentInformation.init Examples.panel) 1 tally_zero).
  - vm_compute. left.
  - reflexivity.
Defined.

Lemma C6_witness :
  ∃ read' aligned rightmost,
    Read.get_aligned_sequence
      (Read.parse_cigar (Read.init "r1" 0 11 255 "3M2D1I2M" "ACGTTA"))
    = Return (read', Read.Aligned aligned rightmost)
    ∧ aligned = ["A"; "C"; "G"; "."; "."; "T"; "A"]%string
    ∧ Z.of_nat (length aligned) = 5 + 2
    ∧ rightmost = 10 + Z.of_nat (length aligned)
    ∧ Read.aligned_sequence read' = aligned
    ∧ Read.rightmost_position read' = Some rightmost.
Proof.
  apply (C6_reconstructed_sequence "r1" 0 11 255
           [(["3"]%char, "M"%char); (["2"]%char, "D"%char);
            (["1"]%char, "I"%char); (["2"]%char, "M"%char)] "ACGTTA").
  - repeat (apply Forall_cons; split;
            [split; [split; [done | by repeat constructor] | reflexivity] |]).
    by apply Forall_nil.
  - vm_compute. discriminate.
Defined.

Lemma C7_witness :
  raises (Read.get_aligned_sequence
            (Read.parse_cigar (Read.init "r1" 0 1 255 "2S3M" "ACGTA"))).
Proof.
  exact (proj1 (proj1 (C7_other_operators "r1" 0 1 255 "ACGTA")
                  [] "S"%char ["3"; "M"]%char eq_refl eq_refl)).
Defined.

Lemma balanced_reaches_position (row : Z * list (string * Q))
    allele_id (allele_sequence : list string) :
  row ∈ [(1, Examples.balanced_entry)] →
  (allele_id, allele_sequence) ∈ Reference.allele_lines (reference Examples.balanced) →
  0 ≤ row.1 < Z.of_nat (length allele_sequence).
Proof.
  intros Hrow Hline. apply list_elem_of_singleton in Hrow as ->.
  simpl in Hline. split_elem Hline; injection Hline as -> ->; simpl; lia.
Qed.

Lemma C2_witness :
  ∃ alignment',
    ProgressiveAnalysis.position_step 50 Examples.balanced 1 = Return alignment'
    ∧ reference_alleles alignment' = [].
Proof.
  apply (C2_empty_present_set_removes_every_candidate 50 Examples.balanced 1
           Examples.balanced_entry).
  - reflexivity.
  - reflexivity.
  - by apply (bool_decide_unpack _).
  - by apply (bool_decide_unpack _).
  - by apply (bool_decide_unpack _).
  - intros a sq Ha.
    apply (balanced_reaches_position (1, Examples.balanced_entry) a sq); [left | done].
Defined.

Lemma trio_reaches_position (row : Z * list (string * Q))
    allele_id (allele_sequence : list string) :
  row ∈ Examples.trio_table →
  (allele_id, allele_sequence) ∈ Reference.allele_lines (reference Examples.trio) →
  0 ≤ row.1 < Z.of_nat (length allele_sequence).
Proof.
  intros Hrow Hline. cbn in Hline.
  repeat (apply elem_of_cons in Hrow as [-> | Hrow];
          [repeat (apply elem_of_cons in Hline as [[= -> ->] | Hline];
                   [cbn; lia |]);
           by apply elem_of_nil in Hline |]).
  by apply elem_of_nil in Hrow.
Qed.

Lemma C8_witness :
  ∃ alignment',
    ProgressiveAnalysis.position_loop 5 [1; 0] Examples.trio = Return alignment'
    ∧ reference_alleles alignment' = ["G1*001"]%string
    ∧ reference_alleles alignment'
      = Spec.intersection 5 (Reference.allele_lines Examples.trio_panel)
          Examples.trio_table ["G1*001"; "G1*002"; "G1*003"]%string
    ∧ reference_alleles alignment' `sublist_of` ["G1*001"; "G1*002"; "G1*003"]%string
    ∧ (∃ alignment1,
         ProgressiveAnalysis.position_loop 5 [1] Examples.trio = Return alignment1
         ∧ reference_alleles alignment1 = ["G1*001"; "G1*003"]%string
         ∧ reference_alleles alignment' ⊆ reference_alleles alignment1)
    ∧ (∃ alignment2,
         ProgressiveAnalysis.position_loop 5 [0; 1] Examples.trio = Return alignment2
         ∧ reference_alleles alignment2 = reference_alleles alignment')
    ∧ (∀ row,
         row ∈ Examples.trio_table →
         ProgressiveAnalysis.allele_loop (Reference.allele_lines (reference alignment'))
           row.1 (Spec.present 5 row.2) (reference_alleles alignment')
         = Return (reference_alleles alignment'))
    ∧ (∀ row,
         row ∈ Examples.trio_table →
         ProgressiveAnalysis.position_step 5 alignment' row.1 = Raise TypeError)
    ∧ ProgressiveAnalysis.init alignment' 5 = Raise TypeError.
Proof.
  destruct (C8_progressive_filter_is_an_intersection 5 Examples.trio_table
              (reverse Examples.trio_table) Examples.trio)
    as (alignment' & Hrun & Hfinal & Hsub & Hcumulative & Hagain & Hraise & Hpass).
  - reflexivity.
  - by apply (bool_decide_unpack _).
  - apply perm_swap.
  - by apply (bool_decide_unpack _).
  - by apply (bool_decide_unpack _).
  - by apply (bool_decide_unpack _).
  - exact trio_reaches_position.
  - exists alignment'. split; [exact Hrun |].
    split; [rewrite Hfinal; by vm_compute |].
    split; [exact Hfinal |]. split; [exact Hsub |]. split.
    + destruct (Hcumulative [(1, [("A"%string, 0%Q); ("T"%string, 0%Q);
                                  ("G"%string, 0%Q); ("C"%string, 100%Q);
                                  ("."%string, 0%Q)])]
                  [(0, [("A"%string, 100%Q); ("T"%string, 0%Q);
                        ("G"%string, 0%Q); ("C"%string, 0%Q);
                        ("."%string, 0%Q)])] eq_refl)
        as (alignment1 & Hrun1 & Hwithin).
      exists alignment1. split; [exact Hrun1 |]. split; [| exact Hwithin].
      vm_compute in Hrun1. by injection Hrun1 as <-.
    + split; [| split; [exact Hagain | split; [exact Hraise | by apply Hpass]]].
      eexists. split; [vm_compute; reflexivity |].
      rewrite Hfinal. by vm_compute.
Defined.

Lemma C9_witness :
  ∃ alignment',
    ProgressiveAnalysis.position_loop 5 [1] Examples.balanced = Return alignment'
    ∧ proportion_dictionary alignment' = Examples.balanced_annotated
    ∧ (∀ row,
         row ∈ [(1, Examples.balanced_entry)] →
         ∃ entry entry',
           Dict.get row.1 (proportion_dictionary Examples.balanced) = Some entry
           ∧ CombinedAnalysis.present_non_gap entry = Raise KeyError
           ∧ Dict.get row.1 (proportion_dictionary alignment') = Some entry'
           ∧ CombinedAnalysis.present_non_gap entry'
             = Return (filter (fun n => n ≠ "."%string) (Spec.present 5 row.2)))
    ∧ (∀ progressive progressive' alignment'' combined,
         CombinedAnalysis.init progressive alignment'
         = Return (progressive', alignment'', combined) →
         alignment'' = alignment'
         ∧ proportion_dictionary alignment'' = Examples.balanced_annotated)
    ∧ ∃ progressive' combined,
        CombinedAnalysis.init
          {| ProgressiveAnalysis.result_alleles_dictionary :=
               [("G1", [("G1*001", []); ("G1*002", [])])]%string;
             ProgressiveAnalysis.exon_identical_alleles := [("G1"%string, [])] |}
          alignment'
        = Return (progressive', alignment', combined)
        ∧ CombinedAnalysis.genotype_combinations_per_position combined
          = [[[("G1*001", "G1*002")]]]%string.
Proof.
  destruct (C9_table_gains_present_nucleotides 5 [(1, Examples.balanced_entry)]
              Examples.balanced)
    as (alignment' & Hrun & Hpd & Hread & Hframe).
  - reflexivity.
  - by apply (bool_decide_unpack _).
  - intros row Hrow. by apply list_elem_of_singleton in Hrow as ->.
  - by apply (bool_decide_unpack _).
  - by apply (bool_decide_unpack _).
  - exact balanced_reaches_position.
  - exists alignment'. split; [exact Hrun |]. split; [exact Hpd |].
    split; [exact Hread |]. split; [exact Hframe |].
    vm_compute in Hrun. injection Hrun as <-.
    eexists _, _. split; [vm_compute; reflexivity | reflexivity].
Defined.

Lemma C3_witness :
  ∃ self',
    CombinedAnalysis.position_step (Examples.matcher Examples.survivors)
      Examples.survivors Examples.balanced_annotated 0 1 = Return self'
    ∧ ((1 < length (filter (fun n => n ≠ "."%string) ["G"; "C"]%string))%nat
       ∧ Spec.discriminant Examples.survivors 0 →
       ∃ matching,
         CombinedAnalysis.genotype_combinations_per_position self'
         = CombinedAnalysis.genotype_combinations_per_position
             (Examples.matcher Examples.survivors) ++ [matching])
    ∧ (¬ ((1 < length (filter (fun n => n ≠ "."%string) ["G"; "C"]%string))%nat
          ∧ Spec.discriminant Examples.survivors 0) →
       CombinedAnalysis.genotype_combinations_per_position self'
       = CombinedAnalysis.genotype_combinations_per_position
           (Examples.matcher Examples.survivors)).
Proof.
  apply (C3_contributing_positions (Examples.matcher Examples.survivors)
           Examples.survivors Examples.balanced_annotated 0 1
           (Spec.derived_entry Examples.balanced_entry
            ++ [("Present Nucleotides"%string, PList ["G"; "C"]%string)])
           ["G"; "C"]%string).
  - exact well_keyed_survivors.
  - reflexivity.
  - reflexivity.
  - reflexivity.
Defined.

Lemma well_keyed_two_gene_survivors : Spec.well_keyed Examples.two_gene_survivors 0.
Proof.
  split; [by apply (bool_decide_unpack _) |].
  intros g alleles Hg.
  repeat (apply elem_of_cons in Hg as [[= -> ->] | Hg];
          [split; [by apply (bool_decide_unpack _) |];
           intros a cs Ha;
           repeat (apply elem_of_cons in Ha as [[= -> ->] | Ha]; [by vm_compute |]);
           by apply elem_of_nil in Ha |]).
  by apply elem_of_nil in Hg.
Qed.

Lemma discriminant_two_gene_survivors : Spec.discriminant Examples.two_gene_survivors 0.
Proof.
  exists "G1"%string,
         [("G1*001"%string, ["A"]%string); ("G1*002"%string, ["C"]%string)],
         "G1*001"%string, ["A"]%string, "G1*002"%string, ["C"]%string,
         "A"%string, "C"%string.
  split; [by apply (bool_decide_unpack _) |].
  split; [by apply (bool_decide_unpack _) |].
  split; [by apply (bool_decide_unpack _) |]. done.
Qed.

Lemma C5_witness :
  ∃ self',
    CombinedAnalysis.position_step (Examples.matcher Examples.two_gene_survivors)
      Examples.two_gene_survivors Examples.two_gene_annotated 0 7 = Return self'
    ∧ CombinedAnalysis.all_genotype_combinations self'
      = CombinedAnalysis.build_all_genotype_combinations Examples.two_gene_survivors
    ∧ CombinedAnalysis.genotype_combinations_per_position self'
      = [[[("G1*001", "G1*002"); ("G2*001", "G2*001")]]]%string
    ∧ Spec.explains Examples.two_gene_survivors 0
        [("G1*001", "G1*002"); ("G2*001", "G2*001")]%string "G"%string
    ∧ ((1 < length (filter (fun n => n ≠ "."%string) ["A"; "C"; "."]%string))%nat →
       ∃ matching,
         CombinedAnalysis.genotype_combinations_per_position self' = [] ++ [matching]
         ∧ ∀ c,
             c ∈ matching
             ↔ c ∈ CombinedAnalysis.build_all_genotype_combinations
                     Examples.two_gene_survivors
               ∧ ∀ n, n ∈ ["A"; "C"; "."]%string → n ≠ "."%string →
                      Spec.explains Examples.two_gene_survivors 0 c n)
    ∧ (¬ (1 < length (filter (fun n => n ≠ "."%string) ["A"; "C"; "."]%string))%nat →
       CombinedAnalysis.genotype_combinations_per_position self' = []).
Proof.
  destruct (C5_matching_is_coverage (Examples.matcher Examples.two_gene_survivors)
              Examples.two_gene_survivors Examples.two_gene_annotated 0 7
              (Spec.derived_entry Examples.two_gene_entry
               ++ [("Present Nucleotides"%string, PList ["A"; "C"; "."]%string)])
              ["A"; "C"; "."]%string
              well_keyed_two_gene_survivors eq_refl eq_refl eq_refl
              discriminant_two_gene_survivors)
    as (self' & Hrun & Hall & Hmore & Hfew).
  exists self'.
  split; [exact Hrun |]. split; [exact Hall |]. split; [| split].
  - vm_compute in Hrun. by injection Hrun as <-.
  - exists ("G2*001", "G2*001")%string. split; [by apply (bool_decide_unpack _) |].
    left. exists "G2"%string, [("G2*001"%string, ["G"]%string)], ["G"]%string.
    split; [by apply (bool_decide_unpack _) |].
    split; [by apply (bool_decide_unpack _) |]. done.
  - split; [exact Hmore | exact Hfew].
Defined.

Lemma mates_reconstructed :
  Spec.reconstructed Examples.mate1 ∧ Spec.reconstructed Examples.mate2
  ∧ Spec.reconstructed Examples.mate3.
Proof. repeat split; solve_alphabet. Qed.

Lemma C4_witness :
  ∃ self1 self2,
    update_count_dictionary Examples.accumulator Examples.mate1 = Return self1
    ∧ update_count_dictionary self1 Examples.mate2 = Return self2
    ∧ ∀ p entry,
        Spec.in_range Examples.mate1 p → Spec.in_range Examples.mate2 p →
        Dict.get p (count_dictionary Examples.accumulator) = Some entry →
        ∃ nucleotide,
          Spec.symbol_at (Read.aligned_sequence Examples.mate1)
                         (Read.leftmost_position Examples.mate1) p = Some nucleotide
          ∧ Dict.get p (count_dictionary self1)
            = Some (Spec.record_symbol nucleotide entry)
          ∧ Dict.get p (count_dictionary self2)
            = Some (Spec.record_symbol nucleotide entry)
          ∧ tally_total (Spec.record_symbol nucleotide entry)
            = tally_total entry + (if String.eqb nucleotide "N" then 0 else 1).
Proof.
  apply (C4_overlap_tallied_from_first_mate Examples.accumulator
           Examples.mate1 Examples.mate2).
  - reflexivity.
  - reflexivity.
  - exact (proj1 mates_reconstructed).
  - exact (proj1 (proj2 mates_reconstructed)).
Defined.

Lemma C10_witness :
  ∃ self3,
    Spec.record_all [Examples.mate1; Examples.mate2; Examples.mate3]
      Examples.accumulator = Return self3
    ∧ ∀ p entry n2 n3,
        ¬ Spec.in_range Examples.mate1 p →
        Spec.in_range Examples.mate2 p → Spec.in_range Examples.mate3 p →
        Dict.get p (count_dictionary Examples.accumulator) = Some entry →
        Spec.symbol_at (Read.aligned_sequence Examples.mate2)
                       (Read.leftmost_position Examples.mate2) p = Some n2 →
        Spec.symbol_at (Read.aligned_sequence Examples.mate3)
                       (Read.leftmost_position Examples.mate3) p = Some n3 →
        n2 ≠ "N"%string → n3 ≠ "N"%string →
        ∃ entry3,
          Dict.get p (count_dictionary self3) = Some entry3
          ∧ tally_total entry3 = tally_total entry + 2.
Proof.
  apply (proj2 C10_memo_first_writer_wins Examples.accumulator
           Examples.mate1 Examples.mate2 Examples.mate3).
  - reflexivity.
  - reflexivity.
  - reflexivity.
  - exact (proj1 mates_reconstructed).
  - exact (proj1 (proj2 mates_reconstructed)).
  - exact (proj2 (proj2 mates_reconstructed)).
Defined.

(** * Further properties of the code *)

(** ** Read.py and the driver's loop *)

Lemma existsb_bool_decide {A : Type} (f : A → bool) (l : list A) (P : Prop)
    `{!Decision P} :
  ((∃ x, x ∈ l ∧ f x = true) ↔ P) → existsb f l = bool_decide P.
Proof.
  intros H. apply Bool.eq_iff_eq_true.
  rewrite existsb_exists, bool_decide_eq_true, <- H.
  split; intros (x & Hx & Hf); exists x; (split; [by apply list_elem_of_In | done]).
Qed.

Lemma is_aligned_to_overlap (read : Read.t) (region_range : Z * Z) rightmost :
  Read.rightmost_position read = Some rightmost →
  Read.is_aligned_to read region_range
  = Return (bool_decide (Z.max (Read.leftmost_position read) region_range.1
                         < Z.min rightmost region_range.2)).
Proof.
  intros Hright. unfold Read.is_aligned_to. rewrite Hright.
  f_equal. apply existsb_bool_decide. unfold range. split.
  - intros (i & Hi & Hin). apply bool_decide_eq_true in Hin.
    apply elem_of_seqZ in Hi, Hin. lia.
  - intros H. exists (Z.max (Read.leftmost_position read) region_range.1). split.
    + apply elem_of_seqZ. lia.
    + apply bool_decide_eq_true, elem_of_seqZ. lia.
Qed.

(** [is_aligned_to] answers whether the range of the read and the region
    share a position; on a read that was never reconstructed it raises. *)
Theorem X1_is_aligned_to_overlap (read : Read.t) (region_range : Z * Z) :
  Read.is_aligned_to read region_range
  = match Read.rightmost_position read with
    | None => Raise TypeError
    | Some rightmost =>
        Return (bool_decide (Z.max (Read.leftmost_position read) region_range.1
                             < Z.min rightmost region_range.2))
    end.
Proof.
  destruct (Read.rightmost_position read) as [rightmost |] eqn:Hright.
  - by apply is_aligned_to_overlap.
  - unfold Read.is_aligned_to. by rewrite Hright.
Qed.

Lemma exon_loop_spec exons (read : Read.t) alignment rightmost :
  Read.rightmost_position read = Some rightmost →
  KIRtyper.exon_loop exons read alignment
  = if existsb (fun region : Z * Z =>
                  bool_decide (Z.max (Read.leftmost_position read) region.1
                               < Z.min rightmost region.2)) exons
    then update_count_dictionary alignment read
    else Return alignment.
Proof.
  intros Hright. induction exons as [|region exons IH]; [done |].
  cbn [KIRtyper.exon_loop existsb].
  rewrite (is_aligned_to_overlap read region rightmost) by done.
  cbn [mbind result_bind Py.bind].
  by destruct (bool_decide _).
Qed.




(** A record whose operator description holds no M, D or I at all (an
    empty one, or the star of the SAM format) is reconstructed as an empty
    alignment and never reaches the evidence table. *)
Theorem X3_record_without_operator_is_not_tallied exons alignment
    qname flag_field pos_field mapq_field cigar seq :
  forallb (fun c => negb (Read.is_operator c)) (list_ascii_of_string cigar) = true →
  KIRtyper.process_read exons alignment
    (Read.init qname flag_field pos_field mapq_field cigar seq)
  = Return alignment.
Proof.
  intros Hcigar. unfold KIRtyper.process_read.
  destruct (negb _ && _); [| done].
  unfold Read.get_aligned_sequence, Read.parse_cigar, Read.is_fresh_empty_list.
  cbn [Read.init Read.parsed_cigar Read.cigar_lst Read.sequence Read.aligned_sequence
       Read.leftmost_position Read.id Read.flag Read.quality Read.rightmost_position].
  rewrite parse_cigar_loop_no_operator by done.
  cbn [Read.cigar_loop mbind result_bind Py.bind length].
  erewrite exon_loop_spec by reflexivity.
  cbn [Read.leftmost_position].
  destruct (existsb _ exons) eqn:Hex; [| done].
  apply existsb_exists in Hex as (region & _ & Hregion).
  apply bool_decide_eq_true in Hregion. lia.
Qed.

Lemma X3_witness :
  KIRtyper.process_read [(0, 4)] Examples.accumulator (Read.init "r1" 0 1 255 "*" "ACGT")
  = Return Examples.accumulator.
Proof.
  exact (X3_record_without_operator_is_not_tallied [(0, 4)] Examples.accumulator
           "r1" 0 1 255 "*" "ACGT" eq_refl).
Defined.

Lemma getitem_beyond {A : Type} (l : list A) (i : Z) :
  Z.of_nat (length l) ≤ i → Py.getitem l i = Raise IndexError.
Proof.
  intros Hi. unfold Py.getitem.
  destruct (Z.ltb_spec i 0); [lia |].
  destruct (Z.ltb_spec i 0); [lia |].
  by destruct (Z.leb_spec (Z.of_nat (length l)) i); [| lia].
Qed.

Lemma match_loop_overrun sequence_lst (n : nat) (last : nat) aligned :
  (0 < n)%nat → (length sequence_lst < last + n)%nat →
  Read.match_loop sequence_lst (seqZ (Z.of_nat last) (Z.of_nat n)) aligned
  = Raise IndexError.
Proof.
  revert last aligned. induction n as [|n IH]; intros last aligned Hn Hlen; [lia |].
  rewrite seqZ_cons by lia. cbn [Read.match_loop].
  destruct (decide (length sequence_lst ≤ last)%nat) as [Hout | Hin].
  - rewrite getitem_beyond by lia. done.
  - destruct (lookup_lt_is_Some_2 sequence_lst last) as [x Hx]; [lia |].
    rewrite (getitem_lookup _ _ _ Hx). cbn [mbind result_bind Py.bind].
    replace (Z.succ (Z.of_nat last)) with (Z.of_nat (S last)) by lia.
    replace (Z.pred (Z.of_nat (S n))) with (Z.of_nat n) by lia.
    apply IH; lia.
Qed.

Lemma cigar_loop_overrun sequence_lst ops aligned last matched :
  Spec.well_formed ops →
  0 ≤ matched ≤ last → matched ≤ Z.of_nat (length sequence_lst) →
  Z.of_nat (length sequence_lst) < matched + Spec.total "M" ops →
  Read.cigar_loop sequence_lst
    (map (fun op : list ascii * ascii => (join_chars op.1, op.2)) ops) aligned last
  = Raise IndexError.
Proof.
  intros H. revert aligned last matched.
  induction H as [|[digits o] ops [Hd Ho] Hops IH];
    intros aligned last matched Hm Hmlen Hover.
  - simpl in Hover. lia.
  - simpl in Hd, Ho. cbn [map Read.cigar_loop fst snd].
    rewrite (int_digit_run _ Hd). cbn [mbind result_bind Py.bind].
    pose proof (decimal_nonneg _ Hd) as Hn.
    destruct (operator_cases o Ho) as [-> | [-> | ->]]; cbn in Hover |- *.
    + unfold range.
      replace (Spec.decimal digits + last - last) with
        (Z.of_nat (Z.to_nat (Spec.decimal digits))) by lia.
      rewrite <- (Z2Nat.id last) at 1 by lia.
      destruct (decide (0 < Spec.decimal digits
                        ∧ Z.of_nat (length sequence_lst) < last + Spec.decimal digits))
        as [[Hpos Hout] | Hfine].
      * rewrite match_loop_overrun by lia. done.
      * destruct (decide (Spec.decimal digits = 0)) as [Hz | Hnz].
        -- rewrite Hz. cbn [Z.to_nat Z.of_nat seqZ].
           rewrite seqZ_nil by lia. cbn [Read.match_loop mbind result_bind Py.bind].
           apply (IH _ _ matched); lia.
        -- rewrite match_loop_take by lia. cbn [mbind result_bind Py.bind].
           apply (IH _ _ (matched + Spec.decimal digits)); lia.
    + apply (IH _ _ matched); lia.
    + apply (IH _ _ matched); lia.
Qed.

(** When the Match operators of a well-formed description ask, together,
    for more bases than the raw sequence holds, the reconstruction raises
    [IndexError]: nothing checks the sequence against the description. *)
Theorem X4_matches_beyond_the_sequence_raise qname flag_field pos_field mapq_field
    (ops : Spec.description) (seq : string) :
  Spec.well_formed ops →
  Z.of_nat (String.length seq) < Spec.total "M" ops →
  Read.get_aligned_sequence
    (Read.parse_cigar
       (Read.init qname flag_field pos_field mapq_field
          (string_of_list_ascii (Spec.render ops)) seq))
  = Raise IndexError.
Proof.
  intros Hwf Hover.
  unfold Read.get_aligned_sequence, Read.parse_cigar, Read.is_fresh_empty_list.
  cbn [Read.init Read.parsed_cigar Read.cigar_lst Read.sequence
       Read.aligned_sequence Read.leftmost_position].
  rewrite list_ascii_of_string_of_list_ascii.
  pose proof (parse_cigar_loop_render ops [] [] Hwf) as Hparse.
  rewrite app_nil_r in Hparse. rewrite Hparse. cbn [app].
  rewrite (cigar_loop_overrun _ ops [] 0 0); try done; try lia.
  rewrite length_list_of_str. lia.
Qed.

Lemma X4_witness :
  Read.get_aligned_sequence (Read.parse_cigar (Read.init "r1" 0 1 255 "1D4M" "ACG"))
  = Raise IndexError.
Proof.
  apply (X4_matches_beyond_the_sequence_raise "r1" 0 1 255
           [(["1"]%char, "D"%char); (["4"]%char, "M"%char)] "ACG").
  - repeat (apply Forall_cons; split;
            [split; [split; [done | by repeat constructor] | reflexivity] |]).
    by apply Forall_nil.
  - vm_compute. reflexivity.
Defined.

(** [get_aligned_sequence] appends to [self.aligned_sequence]: called a
    second time on the same record it emits the alignment once more behind
    the first, and moves the rightmost position further out. *)
Theorem X5_second_reconstruction_appends qname flag_field pos_field mapq_field
    (ops : Spec.description) (seq : string) :
  Spec.well_formed ops →
  Spec.total "M" ops + Spec.total "I" ops ≤ Z.of_nat (String.length seq) →
  let aligned := Spec.expand ops (list_of_str seq) in
  ∃ read1 read2,
    Read.get_aligned_sequence
      (Read.parse_cigar
         (Read.init qname flag_field pos_field mapq_field
            (string_of_list_ascii (Spec.render ops)) seq))
    = Return (read1, Read.Aligned aligned (pos_field - 1 + Z.of_nat (length aligned)))
    ∧ Read.get_aligned_sequence read1
      = Return (read2,
                Read.Aligned (aligned ++ aligned)
                  (pos_field - 1 + Z.of_nat (length (aligned ++ aligned)))).
Proof.
  intros Hwf Hlen aligned. eexists _, _.
  split; [by apply get_aligned_sequence_expand |].
  unfold Read.get_aligned_sequence, Read.is_fresh_empty_list.
  cbn [Read.parsed_cigar Read.sequence Read.aligned_sequence Read.leftmost_position].
  rewrite <- length_list_of_str in Hlen.
  rewrite cigar_loop_expand by (done || lia).
  cbn [mbind result_bind Py.bind drop Z.to_nat]. done.
Qed.

Lemma X5_witness :
  ∃ read1 read2,
    Read.get_aligned_sequence (Read.parse_cigar (Read.init "r1" 0 11 255 "2M1D" "AC"))
    = Return (read1, Read.Aligned ["A"; "C"; "."]%string 13)
    ∧ Read.get_aligned_sequence read1
      = Return (read2, Read.Aligned ["A"; "C"; "."; "A"; "C"; "."]%string 16).
Proof.
  apply (X5_second_reconstruction_appends "r1" 0 11 255
           [(["2"]%char, "M"%char); (["1"]%char, "D"%char)] "AC").
  - repeat (apply Forall_cons; split;
            [split; [split; [done | by repeat constructor] | reflexivity] |]).
    by apply Forall_nil.
  - vm_compute. discriminate.
Defined.

(** ** AlignmentInformation.py *)

Lemma tally_incr_total nucleotide entry entry' :
  tally_incr nucleotide entry = Return entry' →
  tally_total entry' = tally_total entry + 1.
Proof.
  unfold tally_incr. rewrite !tally_total_eq.
  repeat (destruct (String.eqb nucleotide _); [intros [= <-]; simpl; lia |]).
  done.
Qed.

Lemma count_loop_inv aligned position excluded cd cd' :
  count_loop aligned position excluded cd = Return cd' →
  Dict.keys cd' = Dict.keys cd
  ∧ ∀ p, (p < position → Dict.get p cd' = Dict.get p cd)
         ∧ ∀ entry, Dict.get p cd = Some entry →
                    ∃ entry', Dict.get p cd' = Some entry'
                              ∧ (entry' = entry
                                 ∨ tally_total entry' = tally_total entry + 1).
Proof.
  revert position cd.
  induction aligned as [|nucleotide rest IH]; intros position cd Hrun.
  - injection Hrun as <-. split; [done |]. intros p. split; [done |].
    intros entry Hentry. exists entry. auto.
  - cbn [count_loop] in Hrun.
    assert (Hskip : ∀ cd0,
              count_loop rest (position + 1) excluded cd0 = Return cd' →
              cd0 = cd →
              Dict.keys cd' = Dict.keys cd
              ∧ ∀ p, (p < position → Dict.get p cd' = Dict.get p cd)
                     ∧ ∀ entry, Dict.get p cd = Some entry →
                                ∃ entry', Dict.get p cd' = Some entry'
                                          ∧ (entry' = entry
                                             ∨ tally_total entry'
                                               = tally_total entry + 1)).
    { intros cd0 Hrest ->. destruct (IH _ _ Hrest) as [Hkeys Hget].
      split; [done |]. intros p. destruct (Hget p) as [Hbefore Hentry].
      split; [intros Hp; apply Hbefore; lia | done]. }
    destruct (String.eqb nucleotide "N"); [by apply (Hskip cd) |].
    destruct (Dict.contains position cd && negb (bool_decide (position ∈ excluded)));
      [| by apply (Hskip cd)].
    unfold Dict.getitem in Hrun.
    destruct (Dict.get position cd) as [entry0 |] eqn:Hentry0; [| done].
    cbn [mbind result_bind Py.bind] in Hrun.
    destruct (tally_incr nucleotide entry0) as [entry1 |] eqn:Hincr; [| done].
    cbn [mbind result_bind Py.bind] in Hrun.
    destruct (IH _ _ Hrun) as [Hkeys Hget]. split.
    + rewrite Hkeys. apply dict_keys_setitem_present. by eexists.
    + intros p. destruct (Hget p) as [Hbefore Hentry]. split.
      * intros Hp. rewrite Hbefore by lia. apply dict_get_setitem_ne. lia.
      * intros entry Hp. destruct (decide (p = position)) as [-> | Hne].
        -- exists entry1. split.
           ++ rewrite Hbefore by lia. apply dict_get_setitem_eq.
           ++ right. rewrite Hentry0 in Hp. injection Hp as <-.
              by apply (tally_incr_total nucleotide).
        -- apply Hentry. by rewrite dict_get_setitem_ne.
Qed.

(** A call of [update_count_dictionary] that returns leaves the positions
    of the evidence table as they are (no position is added or dropped) and
    adds at most one to the total of each position. *)
Theorem X6_update_adds_at_most_one_per_position (self self' : AlignmentInformation.t)
    (read : Read.t) :
  update_count_dictionary self read = Return self' →
  Dict.keys (count_dictionary self') = Dict.keys (count_dictionary self)
  ∧ ∀ p entry,
      Dict.get p (count_dictionary self) = Some entry →
      ∃ entry',
        Dict.get p (count_dictionary self') = Some entry'
        ∧ (entry' = entry ∨ tally_total entry' = tally_total entry + 1).
Proof.
  unfold update_count_dictionary. intros Hrun.
  apply bind_return in Hrun as ([self1 excluded] & Hmemo & Hrun).
  apply bind_return in Hrun as (cd' & Hloop & Hrun).
  injection Hrun as <-. cbn [set_count_dictionary count_dictionary].
  assert (Hcd : count_dictionary self1 = count_dictionary self).
  { destruct (processed_reads_dictionary self !! Read.id read) as [[first last] |].
    - apply bind_return in Hmemo as (r1 & _ & Hmemo).
      apply bind_return in Hmemo as (r2 & _ & Hmemo). by injection Hmemo as <- _.
    - by injection Hmemo as <- _. }
  rewrite Hcd in Hloop.
  destruct (count_loop_inv _ _ _ _ _ Hloop) as [Hkeys Hget].
  split; [done |]. intros p entry Hentry. by apply (Hget p).
Qed.

Lemma X6_witness :
  Dict.keys (count_dictionary
               (set_count_dictionary
                  (set_processed_reads_dictionary Examples.accumulator
                     {[ "pair"%string := (0, Some 2) ]})
                  [(0, mk_tally 1 0 0 0 0); (1, mk_tally 0 0 0 1 0);
                   (2, tally_zero); (3, tally_zero)]))
  = Dict.keys (count_dictionary Examples.accumulator)
  ∧ ∀ p entry,
      Dict.get p (count_dictionary Examples.accumulator) = Some entry →
      ∃ entry',
        Dict.get p (count_dictionary
                      (set_count_dictionary
                         (set_processed_reads_dictionary Examples.accumulator
                            {[ "pair"%string := (0, Some 2) ]})
                         [(0, mk_tally 1 0 0 0 0); (1, mk_tally 0 0 0 1 0);
                          (2, tally_zero); (3, tally_zero)])) = Some entry'
        ∧ (entry' = entry ∨ tally_total entry' = tally_total entry + 1).
Proof.
  apply (X6_update_adds_at_most_one_per_position Examples.accumulator _ Examples.mate1).
  by vm_compute.
Defined.

Lemma tally_incr_foreign nucleotide entry :
  nucleotide ∉ Spec.alphabet → tally_incr nucleotide entry = Raise KeyError.
Proof.
  unfold Spec.alphabet, tally_incr. intros Hn.
  destruct (String.eqb_spec nucleotide "A") as [-> | _];
    [destruct Hn; by apply (bool_decide_unpack _) |].
  destruct (String.eqb_spec nucleotide "T") as [-> | _];
    [destruct Hn; by apply (bool_decide_unpack _) |].
  destruct (String.eqb_spec nucleotide "G") as [-> | _];
    [destruct Hn; by apply (bool_decide_unpack _) |].
  destruct (String.eqb_spec nucleotide "C") as [-> | _];
    [destruct Hn; by apply (bool_decide_unpack _) |].
  destruct (String.eqb_spec nucleotide ".") as [-> | _];
    [destruct Hn; by apply (bool_decide_unpack _) |].
  done.
Qed.

Lemma count_loop_app before after position excluded cd :
  count_loop (before ++ after) position excluded cd
  = count_loop before position excluded cd ≫= fun cd1 =>
    count_loop after (position + Z.of_nat (length before)) excluded cd1.
Proof.
  revert position cd. induction before as [|n before IH]; intros position cd.
  - simpl. by rewrite Z.add_0_r.
  - cbn [app count_loop length].
    replace (position + Z.of_nat (S (length before)))
      with (position + 1 + Z.of_nat (length before)) by lia.
    destruct (String.eqb n "N"); [apply IH |].
    destruct (Dict.contains position cd && _); [| apply IH].
    destruct (Dict.getitem position cd) as [entry | e]; [| done].
    cbn [mbind result_bind Py.bind].
    destruct (tally_incr n entry) as [entry' | e]; [| done].
    cbn [mbind result_bind Py.bind]. apply IH.
Qed.

(** A symbol outside A, T, G, C, gap and N (a lower-case base, an ambiguity
    code) at a position of the evidence table makes
    [update_count_dictionary] raise [KeyError]: the tally has no key for it. *)
Theorem X7_foreign_symbol_raises (self : AlignmentInformation.t) (read : Read.t)
    before nucleotide after :
  processed_reads_dictionary self !! Read.id read = None →
  Read.aligned_sequence read = before ++ nucleotide :: after →
  Forall (fun n => n ∈ Spec.alphabet) before →
  nucleotide ∉ Spec.alphabet →
  Dict.contains (Read.leftmost_position read + Z.of_nat (length before))
                (count_dictionary self) = true →
  update_count_dictionary self read = Raise KeyError.
Proof.
  intros Hmemo Hseq Hbefore Hforeign Hcontains.
  unfold update_count_dictionary. rewrite Hmemo, Hseq.
  cbn [mbind result_bind Py.bind set_processed_reads_dictionary count_dictionary].
  rewrite count_loop_app.
  destruct (count_loop_spec before (Read.leftmost_position read) []
              (count_dictionary self) Hbefore) as (cd1 & -> & Hget).
  cbn [mbind result_bind Py.bind count_loop].
  assert (HN : String.eqb nucleotide "N" = false).
  { apply String.eqb_neq. intros ->. apply Hforeign. by apply (bool_decide_unpack _). }
  rewrite HN.
  apply dict_contains_get in Hcontains as [entry Hentry].
  specialize (Hget (Read.leftmost_position read + Z.of_nat (length before))).
  rewrite Hentry in Hget. simpl in Hget.
  unfold Dict.contains, Dict.getitem. rewrite Hget.
  rewrite bool_decide_eq_false_2 by apply not_elem_of_nil.
  cbn [andb negb mbind result_bind Py.bind].
  by rewrite tally_incr_foreign.
Qed.

Lemma X7_witness :
  update_count_dictionary Examples.accumulator
    (Read.mk "r1" 0 1 255 [] "Ca" [] ["C"; "a"]%string (Some 3))
  = Raise KeyError.
Proof.
  apply (X7_foreign_symbol_raises Examples.accumulator
           (Read.mk "r1" 0 1 255 [] "Ca" [] ["C"; "a"]%string (Some 3))
           ["C"]%string "a"%string []).
  - reflexivity.
  - reflexivity.
  - solve_alphabet.
  - by apply (bool_decide_unpack _).
  - reflexivity.
Defined.

Lemma dict_setitem_NoDup {K V : Type} `{EqDecision K} (k : K) (v : V) (d : list (K * V)) :
  NoDup (Dict.keys d) → NoDup (Dict.keys (Dict.setitem k v d)).
Proof.
  intros Hnd. destruct (Dict.get k d) as [v0 |] eqn:Hget.
  - rewrite dict_keys_setitem_present by (by eexists). done.
  - rewrite dict_setitem_absent by done. unfold Dict.keys in *.
    rewrite fmap_app. apply NoDup_app. split; [done |]. split.
    + intros x Hx Hk. apply list_elem_of_singleton in Hk as ->.
      by apply dict_get_None in Hget.
    + apply NoDup_singleton.
Qed.

Lemma zero_fill_spec (indices : list Z) (cd : list (Z * tally)) p :
  Dict.get p (fold_left (fun cd i => Dict.setitem i tally_zero cd) indices cd)
  = if bool_decide (p ∈ indices) then Some tally_zero else Dict.get p cd.
Proof.
  revert cd. induction indices as [|i indices IH]; intros cd; [done |].
  cbn [fold_left]. rewrite IH.
  destruct (decide (p = i)) as [-> | Hne].
  - rewrite dict_get_setitem_eq, (bool_decide_eq_true_2 (i ∈ i :: indices)) by left.
    by destruct (bool_decide _).
  - rewrite dict_get_setitem_ne by done.
    destruct (bool_decide (p ∈ indices)) eqn:Hin.
    + apply bool_decide_eq_true in Hin.
      by rewrite (bool_decide_eq_true_2 (p ∈ i :: indices)) by (by right).
    + apply bool_decide_eq_false in Hin.
      rewrite (bool_decide_eq_false_2 (p ∈ i :: indices)); [done |].
      by apply not_elem_of_cons.
Qed.

Lemma zero_fill_NoDup (indices : list Z) (cd : list (Z * tally)) :
  NoDup (Dict.keys cd) →
  NoDup (Dict.keys (fold_left (fun cd i => Dict.setitem i tally_zero cd) indices cd)).
Proof.
  revert cd. induction indices as [|i indices IH]; intros cd Hnd; [done |].
  cbn [fold_left]. by apply IH, dict_setitem_NoDup.
Qed.

Lemma exon_fill_spec (exons : list (Z * Z)) (cd : list (Z * tally)) p :
  Dict.get p
    (fold_left
       (fun cd (exon_range : Z * Z) =>
          fold_left (fun cd i => Dict.setitem i tally_zero cd)
                    (range exon_range.1 exon_range.2) cd)
       exons cd)
  = if existsb (fun exon_range : Z * Z =>
                  bool_decide (exon_range.1 ≤ p < exon_range.2)) exons
    then Some tally_zero else Dict.get p cd.
Proof.
  revert cd. induction exons as [|exon_range exons IH]; intros cd; [done |].
  cbn [fold_left existsb]. rewrite IH, zero_fill_spec.
  assert (Heq : bool_decide (p ∈ range exon_range.1 exon_range.2)
                = bool_decide (exon_range.1 ≤ p < exon_range.2)).
  { apply bool_decide_ext. unfold range. rewrite elem_of_seqZ. lia. }
  rewrite Heq.
  by destruct (bool_decide (exon_range.1 ≤ p < exon_range.2)), (existsb _ exons).
Qed.

Lemma exon_fill_NoDup (exons : list (Z * Z)) (cd : list (Z * tally)) :
  NoDup (Dict.keys cd) →
  NoDup (Dict.keys
           (fold_left
              (fun cd (exon_range : Z * Z) =>
                 fold_left (fun cd i => Dict.setitem i tally_zero cd)
                           (range exon_range.1 exon_range.2) cd)
              exons cd)).
Proof.
  revert cd. induction exons as [|exon_range exons IH]; intros cd Hnd; [done |].
  cbn [fold_left]. by apply IH, zero_fill_NoDup.
Qed.

(** A fresh accumulator holds a zero tally at every position of every exon
    range and at no other position; no position appears twice, and the memo
    is empty. *)
Theorem X8_fresh_accumulator (a_reference_instance : Reference.t) :
  (∀ p, Dict.get p (count_dictionary (AlignmentInformation.init a_reference_instance))
        = if existsb (fun exon_range : Z * Z =>
                        bool_decide (exon_range.1 ≤ p < exon_range.2))
                     (Reference.exons_index_list a_reference_instance)
          then Some tally_zero else None)
  ∧ NoDup (Dict.keys (count_dictionary (AlignmentInformation.init a_reference_instance)))
  ∧ ∀ qname,
      processed_reads_dictionary (AlignmentInformation.init a_reference_instance)
        !! qname = None.
Proof.
  split; [| split].
  - intros p. unfold AlignmentInformation.init. cbn [count_dictionary].
    by rewrite exon_fill_spec.
  - unfold AlignmentInformation.init. cbn [count_dictionary].
    apply exon_fill_NoDup. apply NoDup_nil_2.
  - intros qname. apply lookup_empty.
Qed.

Lemma proportion_loop_returns cd pd :
  (∀ position entry, (position, entry) ∈ cd → tally_total entry ≠ 0) →
  ∃ pd', proportion_loop cd pd = Return pd'.
Proof.
  revert pd. induction cd as [|[position entry] cd IH]; intros pd Hnz.
  - by eexists.
  - cbn [proportion_loop].
    rewrite nucleotide_loop_nonzero by (apply (Hnz position); left).
    cbn [mbind result_bind Py.bind].
    apply IH. intros p e Hp. apply (Hnz p). by right.
Qed.

(** [create_proportion_dictionary] returns a table exactly when every
    position of the evidence table has received some evidence; the only
    exception it raises is [ZeroDivisionError]. *)
Theorem X9_proportions_need_evidence_everywhere (self : AlignmentInformation.t) :
  ((∃ self', create_proportion_dictionary self = Return self')
   ↔ ∀ position entry,
       (position, entry) ∈ count_dictionary self → tally_total entry ≠ 0)
  ∧ ∀ e, create_proportion_dictionary self = Raise e → e = ZeroDivisionError.
Proof.
  unfold create_proportion_dictionary. split; [split |].
  - intros [self' Hrun] position entry Hin Hzero.
    by rewrite (proportion_loop_zero _ _ position entry) in Hrun.
  - intros Hnz.
    destruct (proportion_loop_returns (count_dictionary self)
                (proportion_dictionary self) Hnz) as [pd' ->].
    by eexists.
  - intros e.
    generalize (proportion_dictionary self).
    induction (count_dictionary self) as [|[position entry] cd IH]; intros pd; [done |].
    cbn [proportion_loop].
    destruct (Z.eq_dec (tally_total entry) 0) as [Hz | Hnz].
    + rewrite Hz, nucleotide_loop_zero by done. by intros [= <-].
    + rewrite nucleotide_loop_nonzero by done. cbn [mbind result_bind Py.bind].
      apply IH.
Qed.


(** ** ProgressiveAnalysis.py *)

(** The Progressive Filter cannot be run twice over the same alignment
    instance: after a first pass every entry of the table holds a list under
    "Present Nucleotides", the comparison of that list with the threshold
    raises [TypeError], and so does a second [__init__]. *)
Theorem X11_second_pass_raises proportion_threshold (table : Spec.table)
    (alignment : AlignmentInformation.t) :
  proportion_dictionary alignment = Spec.derived table →
  table ≠ [] →
  NoDup (Dict.keys table) →
  (∀ row, row ∈ table → Dict.keys row.2 = Spec.symbol_keys) →
  NoDup (Dict.keys (Reference.allele_lines (reference alignment))) →
  NoDup (reference_alleles alignment) →
  (∀ row allele_id allele_sequence,
     row ∈ table →
     (allele_id, allele_sequence) ∈ Reference.allele_lines (reference alignment) →
     0 ≤ row.1 < Z.of_nat (length allele_sequence)) →
  ∃ alignment',
    ProgressiveAnalysis.position_loop proportion_threshold
      (Dict.keys (proportion_dictionary alignment)) alignment = Return alignment'
    ∧ (∀ row, row ∈ table →
              ProgressiveAnalysis.position_step proportion_threshold alignment' row.1
              = Raise TypeError)
    ∧ ProgressiveAnalysis.init alignment' proportion_threshold = Raise TypeError.
Proof.
  intros Hpd Hne Htable Hkeys Hlines Hnd Hrange.
  assert (Hrun : ProgressiveAnalysis.position_loop proportion_threshold
                   (Dict.keys (proportion_dictionary alignment)) alignment
                 = Return
                     (set_reference_alleles
                        (set_proportion_dictionary alignment
                           (Spec.annotated proportion_threshold table))
                        (foldl (step_candidates proportion_threshold
                                  (Reference.allele_lines (reference alignment)))
                               (reference_alleles alignment) table))).
  { rewrite Hpd at 1. rewrite derived_keys.
    rewrite progressive_position_loop; try done.
    - rewrite Hpd.
      pose proof (foldl_step_table proportion_threshold [] table) as Hfold.
      cbn [app Dict.keys fmap list_fmap] in Hfold.
      rewrite Hfold; [done | done |].
      intros row Hrow. rewrite (Hkeys row Hrow). by apply (bool_decide_unpack _).
    - intros row Hrow. rewrite Hpd. by apply derived_get. }
  eexists. split; [exact Hrun |].
  assert (Hstep : ∀ row, row ∈ table →
            ProgressiveAnalysis.position_step proportion_threshold
              (set_reference_alleles
                 (set_proportion_dictionary alignment
                    (Spec.annotated proportion_threshold table))
                 (foldl (step_candidates proportion_threshold
                           (Reference.allele_lines (reference alignment)))
                        (reference_alleles alignment) table)) row.1
            = Raise TypeError).
  { intros row Hrow. unfold ProgressiveAnalysis.position_step, Dict.getitem.
    cbn [set_reference_alleles set_proportion_dictionary proportion_dictionary].
    rewrite (dict_get_NoDup row.1
               (Spec.derived_entry row.2
                ++ [("Present Nucleotides"%string,
                     PList (Spec.present proportion_threshold row.2))])).
    - cbn [mbind result_bind Py.bind].
      rewrite (present_loop_list _ _ _ "Present Nucleotides"%string
                 (Spec.present proportion_threshold row.2)); [done |].
      apply elem_of_app. right. left.
    - by rewrite annotated_keys.
    - unfold Spec.annotated. apply list_elem_of_fmap. by exists row. }
  split; [exact Hstep |].
  unfold ProgressiveAnalysis.init.
  cbn [set_reference_alleles set_proportion_dictionary proportion_dictionary].
  rewrite annotated_keys.
  destruct table as [|row table]; [done |].
  cbn [Dict.keys fmap list_fmap ProgressiveAnalysis.position_loop].
  rewrite (Hstep row) by left. done.
Qed.

Lemma X11_witness :
  ∃ alignment',
    ProgressiveAnalysis.position_loop 5 [1] Examples.balanced = Return alignment'
    ∧ (∀ row, row ∈ [(1, Examples.balanced_entry)] →
              ProgressiveAnalysis.position_step 5 alignment' row.1 = Raise TypeError)
    ∧ ProgressiveAnalysis.init alignment' 5 = Raise TypeError.
Proof.
  apply (X11_second_pass_raises 5 [(1, Examples.balanced_entry)] Examples.balanced).
  - reflexivity.
  - discriminate.
  - by apply (bool_decide_unpack _).
  - intros row Hrow. by apply list_elem_of_singleton in Hrow as ->.
  - by apply (bool_decide_unpack _).
  - by apply (bool_decide_unpack _).
  - exact balanced_reaches_position.
Defined.

Lemma read_loop_no_exons reads alignment alignment' :
  KIRtyper.read_loop [] reads alignment = Return alignment' → alignment' = alignment.
Proof.
  revert alignment. induction reads as [|read reads IH]; intros alignment Hrun.
  - by injection Hrun as <-.
  - cbn [KIRtyper.read_loop] in Hrun. unfold KIRtyper.process_read in Hrun.
    destruct (negb (Read.flag read =? 4) && (Read.quality read =? 255)).
    + destruct (Read.get_aligned_sequence (Read.parse_cigar read)) as [[read' w] | e];
        [| done].
      cbn [mbind result_bind Py.bind KIRtyper.exon_loop] in Hrun. by apply IH.
    + cbn [mbind result_bind Py.bind] in Hrun. by apply IH.
Qed.

(** A reference without exon ranges is not rejected: the records are read,
    the two tables stay empty, and the run ends in the Progressive Filter
    with [UnboundLocalError], the name [primary_result_alleles] never having
    been bound. *)
Theorem X12_no_exon_ranges (reference : Reference.t) (reads : list Read.t)
    (alignment : AlignmentInformation.t) :
  Reference.exons_index_list reference = [] →
  KIRtyper.read_loop [] reads (AlignmentInformation.init reference) = Return alignment →
  alignment = AlignmentInformation.init reference
  ∧ KIRtyper.main reference reads = Raise UnboundLocalError.
Proof.
  intros Hexons Hrun.
  pose proof (read_loop_no_exons _ _ _ Hrun) as ->. split; [done |].
  unfold KIRtyper.main. rewrite Hexons, Hrun.
  unfold AlignmentInformation.init. rewrite Hexons. reflexivity.
Qed.

Lemma X12_witness :
  AlignmentInformation.init (Reference.mk [("KIR2DL1*001"%string, ["A"%string])] [])
  = AlignmentInformation.init (Reference.mk [("KIR2DL1*001"%string, ["A"%string])] [])
  ∧ KIRtyper.main (Reference.mk [("KIR2DL1*001"%string, ["A"%string])] [])
      [Read.init "r1" 0 1 255 "2M" "AC"; Read.init "r2" 4 0 0 "*" "GT"] = Raise UnboundLocalError.
Proof.
  apply (X12_no_exon_ranges (Reference.mk [("KIR2DL1*001"%string, ["A"%string])] [])
           [Read.init "r1" 0 1 255 "2M" "AC"; Read.init "r2" 4 0 0 "*" "GT"]).
  - reflexivity.
  - vm_compute. reflexivity.
Defined.

Lemma group_by_gene_get alleles rad kir_gene :
  Dict.get kir_gene (ProgressiveAnalysis.group_by_gene alleles rad)
  = match Dict.get kir_gene rad,
          filter (fun allele => ProgressiveAnalysis.kir_gene_of allele = kir_gene) alleles
    with
    | Some l, m => Some (l ++ m)
    | None, [] => None
    | None, m => Some m
    end.
Proof.
  unfold ProgressiveAnalysis.group_by_gene. revert rad.
  induction alleles as [|allele alleles IH]; intros rad.
  - cbn. destruct (Dict.get kir_gene rad); [by rewrite app_nil_r | done].
  - cbn [fold_left]. rewrite IH. clear IH.
    set (ga := ProgressiveAnalysis.kir_gene_of allele).
    assert (Hstep : ∃ l0,
              Dict.get ga (if Dict.contains ga rad then rad else Dict.setitem ga [] rad)
              = Some l0
              ∧ l0 = default [] (Dict.get ga rad)
              ∧ ∀ k, k ≠ ga →
                     Dict.get k (if Dict.contains ga rad then rad
                                 else Dict.setitem ga [] rad)
                     = Dict.get k rad).
    { unfold Dict.contains. destruct (Dict.get ga rad) as [l0|] eqn:Hga.
      - exists l0. by rewrite Hga.
      - exists []. split; [apply dict_get_setitem_eq | split; [done |]].
        intros k Hk. by apply dict_get_setitem_ne. }
    destruct Hstep as (l0 & Hl0 & Hdef & Hother). rewrite Hl0.
    destruct (decide (ga = kir_gene)) as [<- | Hne].
    + rewrite dict_get_setitem_eq. rewrite filter_cons_True by done.
      destruct (Dict.get ga rad) as [l|]; cbn in Hdef; subst l0.
      * by rewrite <- app_assoc.
      * done.
    + rewrite dict_get_setitem_ne by done. rewrite Hother by done.
      by rewrite filter_cons_False.
Qed.

Lemma group_by_gene_NoDup alleles rad :
  NoDup (Dict.keys rad) →
  NoDup (Dict.keys (ProgressiveAnalysis.group_by_gene alleles rad)).
Proof.
  unfold ProgressiveAnalysis.group_by_gene. revert rad.
  induction alleles as [|allele alleles IH]; intros rad Hnd; [done |].
  cbn [fold_left]. apply IH.
  set (ga := ProgressiveAnalysis.kir_gene_of allele).
  assert (Hnd' : NoDup (Dict.keys (if Dict.contains ga rad then rad
                                    else Dict.setitem ga [] rad))).
  { destruct (Dict.contains ga rad); [done | by apply dict_setitem_NoDup]. }
  destruct (Dict.get ga _); [by apply dict_setitem_NoDup | done].
Qed.

(** The grouping loop of [process_result_alleles] splits the surviving
    alleles by gene: under a gene stand exactly the alleles of that gene, in
    the order they survived (KIR2DL5A and KIR2DL5B under KIR2DL5); a gene
    with no allele has no key, and no gene has two. *)
Theorem X13_alleles_grouped_by_gene (primary_result_alleles : list string)
    (kir_gene : string) :
  Dict.get kir_gene (ProgressiveAnalysis.group_by_gene primary_result_alleles [])
  = match filter (fun allele => ProgressiveAnalysis.kir_gene_of allele = kir_gene)
                 primary_result_alleles
    with
    | [] => None
    | alleles => Some alleles
    end
  ∧ NoDup (Dict.keys (ProgressiveAnalysis.group_by_gene primary_result_alleles [])).
Proof.
  split.
  - by rewrite group_by_gene_get.
  - apply group_by_gene_NoDup. apply NoDup_nil_2.
Qed.

Lemma split_loop_no_separator sep s current :
  sep ∉ s → split_loop sep s current = [current ++ s].
Proof.
  revert current. induction s as [|c s IH]; intros current Hsep.
  - by rewrite app_nil_r.
  - cbn [split_loop]. destruct (Ascii.eqb_spec c sep) as [-> | Hc].
    + exfalso. apply Hsep. left.
    + rewrite IH; [by rewrite <- app_assoc |].
      intros Hin. apply Hsep. by right.
Qed.

Lemma split_loop_cons sep s current :
  ∃ first others, split_loop sep s current = first :: others.
Proof.
  revert current. induction s as [|c s IH]; intros current; [by eexists _, _ |].
  cbn [split_loop]. destruct (Ascii.eqb c sep); [by eexists _, _ | apply IH].
Qed.

Lemma split_loop_separator sep s current :
  sep ∈ s → ∃ first second others, split_loop sep s current = first :: second :: others.
Proof.
  revert current. induction s as [|c s IH]; intros current Hsep;
    [by apply elem_of_nil in Hsep |].
  cbn [split_loop]. destruct (Ascii.eqb_spec c sep) as [-> | Hc].
  - destruct (split_loop_cons sep s []) as (second & others & ->).
    by exists current, second, others.
  - apply IH. apply elem_of_cons in Hsep as [-> | Hsep]; [done | done].
Qed.

Lemma code_of_allele_without_star allele :
  "*"%char ∉ list_ascii_of_string allele →
  Py.getitem (split "*" allele) 1 = Raise IndexError.
Proof.
  intros Hstar. unfold split. by rewrite split_loop_no_separator.
Qed.

Lemma code_of_allele_with_star allele :
  "*"%char ∈ list_ascii_of_string allele →
  ∃ code, split "*" allele !! 1%nat = Some code
          ∧ Py.getitem (split "*" allele) 1 = Return code.
Proof.
  intros Hstar. unfold split.
  destruct (split_loop_separator "*" _ [] Hstar) as (f & g & o & ->).
  exists (string_of_list_ascii g). split; [done |].
  unfold Py.getitem. cbn [map length].
  replace (1 <? 0) with false by done.
  replace (1 <? 0) with false by done.
  replace (Z.of_nat (S (S (length (map string_of_list_ascii o)))) <=? 1) with false
    by (symmetry; apply Z.leb_gt; lia).
  done.
Qed.

Lemma identical_loop_raises alleles exon_mismatches_codes identical :
  Exists (fun allele => "*"%char ∉ list_ascii_of_string allele) alleles →
  ProgressiveAnalysis.identical_loop alleles exon_mismatches_codes identical
  = Raise IndexError.
Proof.
  revert exon_mismatches_codes identical.
  induction alleles as [|allele alleles IH]; intros codes identical Hex;
    [by apply Exists_nil in Hex |].
  cbn [ProgressiveAnalysis.identical_loop].
  destruct (decide ("*"%char ∈ list_ascii_of_string allele)) as [Hstar | Hstar].
  - destruct (code_of_allele_with_star allele Hstar) as (code & _ & ->).
    cbn [mbind result_bind Py.bind].
    apply Exists_cons in Hex as [Hbad | Hex]; [done |].
    destruct (4 <? length (list_of_str code))%nat; [| by apply IH].
    destruct (bool_decide _); by apply IH.
  - by rewrite code_of_allele_without_star.
Qed.

Lemma identical_loop_returns alleles exon_mismatches_codes identical :
  Forall (fun allele => "*"%char ∈ list_ascii_of_string allele) alleles →
  ∃ identical',
    ProgressiveAnalysis.identical_loop alleles exon_mismatches_codes identical
    = Return identical'.
Proof.
  revert exon_mismatches_codes identical.
  induction alleles as [|allele alleles IH]; intros codes identical Hall;
    [by eexists |].
  apply Forall_cons in Hall as [Hstar Hall].
  cbn [ProgressiveAnalysis.identical_loop].
  destruct (code_of_allele_with_star allele Hstar) as (code & _ & ->).
  cbn [mbind result_bind Py.bind].
  destruct (4 <? length (list_of_str code))%nat; [| by apply IH].
  destruct (bool_decide _); by apply IH.
Qed.

Lemma exclude_exon_identical_alleles_raises grouped self :
  Exists (fun group : string * list string =>
            Exists (fun allele => "*"%char ∉ list_ascii_of_string allele) group.2)
         grouped →
  ProgressiveAnalysis.exclude_exon_identical_alleles grouped self = Raise IndexError.
Proof.
  revert self. induction grouped as [|[kir_gene alleles] grouped IH]; intros self Hex;
    [by apply Exists_nil in Hex |].
  cbn [ProgressiveAnalysis.exclude_exon_identical_alleles].
  destruct (decide (Forall (fun allele => "*"%char ∈ list_ascii_of_string allele)
                           alleles)) as [Hall | Hnot].
  - destruct (identical_loop_returns alleles [] [] Hall) as (identical & ->).
    cbn [mbind result_bind Py.bind]. apply IH.
    apply Exists_cons in Hex as [Hbad | Hex]; [| done].
    exfalso. apply Exists_exists in Hbad as (allele & Hin & Hbad).
    apply Hbad. by apply (proj1 (Forall_forall _ _) Hall).
  - apply not_Forall_Exists in Hnot; [| apply _].
    by rewrite identical_loop_raises.
Qed.

(** An allele identifier without a "*" among the survivors stops
    [process_result_alleles] with [IndexError]: the allele is grouped under
    its whole identifier and [allele.split("*")[1]] does not exist. *)
Theorem X14_identifier_without_star_raises (primary_result_alleles : list string)
    (allele : string) :
  allele ∈ primary_result_alleles →
  "*"%char ∉ list_ascii_of_string allele →
  ProgressiveAnalysis.kir_gene_of allele
  = (if String.eqb allele "KIR2DL5A" || String.eqb allele "KIR2DL5B"
     then "KIR2DL5"%string else allele)
  ∧ ProgressiveAnalysis.process_result_alleles primary_result_alleles
    = Raise IndexError.
Proof.
  intros Hin Hstar. split.
  - unfold ProgressiveAnalysis.kir_gene_of, split.
    rewrite split_loop_no_separator by done.
    cbn [app map]. by rewrite string_of_list_ascii_of_string.
  - unfold ProgressiveAnalysis.process_result_alleles.
    apply exclude_exon_identical_alleles_raises.
    pose proof (group_by_gene_get primary_result_alleles []
                  (ProgressiveAnalysis.kir_gene_of allele)) as Hget.
    cbn [Dict.get] in Hget.
    assert (Hmem : allele ∈ filter (fun allele0 =>
                     ProgressiveAnalysis.kir_gene_of allele0
                     = ProgressiveAnalysis.kir_gene_of allele) primary_result_alleles).
    { by apply list_elem_of_filter. }
    destruct (filter _ primary_result_alleles) as [|x m] eqn:Hm;
      [by apply elem_of_nil in Hmem |].
    apply dict_get_elem_of in Hget.
    apply Exists_exists. eexists. split; [exact Hget |].
    cbn. apply Exists_exists. by exists allele.
Qed.

Lemma X14_witness :
  ProgressiveAnalysis.kir_gene_of "KIR3DL2"
  = (if String.eqb "KIR3DL2" "KIR2DL5A" || String.eqb "KIR3DL2" "KIR2DL5B"
     then "KIR2DL5"%string else "KIR3DL2"%string)
  ∧ ProgressiveAnalysis.process_result_alleles
      ["KIR2DL1*0010101"; "KIR3DL2"; "KIR2DL1*0010102"]%string
    = Raise IndexError.
Proof.
  apply (X14_identifier_without_star_raises
           ["KIR2DL1*0010101"; "KIR3DL2"; "KIR2DL1*0010102"]%string "KIR3DL2"%string).
  - by apply (bool_decide_unpack _).
  - by apply (bool_decide_unpack _).
Defined.

Lemma identical_loop_spec alleles exon_mismatches_codes identical :
  Forall (fun allele => "*"%char ∈ list_ascii_of_string allele) alleles →
  ∃ identical',
    ProgressiveAnalysis.identical_loop alleles exon_mismatches_codes identical
    = Return identical'
    ∧ ∀ allele,
        allele ∈ identical'
        ↔ allele ∈ identical
          ∨ ∃ earlier later signature,
              alleles = earlier ++ allele :: later
              ∧ exon_signature allele = Some signature
              ∧ (signature ∈ exon_mismatches_codes
                 ∨ ∃ other, other ∈ earlier ∧ exon_signature other = Some signature).
Proof.
  revert exon_mismatches_codes identical.
  induction alleles as [|head alleles IH]; intros codes identical Hall.
  - eexists. split; [done |]. intros allele. split; [by left |].
    intros [Hin | (earlier & later & signature & Heq & _)]; [done |].
    by destruct earlier.
  - apply Forall_cons in Hall as [Hstar Hall].
    cbn [ProgressiveAnalysis.identical_loop].
    destruct (code_of_allele_with_star head Hstar) as (code & Hcode & ->).
    cbn [mbind result_bind Py.bind].
    assert (Hsig : exon_signature head
                   = if (4 <? length (list_of_str code))%nat
                     then Some (take 5 (list_of_str code)) else None).
    { unfold exon_signature. by rewrite Hcode. }
    destruct (4 <? length (list_of_str code))%nat.
    + destruct (bool_decide_reflect (take 5 (list_of_str code) ∈ codes)) as [Hseen | Hnew].
      * destruct (IH codes (identical ++ [head]) Hall) as (identical' & -> & Hiff).
        eexists. split; [done |]. intros allele. rewrite Hiff. clear Hiff IH.
        rewrite elem_of_app, list_elem_of_singleton. split.
        -- intros [[Hin | ->] | (earlier & later & signature & -> & Hs & Hwhy)].
           ++ by left.
           ++ right. exists [], alleles, (take 5 (list_of_str code)).
              split; [done | split; [done | by left]].
           ++ right. exists (head :: earlier), later, signature.
              split; [done | split; [done |]].
              destruct Hwhy as [Hc | (other & Ho & Hso)]; [by left |].
              right. exists other. split; [by right | done].
        -- intros [Hin | (earlier & later & signature & Heq & Hs & Hwhy)];
             [by left; left |].
           destruct earlier as [|e earlier]; injection Heq as <- Heq.
           ++ left. by right.
           ++ right. exists earlier, later, signature.
              split; [done | split; [done |]].
              destruct Hwhy as [Hc | (other & Ho & Hso)]; [by left |].
              apply elem_of_cons in Ho as [-> | Ho].
              ** left. rewrite Hsig in Hso. by injection Hso as <-.
              ** right. by exists other.
      * destruct (IH (codes ++ [take 5 (list_of_str code)]) identical Hall)
          as (identical' & -> & Hiff).
        eexists. split; [done |]. intros allele. rewrite Hiff. clear Hiff IH.
        split.
        -- intros [Hin | (earlier & later & signature & -> & Hs & Hwhy)]; [by left |].
           right. exists (head :: earlier), later, signature.
           split; [done | split; [done |]].
           destruct Hwhy as [Hc | (other & Ho & Hso)].
           ++ apply elem_of_app in Hc as [Hc | Hc]; [by left |].
              apply list_elem_of_singleton in Hc as ->.
              right. exists head. split; [left | done].
           ++ right. exists other. split; [by right | done].
        -- intros [Hin | (earlier & later & signature & Heq & Hs & Hwhy)]; [by left |].
           destruct earlier as [|e earlier]; injection Heq as <- Heq.
           ++ exfalso. rewrite Hsig in Hs. injection Hs as <-.
              destruct Hwhy as [Hc | (other & Ho & _)]; [done |].
              by apply elem_of_nil in Ho.
           ++ right. exists earlier, later, signature.
              split; [done | split; [done |]].
              destruct Hwhy as [Hc | (other & Ho & Hso)].
              ** left. apply elem_of_app. by left.
              ** apply elem_of_cons in Ho as [-> | Ho].
                 --- left. rewrite Hsig in Hso. injection Hso as <-.
                     apply elem_of_app. right. by apply list_elem_of_singleton.
                 --- right. by exists other.
    + destruct (IH codes identical Hall) as (identical' & -> & Hiff).
      eexists. split; [done |]. intros allele. rewrite Hiff. clear Hiff IH.
      split.
      * intros [Hin | (earlier & later & signature & -> & Hs & Hwhy)]; [by left |].
        right. exists (head :: earlier), later, signature.
        split; [done | split; [done |]].
        destruct Hwhy as [Hc | (other & Ho & Hso)]; [by left |].
        right. exists other. split; [by right | done].
      * intros [Hin | (earlier & later & signature & Heq & Hs & Hwhy)]; [by left |].
        destruct earlier as [|e earlier]; injection Heq as <- Heq.
        -- exfalso. rewrite Hsig in Hs. done.
        -- right. exists earlier, later, signature.
           split; [done | split; [done |]].
           destruct Hwhy as [Hc | (other & Ho & Hso)]; [by left |].
           apply elem_of_cons in Ho as [-> | Ho].
           ++ exfalso. rewrite Hsig in Hso. done.
           ++ right. by exists other.
Qed.

Lemma exclude_exon_identical_alleles_spec grouped self :
  NoDup (Dict.keys grouped) →
  Forall (fun group : string * list string =>
            Forall (fun allele => "*"%char ∈ list_ascii_of_string allele) group.2)
         grouped →
  ∃ self',
    ProgressiveAnalysis.exclude_exon_identical_alleles grouped self = Return self'
    ∧ (∀ kir_gene alleles,
         (kir_gene, alleles) ∈ grouped →
         ∃ identical,
           ProgressiveAnalysis.identical_loop alleles [] [] = Return identical
           ∧ Dict.get kir_gene (ProgressiveAnalysis.exon_identical_alleles self')
             = Some identical
           ∧ Dict.get kir_gene (ProgressiveAnalysis.result_alleles_dictionary self')
             = Some (ProgressiveAnalysis.fromkeys
                       (filter (fun allele => allele ∉ identical) alleles)))
    ∧ (∀ kir_gene,
         kir_gene ∉ Dict.keys grouped →
         Dict.get kir_gene (ProgressiveAnalysis.exon_identical_alleles self')
         = Dict.get kir_gene (ProgressiveAnalysis.exon_identical_alleles self)
         ∧ Dict.get kir_gene (ProgressiveAnalysis.result_alleles_dictionary self')
           = Dict.get kir_gene (ProgressiveAnalysis.result_alleles_dictionary self)).
Proof.
  revert self. induction grouped as [|[g0 als0] grouped IH]; intros self Hnd Hall.
  - eexists. split; [done |]. split; [| done].
    intros kir_gene alleles Hin. by apply elem_of_nil in Hin.
  - apply Forall_cons in Hall as [Hall0 Hall].
    cbn [Dict.keys fmap list_fmap fst] in Hnd. apply NoDup_cons in Hnd as [Hg0 Hnd].
    cbn [ProgressiveAnalysis.exclude_exon_identical_alleles].
    destruct (identical_loop_returns als0 [] [] Hall0) as (identical0 & Hloop).
    rewrite Hloop. cbn [mbind result_bind Py.bind].
    destruct (IH {| ProgressiveAnalysis.result_alleles_dictionary :=
                      Dict.setitem g0
                        (ProgressiveAnalysis.fromkeys
                           (filter (fun allele => allele ∉ identical0) als0))
                        (ProgressiveAnalysis.result_alleles_dictionary self);
                    ProgressiveAnalysis.exon_identical_alleles :=
                      Dict.setitem g0 identical0
                        (ProgressiveAnalysis.exon_identical_alleles self) |}
                 Hnd Hall) as (self' & Hrun & Hin & Hout).
    exists self'. split; [exact Hrun |]. split.
    + intros kir_gene alleles Hmem.
      apply elem_of_cons in Hmem as [[= -> ->] | Hmem]; [| by apply Hin].
      exists identical0. split; [done |].
      destruct (Hout g0 Hg0) as [-> ->].
      cbn [ProgressiveAnalysis.result_alleles_dictionary
             ProgressiveAnalysis.exon_identical_alleles].
      by rewrite !dict_get_setitem_eq.
    + intros kir_gene Hnot.
      assert (Hne : g0 ≠ kir_gene).
      { intros ->. apply Hnot. cbn. left. }
      assert (Hrest : kir_gene ∉ Dict.keys grouped).
      { intros Hk. apply Hnot. cbn. by right. }
      destruct (Hout kir_gene Hrest) as [-> ->].
      cbn [ProgressiveAnalysis.result_alleles_dictionary
             ProgressiveAnalysis.exon_identical_alleles].
      by rewrite !dict_get_setitem_ne.
Qed.

Lemma group_by_gene_elem primary_result_alleles kir_gene alleles :
  (kir_gene, alleles) ∈ ProgressiveAnalysis.group_by_gene primary_result_alleles [] →
  alleles = filter (fun allele => ProgressiveAnalysis.kir_gene_of allele = kir_gene)
                   primary_result_alleles.
Proof.
  intros Hin.
  assert (Hget : Dict.get kir_gene
                   (ProgressiveAnalysis.group_by_gene primary_result_alleles [])
                 = Some alleles).
  { apply dict_get_NoDup; [| done]. apply group_by_gene_NoDup. apply NoDup_nil_2. }
  rewrite group_by_gene_get in Hget. cbn [Dict.get] in Hget.
  destruct (filter _ primary_result_alleles); [done |]. by injection Hget as <-.
Qed.

(** With a "*" in every surviving identifier [process_result_alleles]
    returns.  Under each gene that has survivors it files as exon identical
    exactly the alleles whose exon signature (the first five characters of a
    code of more than four) was already shown by an earlier allele of the
    gene, and keeps the others as the keys of the gene's dictionary; a gene
    without survivors gets no entry. *)
Theorem X15_exon_identical_alleles_are_later_repeats
    (primary_result_alleles : list string) :
  Forall (fun allele => "*"%char ∈ list_ascii_of_string allele)
         primary_result_alleles →
  ∃ self,
    ProgressiveAnalysis.process_result_alleles primary_result_alleles = Return self
    ∧ ∀ kir_gene,
        match filter (fun allele => ProgressiveAnalysis.kir_gene_of allele = kir_gene)
                     primary_result_alleles
        with
        | [] =>
            Dict.get kir_gene (ProgressiveAnalysis.exon_identical_alleles self) = None
            ∧ Dict.get kir_gene (ProgressiveAnalysis.result_alleles_dictionary self)
              = None
        | alleles =>
            ∃ identical,
              Dict.get kir_gene (ProgressiveAnalysis.exon_identical_alleles self)
              = Some identical
              ∧ Dict.get kir_gene (ProgressiveAnalysis.result_alleles_dictionary self)
                = Some (ProgressiveAnalysis.fromkeys
                          (filter (fun allele => allele ∉ identical) alleles))
              ∧ ∀ allele,
                  allele ∈ identical
                  ↔ ∃ earlier later signature,
                      alleles = earlier ++ allele :: later
                      ∧ exon_signature allele = Some signature
                      ∧ ∃ other, other ∈ earlier
                                 ∧ exon_signature other = Some signature
        end.
Proof.
  intros Hall. unfold ProgressiveAnalysis.process_result_alleles.
  destruct (exclude_exon_identical_alleles_spec
              (ProgressiveAnalysis.group_by_gene primary_result_alleles [])
              {| ProgressiveAnalysis.result_alleles_dictionary := [];
                 ProgressiveAnalysis.exon_identical_alleles := [] |})
    as (self & Hrun & Hin & Hout).
  { apply group_by_gene_NoDup. apply NoDup_nil_2. }
  { apply Forall_forall. intros [kir_gene alleles] Hmem.
    apply group_by_gene_elem in Hmem as ->. cbn [snd].
    apply Forall_forall. intros allele Hallele.
    apply list_elem_of_filter in Hallele as [_ Hallele].
    by apply (proj1 (Forall_forall _ _) Hall). }
  exists self. split; [exact Hrun |]. intros kir_gene.
  pose proof (group_by_gene_get primary_result_alleles [] kir_gene) as Hget.
  cbn [Dict.get] in Hget.
  destruct (filter _ primary_result_alleles) as [|first others] eqn:Hgene.
  - apply dict_get_None in Hget. by apply Hout.
  - apply dict_get_elem_of in Hget.
    destruct (Hin _ _ Hget) as (identical & Hloop & Heia & Hrad).
    exists identical. split; [exact Heia |]. split; [exact Hrad |].
    destruct (identical_loop_spec (first :: others) [] []) as (identical' & Hloop' & Hiff).
    { rewrite <- Hgene. apply Forall_forall. intros allele Hallele.
      apply list_elem_of_filter in Hallele as [_ Hallele].
      by apply (proj1 (Forall_forall _ _) Hall). }
    rewrite Hloop in Hloop'. injection Hloop' as <-.
    intros allele. rewrite Hiff. split.
    + intros [Hnil | (earlier & later & signature & Heq & Hs & [Hc | Hother])].
      * by apply elem_of_nil in Hnil.
      * by apply elem_of_nil in Hc.
      * by exists earlier, later, signature.
    + intros (earlier & later & signature & Heq & Hs & Hother).
      right. exists earlier, later, signature. split; [done | split; [done | by right]].
Qed.

Lemma X15_witness :
  ∃ self,
    ProgressiveAnalysis.process_result_alleles
      ["KIR2DL1*0010101"; "KIR2DL1*0010102"; "KIR2DL1*00201"; "KIR3DL2*001"]%string
    = Return self
    ∧ ∀ kir_gene,
        match filter (fun allele => ProgressiveAnalysis.kir_gene_of allele = kir_gene)
                ["KIR2DL1*0010101"; "KIR2DL1*0010102"; "KIR2DL1*00201"; "KIR3DL2*001"]%string
        with
        | [] =>
            Dict.get kir_gene (ProgressiveAnalysis.exon_identical_alleles self) = None
            ∧ Dict.get kir_gene (ProgressiveAnalysis.result_alleles_dictionary self)
              = None
        | alleles =>
            ∃ identical,
              Dict.get kir_gene (ProgressiveAnalysis.exon_identical_alleles self)
              = Some identical
              ∧ Dict.get kir_gene (ProgressiveAnalysis.result_alleles_dictionary self)
                = Some (ProgressiveAnalysis.fromkeys
                          (filter (fun allele => allele ∉ identical) alleles))
              ∧ ∀ allele,
                  allele ∈ identical
                  ↔ ∃ earlier later signature,
                      alleles = earlier ++ allele :: later
                      ∧ exon_signature allele = Some signature
                      ∧ ∃ other, other ∈ earlier
                                 ∧ exon_signature other = Some signature
        end.
Proof.
  apply (X15_exon_identical_alleles_are_later_repeats
           ["KIR2DL1*0010101"; "KIR2DL1*0010102"; "KIR2DL1*00201"; "KIR3DL2*001"]%string).
  repeat (apply Forall_cons; split; [by apply (bool_decide_unpack _) |]).
  by apply Forall_nil.
Defined.

Lemma fromkeys_get alleles allele :
  Dict.get allele (ProgressiveAnalysis.fromkeys alleles)
  = if decide (allele ∈ alleles) then Some [] else None.
Proof.
  unfold ProgressiveAnalysis.fromkeys.
  assert (Hgen : ∀ d : list (string * list string),
            Dict.get allele (fold_left (fun d a => Dict.setitem a [] d) alleles d)
            = if decide (allele ∈ alleles) then Some [] else Dict.get allele d).
  { induction alleles as [|a alleles IH]; intros d; [done |].
    cbn [fold_left]. rewrite IH.
    destruct (decide (allele ∈ alleles)) as [Hin | Hout].
    - rewrite decide_True; [done | by right].
    - destruct (decide (allele = a)) as [-> | Hne].
      + rewrite decide_True by left. apply dict_get_setitem_eq.
      + rewrite decide_False.
        * by apply dict_get_setitem_ne.
        * intros Hin. by apply elem_of_cons in Hin as [? | ?]. }
  apply Hgen.
Qed.

(** No surviving allele is lost and none is filed twice: after
    [process_result_alleles] each one is, under its gene, either a key of
    [result_alleles_dictionary] (with an empty value) or a member of
    [exon_identical_alleles], never both; and neither structure holds an
    allele that did not survive or that belongs to another gene. *)
Theorem X16_survivors_are_kept_or_exon_identical (primary_result_alleles : list string) :
  Forall (fun allele => "*"%char ∈ list_ascii_of_string allele)
         primary_result_alleles →
  ∃ self,
    ProgressiveAnalysis.process_result_alleles primary_result_alleles = Return self
    ∧ (∀ allele,
         allele ∈ primary_result_alleles →
         ∃ kept identical,
           Dict.get (ProgressiveAnalysis.kir_gene_of allele)
                    (ProgressiveAnalysis.result_alleles_dictionary self) = Some kept
           ∧ Dict.get (ProgressiveAnalysis.kir_gene_of allele)
                      (ProgressiveAnalysis.exon_identical_alleles self) = Some identical
           ∧ (Dict.get allele kept = Some [] ∧ allele ∉ identical
              ∨ Dict.get allele kept = None ∧ allele ∈ identical))
    ∧ (∀ kir_gene kept allele,
         Dict.get kir_gene (ProgressiveAnalysis.result_alleles_dictionary self)
         = Some kept →
         allele ∈ Dict.keys kept →
         allele ∈ primary_result_alleles
         ∧ ProgressiveAnalysis.kir_gene_of allele = kir_gene)
    ∧ (∀ kir_gene identical allele,
         Dict.get kir_gene (ProgressiveAnalysis.exon_identical_alleles self)
         = Some identical →
         allele ∈ identical →
         allele ∈ primary_result_alleles
         ∧ ProgressiveAnalysis.kir_gene_of allele = kir_gene).
Proof.
  intros Hall. unfold ProgressiveAnalysis.process_result_alleles.
  assert (Hstar : ∀ kir_gene,
            Forall (fun allele => "*"%char ∈ list_ascii_of_string allele)
              (filter (fun allele => ProgressiveAnalysis.kir_gene_of allele = kir_gene)
                      primary_result_alleles)).
  { intros kir_gene. apply Forall_forall. intros allele Hallele.
    apply list_elem_of_filter in Hallele as [_ Hallele].
    by apply (proj1 (Forall_forall _ _) Hall). }
  destruct (exclude_exon_identical_alleles_spec
              (ProgressiveAnalysis.group_by_gene primary_result_alleles [])
              {| ProgressiveAnalysis.result_alleles_dictionary := [];
                 ProgressiveAnalysis.exon_identical_alleles := [] |})
    as (self & Hrun & Hin & Hout).
  { apply group_by_gene_NoDup. apply NoDup_nil_2. }
  { apply Forall_forall. intros [kir_gene alleles] Hmem.
    apply group_by_gene_elem in Hmem as ->. apply Hstar. }
  assert (Hgene : ∀ kir_gene,
            (∃ identical,
               filter (fun allele => ProgressiveAnalysis.kir_gene_of allele = kir_gene)
                      primary_result_alleles ≠ []
               ∧ Dict.get kir_gene (ProgressiveAnalysis.exon_identical_alleles self)
                 = Some identical
               ∧ Dict.get kir_gene (ProgressiveAnalysis.result_alleles_dictionary self)
                 = Some (ProgressiveAnalysis.fromkeys
                           (filter (fun allele => allele ∉ identical)
                              (filter (fun allele =>
                                         ProgressiveAnalysis.kir_gene_of allele = kir_gene)
                                      primary_result_alleles)))
               ∧ identical
                 ⊆ filter (fun allele => ProgressiveAnalysis.kir_gene_of allele = kir_gene)
                          primary_result_alleles)
            ∨ (filter (fun allele => ProgressiveAnalysis.kir_gene_of allele = kir_gene)
                      primary_result_alleles = []
               ∧ Dict.get kir_gene (ProgressiveAnalysis.exon_identical_alleles self) = None
               ∧ Dict.get kir_gene (ProgressiveAnalysis.result_alleles_dictionary self)
                 = None)).
  { intros kir_gene.
    pose proof (group_by_gene_get primary_result_alleles [] kir_gene) as Hget.
    cbn [Dict.get] in Hget.
    destruct (filter _ primary_result_alleles) as [|first others] eqn:Hfilter.
    - right. apply dict_get_None in Hget. destruct (Hout _ Hget) as [-> ->]. done.
    - left. apply dict_get_elem_of in Hget.
      destruct (Hin _ _ Hget) as (identical & Hloop & Heia & Hrad).
      exists identical. split; [done |]. split; [done |]. split; [done |].
      destruct (identical_loop_spec (first :: others) [] []) as (identical' & Hloop' & Hiff).
      { rewrite <- Hfilter. apply Hstar. }
      rewrite Hloop in Hloop'. injection Hloop' as <-.
      intros allele Hallele. apply Hiff in Hallele
        as [Hnil | (earlier & later & signature & -> & _)];
        [by apply elem_of_nil in Hnil |].
      apply elem_of_app. right. left. }
  exists self. split; [exact Hrun |]. split; [| split].
  - intros allele Hallele.
    destruct (Hgene (ProgressiveAnalysis.kir_gene_of allele))
      as [(identical & _ & Heia & Hrad & _) | (Hnone & _)].
    + eexists _, identical. split; [exact Hrad |]. split; [exact Heia |].
      rewrite fromkeys_get.
      destruct (decide (allele ∈ identical)) as [Hid | Hid].
      * right. split; [| done]. rewrite decide_False; [done |].
        intros Hmem. by apply list_elem_of_filter in Hmem as [? _].
      * left. split; [| done]. rewrite decide_True; [done |].
        apply list_elem_of_filter. split; [done |]. by apply list_elem_of_filter.
    + exfalso.
      assert (Hmem : allele ∈ filter (fun allele0 =>
                        ProgressiveAnalysis.kir_gene_of allele0
                        = ProgressiveAnalysis.kir_gene_of allele) primary_result_alleles)
        by (by apply list_elem_of_filter).
      rewrite Hnone in Hmem. by apply elem_of_nil in Hmem.
  - intros kir_gene kept allele Hkept Hallele.
    destruct (Hgene kir_gene) as [(identical & _ & _ & Hrad & _) | (_ & _ & Hrad)];
      rewrite Hrad in Hkept; [| done].
    injection Hkept as <-.
    assert (Hsome : Dict.get allele
                      (ProgressiveAnalysis.fromkeys
                         (filter (fun allele => allele ∉ identical)
                            (filter (fun allele =>
                                       ProgressiveAnalysis.kir_gene_of allele = kir_gene)
                                    primary_result_alleles))) ≠ None).
    { intros Hnone. by apply dict_get_None in Hnone. }
    rewrite fromkeys_get in Hsome.
    destruct (decide (allele ∈ _)) as [Hmem | Hmem]; [| done].
    apply list_elem_of_filter in Hmem as [_ Hmem].
    apply list_elem_of_filter in Hmem as [Hg Hmem]. done.
  - intros kir_gene identical allele Hid Hallele.
    destruct (Hgene kir_gene) as [(identical' & _ & Heia & _ & Hsub) | (_ & Heia & _)];
      rewrite Heia in Hid; [| done].
    injection Hid as <-.
    apply Hsub in Hallele. apply list_elem_of_filter in Hallele as [Hg Hmem]. done.
Qed.

Lemma X16_witness :
  ∃ self,
    ProgressiveAnalysis.process_result_alleles
      ["KIR2DL5A*0010101"; "KIR2DL5B*0010102"; "KIR3DL2*001"]%string = Return self
    ∧ (∀ allele,
         allele ∈ ["KIR2DL5A*0010101"; "KIR2DL5B*0010102"; "KIR3DL2*001"]%string →
         ∃ kept identical,
           Dict.get (ProgressiveAnalysis.kir_gene_of allele)
                    (ProgressiveAnalysis.result_alleles_dictionary self) = Some kept
           ∧ Dict.get (ProgressiveAnalysis.kir_gene_of allele)
                      (ProgressiveAnalysis.exon_identical_alleles self) = Some identical
           ∧ (Dict.get allele kept = Some [] ∧ allele ∉ identical
              ∨ Dict.get allele kept = None ∧ allele ∈ identical))
    ∧ (∀ kir_gene kept allele,
         Dict.get kir_gene (ProgressiveAnalysis.result_alleles_dictionary self)
         = Some kept →
         allele ∈ Dict.keys kept →
         allele ∈ ["KIR2DL5A*0010101"; "KIR2DL5B*0010102"; "KIR3DL2*001"]%string
         ∧ ProgressiveAnalysis.kir_gene_of allele = kir_gene)
    ∧ (∀ kir_gene identical allele,
         Dict.get kir_gene (ProgressiveAnalysis.exon_identical_alleles self)
         = Some identical →
         allele ∈ identical →
         allele ∈ ["KIR2DL5A*0010101"; "KIR2DL5B*0010102"; "KIR3DL2*001"]%string
         ∧ ProgressiveAnalysis.kir_gene_of allele = kir_gene).
Proof.
  apply (X16_survivors_are_kept_or_exon_identical
           ["KIR2DL5A*0010101"; "KIR2DL5B*0010102"; "KIR3DL2*001"]%string).
  repeat (apply Forall_cons; split; [by apply (bool_decide_unpack _) |]).
  by apply Forall_nil.
Defined.

(** ** CombinedAnalysis.py: the universe and the typing result *)

Lemma length_combinations_with_replacement_2 {A : Type} (l : list A) :
  (length (CombinedAnalysis.combinations_with_replacement_2 l) * 2
   = length l * (length l + 1))%nat.
Proof.
  induction l as [|x l IH]; [done |].
  cbn [CombinedAnalysis.combinations_with_replacement_2].
  rewrite length_app, length_map. cbn [length]. lia.
Qed.

Lemma length_product {A : Type} (pools : list (list A)) :
  length (CombinedAnalysis.product pools)
  = foldr (fun pool size => (length pool * size)%nat) 1%nat pools.
Proof.
  induction pools as [|pool pools IH]; [done |].
  cbn [CombinedAnalysis.product foldr]. rewrite <- IH.
  generalize (CombinedAnalysis.product pools). intros rest. clear IH.
  induction pool as [|x pool IHpool]; [done |].
  cbn [flat_map length]. rewrite length_app, length_map, IHpool. lia.
Qed.

(** The universe of genotype combinations has one entry for each choice of
    an unordered pair of alleles per gene: its size is the product over the
    genes of n(n+1)/2, n the number of surviving alleles of the gene.  So one
    gene without an allele empties the universe, and no gene at all leaves the
    single empty combination. *)
Theorem X17_size_of_the_universe (rad : list (string * list (string * list string))) :
  length (CombinedAnalysis.build_all_genotype_combinations rad)
  = foldr (fun (gene_entry : string * list (string * list string)) size =>
             (length gene_entry.2 * (length gene_entry.2 + 1) / 2 * size)%nat)
          1%nat rad.
Proof.
  unfold CombinedAnalysis.build_all_genotype_combinations.
  etransitivity; [apply (length_product (A := string * string)) |].
  induction rad as [|[kir_gene alleles] rad IH]; [done |].
  cbn [map foldr snd]. rewrite IH. f_equal.
  pose proof (length_combinations_with_replacement_2 (Dict.keys alleles)) as Hlen.
  unfold Dict.keys in Hlen at 2 3. rewrite length_fmap in Hlen.
  rewrite <- Hlen. by rewrite Nat.div_mul.
Qed.

Lemma combinations_with_replacement_2_lookup {A : Type} (l : list A) (x y : A) :
  (x, y) ∈ CombinedAnalysis.combinations_with_replacement_2 l
  ↔ ∃ i j : nat, (i ≤ j)%nat ∧ l !! i = Some x ∧ l !! j = Some y.
Proof.
  induction l as [|a l IH].
  - split; [intros Hin; by apply elem_of_nil in Hin |].
    by intros (i & j & _ & Hi & _).
  - cbn [CombinedAnalysis.combinations_with_replacement_2].
    rewrite elem_of_app, IH. clear IH. split.
    + intros [Hin | (i & j & Hij & Hi & Hj)].
      * apply list_elem_of_In, in_map_iff in Hin as (y' & [= <- <-] & Hy).
        apply list_elem_of_In, list_elem_of_lookup in Hy as (j & Hj).
        exists 0%nat, j. split; [lia | done].
      * exists (S i), (S j). split; [lia | done].
    + intros (i & j & Hij & Hi & Hj). destruct i as [|i].
      * left. injection Hi as ->. apply list_elem_of_In, in_map_iff.
        exists y. split; [done |]. apply list_elem_of_In.
        by apply list_elem_of_lookup_2 with j.
      * right. destruct j as [|j]; [lia |].
        exists i, j. split; [lia | done].
Qed.

Lemma product_Forall2 {A : Type} (pools : list (list A)) (c : list A) :
  c ∈ CombinedAnalysis.product pools ↔ Forall2 (fun x pool => x ∈ pool) c pools.
Proof.
  split; [apply elem_of_product |].
  intros Hall. induction Hall as [|x pool c pools Hx Hall IH]; [left |].
  cbn [CombinedAnalysis.product].
  apply list_elem_of_In, in_flat_map. exists x. split; [by apply list_elem_of_In |].
  apply in_map. by apply list_elem_of_In.
Qed.

Lemma combinations_with_replacement_2_NoDup {A : Type} (l : list A) :
  NoDup l → NoDup (CombinedAnalysis.combinations_with_replacement_2 l).
Proof.
  induction 1 as [|a l Ha Hnd IH]; [apply NoDup_nil_2 |].
  cbn [CombinedAnalysis.combinations_with_replacement_2].
  apply NoDup_app. split; [| split; [| exact IH]].
  - change (map (pair a) (a :: l)) with (pair a <$> a :: l).
    apply NoDup_fmap_2; [by intros y y' [= ->] |]. by apply NoDup_cons.
  - intros [x y] Hin Hin'.
    apply list_elem_of_In, in_map_iff in Hin as (y' & [= <- <-] & _).
    apply elem_of_combinations_with_replacement_2 in Hin' as [Hin' _]. done.
Qed.

Lemma product_NoDup {A : Type} (pools : list (list A)) :
  Forall NoDup pools → NoDup (CombinedAnalysis.product pools).
Proof.
  induction 1 as [|pool pools Hpool Hpools IH]; [apply NoDup_singleton |].
  cbn [CombinedAnalysis.product].
  induction Hpool as [|x pool Hx Hpool IHpool]; [apply NoDup_nil_2 |].
  cbn [flat_map]. apply NoDup_app. split; [| split; [| exact IHpool]].
  - change (map (cons x) (CombinedAnalysis.product pools))
      with (cons x <$> CombinedAnalysis.product pools).
    apply NoDup_fmap_2; [by intros c c' [= ->] | exact IH].
  - intros c Hin Hin'.
    apply list_elem_of_In, in_map_iff in Hin as (c' & <- & _).
    apply list_elem_of_In, in_flat_map in Hin' as (x' & Hx' & Hc).
    apply in_map_iff in Hc as (c'' & [= -> _] & _).
    apply Hx. by apply list_elem_of_In.
Qed.

(** The universe holds each candidate once.  A combination belongs to it
    exactly when it gives, gene by gene in the order of the dictionary, a pair
    of surviving alleles of that gene whose first allele does not come after
    the second among the gene's keys. *)
Theorem X18_universe_membership (rad : list (string * list (string * list string)))
    (c : CombinedAnalysis.combination) :
  Forall (fun gene_entry : string * list (string * list string) =>
            NoDup (Dict.keys gene_entry.2)) rad →
  NoDup (CombinedAnalysis.build_all_genotype_combinations rad)
  ∧ (c ∈ CombinedAnalysis.build_all_genotype_combinations rad
     ↔ Forall2 (fun (pair : string * string)
                    (gene_entry : string * list (string * list string)) =>
                  ∃ i j : nat,
                    (i ≤ j)%nat
                    ∧ Dict.keys gene_entry.2 !! i = Some pair.1
                    ∧ Dict.keys gene_entry.2 !! j = Some pair.2)
               c rad).
Proof.
  intros Hkeys. unfold CombinedAnalysis.build_all_genotype_combinations. split.
  - apply (product_NoDup (A := string * string)).
    induction Hkeys as [|gene_entry rad Hgene Hkeys IH]; [by apply Forall_nil |].
    cbn [map]. apply Forall_cons. split; [| exact IH].
    by apply combinations_with_replacement_2_NoDup.
  - etransitivity; [apply (product_Forall2 (A := string * string)) |].
    clear Hkeys. revert c. induction rad as [|gene_entry rad IH]; intros c.
    + cbn [map]. split; intros Hall; inversion Hall; constructor.
    + cbn [map]. split; intros Hall; inversion Hall as [|pair pool c' pools Hpair Hrest];
        subst; constructor.
      * destruct pair as [x y]. by apply combinations_with_replacement_2_lookup.
      * by apply IH.
      * destruct pair as [x y]. by apply combinations_with_replacement_2_lookup.
      * by apply IH.
Qed.

Lemma X18_witness :
  NoDup (CombinedAnalysis.build_all_genotype_combinations Examples.survivors)
  ∧ ([("G1*001", "G1*002")]%string
       ∈ CombinedAnalysis.build_all_genotype_combinations Examples.survivors
     ↔ Forall2 (fun (pair : string * string)
                    (gene_entry : string * list (string * list string)) =>
                  ∃ i j : nat,
                    (i ≤ j)%nat
                    ∧ Dict.keys gene_entry.2 !! i = Some pair.1
                    ∧ Dict.keys gene_entry.2 !! j = Some pair.2)
               [("G1*001", "G1*002")]%string Examples.survivors).
Proof.
  apply (X18_universe_membership Examples.survivors).
  repeat (apply Forall_cons; split; [by apply (bool_decide_unpack _) |]).
  by apply Forall_nil.
Defined.

Lemma intersect_fold (rest : list (list CombinedAnalysis.combination))
    (acc : list CombinedAnalysis.combination) :
  (NoDup acc →
   NoDup (fold_left (fun acc l => filter (fun c => c ∈ l) acc) rest acc))
  ∧ ∀ c, c ∈ fold_left (fun acc l => filter (fun c => c ∈ l) acc) rest acc
         ↔ c ∈ acc ∧ ∀ l, l ∈ rest → c ∈ l.
Proof.
  revert acc. induction rest as [|l rest IH]; intros acc.
  - split; [done |]. intros c. split; [| by intros [? _]].
    intros Hc. split; [done |]. intros l Hl. by apply elem_of_nil in Hl.
  - cbn [fold_left]. destruct (IH (filter (fun c => c ∈ l) acc)) as [Hnd Hiff].
    split.
    + intros Hacc. apply Hnd. by apply NoDup_filter.
    + intros c. rewrite Hiff, list_elem_of_filter. split.
      * intros [[Hl Hacc] Hrest]. split; [done |].
        intros l' Hl'. apply elem_of_cons in Hl' as [-> | Hl']; [done | by apply Hrest].
      * intros [Hacc Hall]. split; [split; [apply Hall; left | done] |].
        intros l' Hl'. apply Hall. by right.
Qed.

Lemma get_typing_results_fields (self : CombinedAnalysis.t) :
  CombinedAnalysis.all_genotype_combinations (CombinedAnalysis.get_typing_results self)
  = CombinedAnalysis.all_genotype_combinations self
  ∧ CombinedAnalysis.genotype_combinations_per_position
      (CombinedAnalysis.get_typing_results self)
    = CombinedAnalysis.genotype_combinations_per_position self
  ∧ CombinedAnalysis.typing_result (CombinedAnalysis.get_typing_results self)
    = match CombinedAnalysis.intersect_all
              (CombinedAnalysis.genotype_combinations_per_position self) with
      | None => CombinedAnalysis.typing_result self
      | Some typing => Some typing
      end.
Proof.
  unfold CombinedAnalysis.get_typing_results.
  destruct (CombinedAnalysis.intersect_all _) as [typing|]; [done |].
  by destruct (CombinedAnalysis.typing_result self) as [typing|] eqn:Htyping.
Qed.

(** Where positions contributed lists, the typing result is their
    intersection: it holds, once each, the combinations found in every list,
    which may be none.  Where no position contributed a list the typing
    result stays what it was before the call; on an instance that had none,
    it is therefore missing exactly when no position contributed. *)
Theorem X19_typing_result_is_the_intersection (self : CombinedAnalysis.t) :
  (CombinedAnalysis.genotype_combinations_per_position self = [] →
   CombinedAnalysis.typing_result (CombinedAnalysis.get_typing_results self)
   = CombinedAnalysis.typing_result self)
  ∧ (CombinedAnalysis.genotype_combinations_per_position self ≠ [] →
     ∃ typing,
       CombinedAnalysis.typing_result (CombinedAnalysis.get_typing_results self)
       = Some typing
       ∧ NoDup typing
       ∧ ∀ c, c ∈ typing
              ↔ ∀ l, l ∈ CombinedAnalysis.genotype_combinations_per_position self →
                     c ∈ l)
  ∧ (CombinedAnalysis.typing_result self = None →
     (CombinedAnalysis.typing_result (CombinedAnalysis.get_typing_results self) = None
      ↔ CombinedAnalysis.genotype_combinations_per_position self = [])).
Proof.
  destruct (get_typing_results_fields self) as (_ & _ & ->).
  unfold CombinedAnalysis.intersect_all.
  destruct (CombinedAnalysis.genotype_combinations_per_position self)
    as [|first rest].
  - split; [done |]. split; [done |]. by intros ->.
  - split; [done |]. split; [| by intros _].
    intros _. eexists. split; [done |].
    destruct (intersect_fold rest (remove_dups first)) as [Hnd Hiff].
    split; [apply Hnd, NoDup_remove_dups |].
    intros c. rewrite Hiff, elem_of_remove_dups. split.
    + intros [Hfirst Hrest] l Hl.
      apply elem_of_cons in Hl as [-> | Hl]; [done | by apply Hrest].
    + intros Hall. split; [apply Hall; left |]. intros l Hl. apply Hall. by right.
Qed.

Lemma remaining_alleles_spec (typing : list CombinedAnalysis.combination) :
  NoDup (merge_sort str_le (remove_dups (flat_map CombinedAnalysis.alleles_of typing)))
  ∧ ∀ allele,
      allele ∈ merge_sort str_le
                 (remove_dups (flat_map CombinedAnalysis.alleles_of typing))
      ↔ ∃ c, c ∈ typing ∧ allele ∈ CombinedAnalysis.alleles_of c.
Proof.
  split.
  - rewrite merge_sort_Permutation. apply NoDup_remove_dups.
  - intros allele. rewrite merge_sort_Permutation, elem_of_remove_dups.
    rewrite list_elem_of_In, in_flat_map. split.
    + intros (c & Hc & Ha). exists c. by rewrite !list_elem_of_In.
    + intros (c & Hc & Ha). exists c. by rewrite <- !list_elem_of_In.
Qed.

Lemma grouped_remaining_alleles (typing : list CombinedAnalysis.combination)
    (kir_gene : string) :
  match Dict.get kir_gene
          (ProgressiveAnalysis.group_by_gene
             (merge_sort str_le
                (remove_dups (flat_map CombinedAnalysis.alleles_of typing))) [])
  with
  | None =>
      ∀ c allele, c ∈ typing → allele ∈ CombinedAnalysis.alleles_of c →
                  ProgressiveAnalysis.kir_gene_of allele ≠ kir_gene
  | Some alleles =>
      NoDup alleles
      ∧ ∀ allele,
          allele ∈ alleles
          ↔ ProgressiveAnalysis.kir_gene_of allele = kir_gene
            ∧ ∃ c, c ∈ typing ∧ allele ∈ CombinedAnalysis.alleles_of c
  end.
Proof.
  rewrite group_by_gene_get. cbn [Dict.get].
  destruct (remaining_alleles_spec typing) as [Hnd Hiff].
  destruct (filter _ (merge_sort str_le _)) as [|first others] eqn:Hfilter.
  - intros c allele Hc Hallele Hgene.
    assert (Hin : allele ∈ filter (fun allele =>
                     ProgressiveAnalysis.kir_gene_of allele = kir_gene)
                    (merge_sort str_le
                       (remove_dups (flat_map CombinedAnalysis.alleles_of typing)))).
    { apply list_elem_of_filter. split; [done |]. apply Hiff. by exists c. }
    rewrite Hfilter in Hin. by apply elem_of_nil in Hin.
  - rewrite <- Hfilter. split; [by apply NoDup_filter |].
    intros allele. by rewrite list_elem_of_filter, Hiff.
Qed.

(** On a fresh instance [get_typing_results] files under each gene, once
    each, exactly the alleles of that gene which occur in some combination of
    the typing result; a gene none of whose alleles occurs has no key. *)
Theorem X20_remaining_alleles_by_gene (self : CombinedAnalysis.t)
    (typing : list CombinedAnalysis.combination) (kir_gene : string) :
  CombinedAnalysis.result_alleles_dictionary self = [] →
  CombinedAnalysis.typing_result (CombinedAnalysis.get_typing_results self)
  = Some typing →
  match Dict.get kir_gene
          (CombinedAnalysis.result_alleles_dictionary
             (CombinedAnalysis.get_typing_results self))
  with
  | None =>
      ∀ c allele, c ∈ typing → allele ∈ CombinedAnalysis.alleles_of c →
                  ProgressiveAnalysis.kir_gene_of allele ≠ kir_gene
  | Some alleles =>
      NoDup alleles
      ∧ ∀ allele,
          allele ∈ alleles
          ↔ ProgressiveAnalysis.kir_gene_of allele = kir_gene
            ∧ ∃ c, c ∈ typing ∧ allele ∈ CombinedAnalysis.alleles_of c
  end.
Proof.
  intros Hfresh. unfold CombinedAnalysis.get_typing_results.
  destruct (CombinedAnalysis.intersect_all
              (CombinedAnalysis.genotype_combinations_per_position self))
    as [typing0|].
  - cbn [CombinedAnalysis.typing_result CombinedAnalysis.result_alleles_dictionary].
    intros [= ->]. rewrite Hfresh. apply grouped_remaining_alleles.
  - destruct (CombinedAnalysis.typing_result self) as [typing0|] eqn:Hbefore.
    + cbn [CombinedAnalysis.typing_result CombinedAnalysis.result_alleles_dictionary].
      intros [= ->]. rewrite Hfresh. apply grouped_remaining_alleles.
    + intros Hafter. by rewrite Hbefore in Hafter.
Qed.

Lemma X20_witness :
  match Dict.get "G1"%string
          (CombinedAnalysis.result_alleles_dictionary
             (CombinedAnalysis.get_typing_results
                (CombinedAnalysis.mk [] []
                   [[[("G1*002", "G1*002")]; [("G1*001", "G1*002")]];
                    [[("G1*001", "G1*002")]]]%string None [])))
  with
  | None =>
      ∀ c allele, c ∈ [[("G1*001", "G1*002")]]%string →
                  allele ∈ CombinedAnalysis.alleles_of c →
                  ProgressiveAnalysis.kir_gene_of allele ≠ "G1"%string
  | Some alleles =>
      NoDup alleles
      ∧ ∀ allele,
          allele ∈ alleles
          ↔ ProgressiveAnalysis.kir_gene_of allele = "G1"%string
            ∧ ∃ c, c ∈ [[("G1*001", "G1*002")]]%string
                   ∧ allele ∈ CombinedAnalysis.alleles_of c
  end.
Proof.
  apply (X20_remaining_alleles_by_gene
           (CombinedAnalysis.mk [] []
              [[[("G1*002", "G1*002")]; [("G1*001", "G1*002")]];
               [[("G1*001", "G1*002")]]]%string None [])
           [[("G1*001", "G1*002")]]%string "G1"%string).
  - reflexivity.
  - vm_compute. reflexivity.
Defined.

Lemma combination_loop_sublist combinations csp present_nucleotides
    combinations_in_position result :
  CombinedAnalysis.combination_loop combinations csp present_nucleotides
    combinations_in_position = Return result →
  ∃ matching, result = combinations_in_position ++ matching
              ∧ matching `sublist_of` combinations.
Proof.
  revert combinations_in_position.
  induction combinations as [|c combinations IH]; intros acc Hrun.
  - injection Hrun as <-. exists []. by rewrite app_nil_r.
  - cbn [CombinedAnalysis.combination_loop] in Hrun.
    destruct (CombinedAnalysis.covered_loop (CombinedAnalysis.alleles_of c) csp [])
      as [covered_nucleotides | e]; [| done].
    cbn [mbind result_bind Py.bind] in Hrun.
    destruct (CombinedAnalysis.issubset present_nucleotides covered_nucleotides).
    + destruct (IH _ Hrun) as (matching & -> & Hsub).
      exists (c :: matching). split; [by rewrite <- app_assoc |].
      by apply sublist_skip.
    + destruct (IH _ Hrun) as (matching & -> & Hsub).
      exists matching. split; [done |]. by apply sublist_cons.
Qed.

Lemma combined_position_step_inv self rad pd coding_position alignment_position self' :
  CombinedAnalysis.position_step self rad pd coding_position alignment_position
  = Return self' →
  CombinedAnalysis.all_genotype_combinations self'
  = CombinedAnalysis.all_genotype_combinations self
  ∧ CombinedAnalysis.typing_result self' = CombinedAnalysis.typing_result self
  ∧ CombinedAnalysis.result_alleles_dictionary self'
    = CombinedAnalysis.result_alleles_dictionary self
  ∧ (CombinedAnalysis.genotype_combinations_per_position self'
     = CombinedAnalysis.genotype_combinations_per_position self
     ∨ ∃ matching,
         CombinedAnalysis.genotype_combinations_per_position self'
         = CombinedAnalysis.genotype_combinations_per_position self ++ [matching]
         ∧ matching `sublist_of` CombinedAnalysis.all_genotype_combinations self).
Proof.
  unfold CombinedAnalysis.position_step. intros Hrun.
  destruct (Dict.getitem alignment_position pd) as [entry | e]; [| done].
  cbn [mbind result_bind Py.bind] in Hrun.
  destruct (CombinedAnalysis.present_non_gap entry) as [present_nucleotides | e];
    [| done].
  cbn [mbind result_bind Py.bind] in Hrun.
  destruct (1 <? length present_nucleotides)%nat.
  2:{ injection Hrun as <-. split; [done |]. split; [done |]. split; [done | by left]. }
  destruct (CombinedAnalysis.coding_sequences_loop rad coding_position [])
    as [csp | e]; [| done].
  cbn [mbind result_bind Py.bind] in Hrun.
  destruct (CombinedAnalysis.is_discriminant _).
  2:{ injection Hrun as <-. split; [done |]. split; [done |]. split; [done | by left]. }
  unfold CombinedAnalysis.check_genotype_combinations in Hrun.
  destruct (CombinedAnalysis.combination_loop _ _ _ _) as [result | e] eqn:Hloop;
    [| done].
  cbn [mbind result_bind Py.bind] in Hrun. injection Hrun as <-.
  apply combination_loop_sublist in Hloop as (matching & -> & Hsub).
  split; [done |]. split; [done |]. split; [done |]. right. by exists matching.
Qed.

Lemma combined_position_loop_inv positions self rad pd coding_position self' :
  CombinedAnalysis.position_loop self rad pd coding_position positions = Return self' →
  CombinedAnalysis.all_genotype_combinations self'
  = CombinedAnalysis.all_genotype_combinations self
  ∧ CombinedAnalysis.typing_result self' = CombinedAnalysis.typing_result self
  ∧ CombinedAnalysis.result_alleles_dictionary self'
    = CombinedAnalysis.result_alleles_dictionary self
  ∧ ∃ lists,
      CombinedAnalysis.genotype_combinations_per_position self'
      = CombinedAnalysis.genotype_combinations_per_position self ++ lists
      ∧ (length lists ≤ length positions)%nat
      ∧ Forall (fun matching =>
                  matching `sublist_of` CombinedAnalysis.all_genotype_combinations self)
               lists.
Proof.
  revert self coding_position.
  induction positions as [|position positions IH]; intros self coding_position Hrun.
  - injection Hrun as <-. split; [done |]. split; [done |]. split; [done |].
    exists []. rewrite app_nil_r. split; [done |]. split; [done | by apply Forall_nil].
  - cbn [CombinedAnalysis.position_loop] in Hrun.
    destruct (CombinedAnalysis.position_step self rad pd coding_position position)
      as [self1 | e] eqn:Hstep; [| done].
    cbn [mbind result_bind Py.bind] in Hrun.
    apply combined_position_step_inv in Hstep as (Hall1 & Htyping1 & Hrad1 & Hlists1).
    apply IH in Hrun as (Hall & Htyping & Hrad & lists & Hlists & Hlen & Hsub).
    rewrite Hall1 in Hall, Hsub. rewrite Htyping1 in Htyping. rewrite Hrad1 in Hrad.
    split; [done |]. split; [done |]. split; [done |].
    destruct Hlists1 as [Hsame | (matching & Hmore & Hmatching)].
    + exists lists. rewrite Hlists, Hsame. split; [done |]. split; [cbn; lia | done].
    + exists (matching :: lists). rewrite Hlists, Hmore, <- app_assoc.
      split; [done |]. split; [cbn; lia |]. by apply Forall_cons.
Qed.

(** Whatever [CombinedAnalysis] returns stays within the universe built from
    the survivors: the candidate list is that universe, each position
    contributes at most one list, every such list is a sub-list of the
    universe in its order, and a typing result holds only combinations of
    the universe. *)
Theorem X21_typing_result_within_the_universe
    (progressive_analysis_instance progressive' : ProgressiveAnalysis.t)
    (alignment_information_instance alignment' : AlignmentInformation.t)
    (combined : CombinedAnalysis.t) :
  CombinedAnalysis.init progressive_analysis_instance alignment_information_instance
  = Return (progressive', alignment', combined) →
  CombinedAnalysis.all_genotype_combinations combined
  = CombinedAnalysis.build_all_genotype_combinations
      (ProgressiveAnalysis.result_alleles_dictionary progressive')
  ∧ (length (CombinedAnalysis.genotype_combinations_per_position combined)
     ≤ length (proportion_dictionary alignment_information_instance))%nat
  ∧ Forall (fun matching =>
              matching `sublist_of` CombinedAnalysis.all_genotype_combinations combined)
           (CombinedAnalysis.genotype_combinations_per_position combined)
  ∧ ∀ typing c,
      CombinedAnalysis.typing_result combined = Some typing →
      c ∈ typing →
      c ∈ CombinedAnalysis.all_genotype_combinations combined.
Proof.
  unfold CombinedAnalysis.init. intros Hrun.
  destruct (CombinedAnalysis.get_result_alleles_coding_sequences _ _)
    as [progressive1 | e]; [| done].
  cbn [mbind result_bind Py.bind] in Hrun.
  destruct (CombinedAnalysis.find_matching_combinations_per_position _ _ _)
    as [self | e] eqn:Hfind; [| done].
  cbn [mbind result_bind Py.bind] in Hrun. injection Hrun as <- <- <-.
  unfold CombinedAnalysis.find_matching_combinations_per_position in Hfind.
  apply combined_position_loop_inv in Hfind
    as (Hall & Hbefore & _ & lists & Hlists & Hlen & Hsub).
  cbn [CombinedAnalysis.all_genotype_combinations CombinedAnalysis.typing_result
         CombinedAnalysis.genotype_combinations_per_position app]
    in Hall, Hbefore, Hlists, Hsub.
  destruct (get_typing_results_fields self) as (-> & -> & ->).
  rewrite Hall, Hlists, Hbefore.
  split; [done |]. split.
  { unfold Dict.keys in Hlen. by rewrite length_fmap in Hlen. }
  split; [done |].
  intros typing c Htyping Hc. unfold CombinedAnalysis.intersect_all in Htyping.
  destruct lists as [|first rest]; [done |]. injection Htyping as <-.
  apply (proj2 (intersect_fold rest (remove_dups first))) in Hc as [Hc _].
  rewrite elem_of_remove_dups in Hc. apply Forall_cons in Hsub as [Hfirst _].
  by apply (elem_of_sublist first).
Qed.

Lemma X21_witness :
  ∃ progressive' alignment' combined,
    CombinedAnalysis.init
      {| ProgressiveAnalysis.result_alleles_dictionary :=
           [("G1", [("G1*001", []); ("G1*002", [])])]%string;
         ProgressiveAnalysis.exon_identical_alleles := [("G1"%string, [])] |}
      (AlignmentInformation.mk
         (Reference.mk [("G1*001", ["A"; "C"]); ("G1*002", ["A"; "G"])]%string [(0, 2)])
         []
         [(0, [("Present Nucleotides", PList ["A"])]);
          (1, [("Present Nucleotides", PList ["G"; "C"])])]%string
         ["G1*001"; "G1*002"]%string ∅)
    = Return (progressive', alignment', combined)
    ∧ CombinedAnalysis.typing_result combined = Some [[("G1*001", "G1*002")]]%string
    ∧ ∀ typing c,
        CombinedAnalysis.typing_result combined = Some typing →
        c ∈ typing →
        c ∈ CombinedAnalysis.all_genotype_combinations combined.
Proof.
  destruct (CombinedAnalysis.init
      {| ProgressiveAnalysis.result_alleles_dictionary :=
           [("G1", [("G1*001", []); ("G1*002", [])])]%string;
         ProgressiveAnalysis.exon_identical_alleles := [("G1"%string, [])] |}
      (AlignmentInformation.mk
         (Reference.mk [("G1*001", ["A"; "C"]); ("G1*002", ["A"; "G"])]%string [(0, 2)])
         []
         [(0, [("Present Nucleotides", PList ["A"])]);
          (1, [("Present Nucleotides", PList ["G"; "C"])])]%string
         ["G1*001"; "G1*002"]%string ∅))
    as [[[progressive' alignment'] combined] | e] eqn:Hrun;
    [| by vm_compute in Hrun].
  exists progressive', alignment', combined. split; [done |]. split.
  - vm_compute in Hrun. by injection Hrun as <- <- <-.
  - apply (X21_typing_result_within_the_universe _ _ _ _ _ Hrun).
Defined.

(** ** Reference.py *)

Lemma regions_length_app regions regions' :
  regions_length (regions ++ regions') = regions_length regions + regions_length regions'.
Proof.
  unfold regions_length. induction regions as [|region regions IH]; [done |].
  cbn [app foldr]. rewrite IH. lia.
Qed.

Lemma regions_length_nonneg regions : 0 ≤ regions_length regions.
Proof.
  unfold regions_length. induction regions as [|region regions IH]; [done |].
  cbn [foldr]. lia.
Qed.

Lemma region_start_S first_sequence (i : nat) region :
  first_sequence !! i = Some region →
  region_start first_sequence (S i)
  = Z.of_nat (String.length region) + region_start first_sequence i.
Proof.
  intros Hregion. unfold region_start.
  rewrite (take_S_r _ _ _ Hregion), regions_length_app.
  unfold regions_length at 2. cbn [foldr]. lia.
Qed.

Lemma region_loop_spec first_sequence (m k : nat) :
  length first_sequence = (k + m)%nat →
  ReferenceRegions.region_loop first_sequence (seqZ (Z.of_nat k) (Z.of_nat m))
    (region_start first_sequence <$> seq 0 (S k))
  = Return (region_start first_sequence <$> seq 0 (S (k + m))).
Proof.
  revert k. induction m as [|m IH]; intros k Hlen.
  - by rewrite Nat.add_0_r.
  - rewrite seqZ_cons by lia. cbn [ReferenceRegions.region_loop].
    destruct (lookup_lt_is_Some_2 first_sequence k) as [region Hregion]; [lia |].
    rewrite (getitem_lookup _ _ _ Hregion). cbn [mbind result_bind Py.bind].
    rewrite (getitem_lookup _ k (region_start first_sequence k)).
    2:{ rewrite list_lookup_fmap, lookup_seq_lt by lia. done. }
    cbn [mbind result_bind Py.bind].
    rewrite <- (region_start_S _ _ _ Hregion).
    replace (Z.succ (Z.of_nat k)) with (Z.of_nat (S k)) by lia.
    replace (Z.pred (Z.of_nat (S m))) with (Z.of_nat m) by lia.
    replace (k + S m)%nat with (S k + m)%nat by lia.
    rewrite <- IH by lia. f_equal.
    rewrite (seq_S (S k)), fmap_app. done.
Qed.

Lemma index_loop_spec first_sequence (n m k : nat) introns exons :
  (k + m = n)%nat →
  ReferenceRegions.index_loop (region_start first_sequence <$> seq 0 (S n))
    (seqZ (Z.of_nat k) (Z.of_nat m)) introns exons
  = Return
      (introns
       ++ ((fun i => (region_start first_sequence i, region_start first_sequence (S i)))
           <$> filter (fun i => i mod 2 = 0)%nat (seq k m)),
       exons
       ++ ((fun i => (region_start first_sequence i, region_start first_sequence (S i)))
           <$> filter (fun i => i mod 2 = 1)%nat (seq k m))).
Proof.
  revert k introns exons. induction m as [|m IH]; intros k introns exons Hn.
  - cbn. by rewrite !app_nil_r.
  - rewrite seqZ_cons by lia. cbn [ReferenceRegions.index_loop].
    change (seq k (S m)) with (k :: seq (S k) m).
    replace (Z.succ (Z.of_nat k)) with (Z.of_nat (S k)) by lia.
    replace (Z.pred (Z.of_nat (S m))) with (Z.of_nat m) by lia.
    assert (Ha : Py.getitem (region_start first_sequence <$> seq 0 (S n)) (Z.of_nat k)
                 = Return (region_start first_sequence k)).
    { apply getitem_lookup. rewrite list_lookup_fmap, lookup_seq_lt by lia. done. }
    assert (Hb : Py.getitem (region_start first_sequence <$> seq 0 (S n))
                   (Z.of_nat k + 1)
                 = Return (region_start first_sequence (S k))).
    { replace (Z.of_nat k + 1) with (Z.of_nat (S k)) by lia.
      apply getitem_lookup. rewrite list_lookup_fmap, lookup_seq_lt by lia. done. }
    assert (Hmod : Z.of_nat k mod 2 = Z.of_nat (k mod 2)).
    { by rewrite Nat2Z.inj_mod. }
    pose proof (Nat.mod_upper_bound k 2) as Hbound.
    rewrite Hmod, Ha, Hb. cbn [mbind result_bind Py.bind].
    destruct (k mod 2)%nat as [|[|r]] eqn:Hparity; [| | lia].
    + change (Z.of_nat 0 =? 0) with true. cbv iota. rewrite IH by lia.
      rewrite filter_cons_True by done. rewrite filter_cons_False by (rewrite Hparity; lia).
      cbn [fmap list_fmap]. by rewrite <- app_assoc.
    + change (Z.of_nat 1 =? 0) with false. change (Z.of_nat 1 =? 1) with true.
      cbv iota. rewrite IH by lia.
      rewrite filter_cons_False by (rewrite Hparity; lia).
      rewrite filter_cons_True by done.
      cbn [fmap list_fmap]. by rewrite <- app_assoc.
Qed.

(** The three lists of a fresh instance after [get_regions_index], by region
    number. *)
Lemma get_regions_index_fresh (first_sequence : list string) :
  ReferenceRegions.get_regions_index (ReferenceRegions.init first_sequence)
  = Return
      (ReferenceRegions.mk first_sequence
         (region_start first_sequence <$> seq 0 (S (length first_sequence)))
         ((fun i => (region_start first_sequence i, region_start first_sequence (S i)))
          <$> filter (fun i => i mod 2 = 0)%nat (seq 0 (length first_sequence)))
         ((fun i => (region_start first_sequence i, region_start first_sequence (S i)))
          <$> filter (fun i => i mod 2 = 1)%nat (seq 0 (length first_sequence)))).
Proof.
  unfold ReferenceRegions.get_regions_index, ReferenceRegions.init, range.
  cbn [ReferenceRegions.first_sequence ReferenceRegions.regions_index_list
         ReferenceRegions.introns_index_list ReferenceRegions.exons_index_list].
  rewrite Z.sub_0_r.
  assert (Hloop : ReferenceRegions.region_loop first_sequence
                    (seqZ 0 (Z.of_nat (length first_sequence))) [0]
                  = Return (region_start first_sequence
                              <$> seq 0 (S (length first_sequence)))).
  { exact (region_loop_spec first_sequence (length first_sequence) 0 eq_refl). }
  rewrite Hloop. cbn [mbind result_bind Py.bind].
  rewrite length_fmap, length_seq.
  replace (Z.of_nat (S (length first_sequence)) - 1 - 0)
    with (Z.of_nat (length first_sequence)) by lia.
  assert (Hindex :
            ReferenceRegions.index_loop
              (region_start first_sequence <$> seq 0 (S (length first_sequence)))
              (seqZ 0 (Z.of_nat (length first_sequence))) [] []
            = Return
                ((fun i => (region_start first_sequence i,
                            region_start first_sequence (S i)))
                 <$> filter (fun i => i mod 2 = 0)%nat (seq 0 (length first_sequence)),
                 (fun i => (region_start first_sequence i,
                            region_start first_sequence (S i)))
                 <$> filter (fun i => i mod 2 = 1)%nat (seq 0 (length first_sequence)))).
  { exact (index_loop_spec first_sequence (length first_sequence)
             (length first_sequence) 0 [] [] eq_refl). }
  rewrite Hindex. done.
Qed.

Lemma region_start_mono first_sequence (i j : nat) :
  (i ≤ j)%nat → region_start first_sequence i ≤ region_start first_sequence j.
Proof.
  intros Hij. unfold region_start.
  rewrite <- (take_drop i (take j first_sequence)), take_take, regions_length_app.
  rewrite Nat.min_l by done.
  pose proof (regions_length_nonneg (drop i (take j first_sequence))). lia.
Qed.

Lemma region_start_end first_sequence :
  region_start first_sequence (length first_sequence) = regions_length first_sequence.
Proof. unfold region_start. by rewrite firstn_all. Qed.

Lemma region_start_0 first_sequence : region_start first_sequence 0 = 0.
Proof. done. Qed.

Lemma filter_seq_sorted (P : nat → Prop) `{∀ i, Decision (P i)} (k m : nat) :
  StronglySorted lt (filter P (seq k m)).
Proof.
  revert k. induction m as [|m IH]; intros k; [constructor |].
  change (seq k (S m)) with (k :: seq (S k) m).
  destruct (decide (P k)) as [Hk | Hk].
  - rewrite filter_cons_True by done. constructor; [apply IH |].
    apply Forall_forall. intros i Hi.
    apply list_elem_of_filter in Hi as [_ Hi]. apply elem_of_seq in Hi. lia.
  - rewrite filter_cons_False by done. apply IH.
Qed.

Lemma ranges_sorted first_sequence (indices : list nat) :
  StronglySorted lt indices →
  StronglySorted (fun r r' : Z * Z => r.2 ≤ r'.1)
    ((fun i => (region_start first_sequence i, region_start first_sequence (S i)))
     <$> indices).
Proof.
  induction 1 as [|i indices Hsorted IH Hall]; [constructor |].
  cbn [fmap list_fmap]. constructor; [exact IH |].
  apply Forall_forall. intros r Hr.
  apply list_elem_of_fmap in Hr as (j & -> & Hj). cbn [fst snd].
  apply region_start_mono. pose proof (proj1 (Forall_forall _ _) Hall j Hj). lia.
Qed.

Lemma region_of_position first_sequence (m : nat) (p : Z) :
  0 ≤ p < region_start first_sequence m →
  ∃ i : nat, (i < m)%nat
             ∧ region_start first_sequence i ≤ p < region_start first_sequence (S i).
Proof.
  induction m as [|m IH]; intros Hp.
  - rewrite region_start_0 in Hp. lia.
  - destruct (decide (p < region_start first_sequence m)) as [Hlt | Hge].
    + destruct IH as (i & Hi & Hrange); [lia |]. exists i. split; [lia | done].
    + exists m. split; [lia | lia].
Qed.

Lemma range_elem first_sequence (P : nat → Prop) `{∀ i, Decision (P i)} (n : nat)
    (r : Z * Z) :
  r ∈ (fun i => (region_start first_sequence i, region_start first_sequence (S i)))
      <$> filter P (seq 0 n)
  ↔ ∃ i : nat, (i < n)%nat ∧ P i
               ∧ r = (region_start first_sequence i, region_start first_sequence (S i)).
Proof.
  rewrite list_elem_of_fmap. split.
  - intros (i & -> & Hi). apply list_elem_of_filter in Hi as [HP Hi].
    apply elem_of_seq in Hi. exists i. split; [lia | done].
  - intros (i & Hi & HP & ->). exists i. split; [done |].
    apply list_elem_of_filter. split; [done |]. apply elem_of_seq. lia.
Qed.

Lemma range_of_region first_sequence (P : nat → Prop) (n : nat) (a b : Z) :
  n = length first_sequence →
  (∃ i : nat, (i < n)%nat ∧ P i
              ∧ (a, b) = (region_start first_sequence i,
                          region_start first_sequence (S i)))
  ↔ ∃ before region after,
      first_sequence = before ++ region :: after
      ∧ P (length before)
      ∧ a = regions_length before
      ∧ b = regions_length before + Z.of_nat (String.length region).
Proof.
  intros ->. split.
  - intros (i & Hi & HP & [= -> ->]).
    destruct (lookup_lt_is_Some_2 first_sequence i Hi) as [region Hregion].
    exists (take i first_sequence), region, (drop (S i) first_sequence).
    assert (Hlen : length (take i first_sequence) = i) by (rewrite length_take; lia).
    split; [by rewrite take_drop_middle |]. split; [by rewrite Hlen |].
    split; [done |]. rewrite (region_start_S _ _ _ Hregion). unfold region_start. lia.
  - intros (before & region & after & -> & HP & -> & ->).
    exists (length before). split; [rewrite length_app; cbn; lia |]. split; [done |].
    assert (Hregion : (before ++ region :: after) !! length before = Some region)
      by (by rewrite list_lookup_middle).
    rewrite (region_start_S _ _ _ Hregion). unfold region_start.
    rewrite take_app_length. f_equal. lia.
Qed.

(** On a fresh instance [get_regions_index] returns and keeps the regions;
    the boundaries are the running totals of the region lengths, starting at
    0; the exon ranges are exactly the regions with an odd number of regions
    before them, the intron ranges those with an even number, each from the
    total length of the regions before it to that total plus its own length. *)
Theorem X22_regions_are_dealt_out_in_turn (first_sequence : list string) :
  ∃ self,
    ReferenceRegions.get_regions_index (ReferenceRegions.init first_sequence)
    = Return self
    ∧ ReferenceRegions.first_sequence self = first_sequence
    ∧ ReferenceRegions.regions_index_list self
      = (fun i => regions_length (take i first_sequence))
        <$> seq 0 (S (length first_sequence))
    ∧ (∀ a b,
         (a, b) ∈ ReferenceRegions.exons_index_list self
         ↔ ∃ before region after,
             first_sequence = before ++ region :: after
             ∧ (length before mod 2 = 1)%nat
             ∧ a = regions_length before
             ∧ b = regions_length before + Z.of_nat (String.length region))
    ∧ (∀ a b,
         (a, b) ∈ ReferenceRegions.introns_index_list self
         ↔ ∃ before region after,
             first_sequence = before ++ region :: after
             ∧ (length before mod 2 = 0)%nat
             ∧ a = regions_length before
             ∧ b = regions_length before + Z.of_nat (String.length region)).
Proof.
  eexists. split; [apply get_regions_index_fresh |].
  cbn [ReferenceRegions.first_sequence ReferenceRegions.regions_index_list
         ReferenceRegions.introns_index_list ReferenceRegions.exons_index_list].
  split; [done |]. split; [done |]. split.
  - intros a b. rewrite range_elem. by apply range_of_region.
  - intros a b. rewrite range_elem. by apply range_of_region.
Qed.

(** The ranges of a fresh instance tile the first sequence: each lies within
    it, the exon ranges and the intron ranges come in ascending order without
    overlap, every position of the sequence falls in a range, and no position
    falls in both an intron range and an exon range. *)
Theorem X23_ranges_tile_the_sequence (first_sequence : list string) :
  ∃ self,
    ReferenceRegions.get_regions_index (ReferenceRegions.init first_sequence)
    = Return self
    ∧ (∀ r, r ∈ ReferenceRegions.introns_index_list self
                ++ ReferenceRegions.exons_index_list self →
            0 ≤ r.1 ∧ r.1 ≤ r.2 ∧ r.2 ≤ regions_length first_sequence)
    ∧ StronglySorted (fun r r' : Z * Z => r.2 ≤ r'.1)
        (ReferenceRegions.exons_index_list self)
    ∧ StronglySorted (fun r r' : Z * Z => r.2 ≤ r'.1)
        (ReferenceRegions.introns_index_list self)
    ∧ (∀ p, 0 ≤ p < regions_length first_sequence →
            ∃ r, r ∈ ReferenceRegions.introns_index_list self
                     ++ ReferenceRegions.exons_index_list self
                 ∧ r.1 ≤ p < r.2)
    ∧ (∀ p intron exon,
         intron ∈ ReferenceRegions.introns_index_list self →
         exon ∈ ReferenceRegions.exons_index_list self →
         intron.1 ≤ p < intron.2 →
         ¬ (exon.1 ≤ p < exon.2)).
Proof.
  eexists. split; [apply get_regions_index_fresh |].
  cbn [ReferenceRegions.introns_index_list ReferenceRegions.exons_index_list].
  split; [| split; [| split; [| split]]].
  - intros r Hr. apply elem_of_app in Hr as [Hr | Hr];
      apply range_elem in Hr as (i & Hi & _ & ->); cbn [fst snd];
      rewrite <- region_start_end;
      pose proof (region_start_mono first_sequence 0 i);
      pose proof (region_start_mono first_sequence i (S i));
      pose proof (region_start_mono first_sequence (S i) (length first_sequence));
      rewrite region_start_0 in *; lia.
  - apply ranges_sorted, filter_seq_sorted.
  - apply ranges_sorted, filter_seq_sorted.
  - intros p Hp. rewrite <- region_start_end in Hp.
    destruct (region_of_position _ _ _ Hp) as (i & Hi & Hrange).
    exists (region_start first_sequence i, region_start first_sequence (S i)).
    split; [| done]. apply elem_of_app.
    pose proof (Nat.mod_upper_bound i 2).
    destruct (decide (i mod 2 = 0)%nat) as [Heven | Hodd].
    + left. apply range_elem. by exists i.
    + right. apply range_elem. exists i. split; [done |]. split; [lia | done].
  - intros p intron exon Hintron Hexon Hp Hp'.
    apply range_elem in Hintron as (i & _ & Hi & ->).
    apply range_elem in Hexon as (j & _ & Hj & ->). cbn [fst snd] in Hp, Hp'.
    destruct (decide (i < j)%nat) as [Hlt | Hge].
    + pose proof (region_start_mono first_sequence (S i) j). lia.
    + assert (j < i)%nat by (destruct (decide (i = j)) as [-> |]; lia).
      pose proof (region_start_mono first_sequence (S j) i). lia.
Qed.

(** ** Read.py: the constructor *)

Lemma list_ascii_of_string_app (a b : string) :
  list_ascii_of_string (a ++ b) = list_ascii_of_string a ++ list_ascii_of_string b.
Proof.
  induction a as [|c a IH]; [done |].
  change (c :: list_ascii_of_string (a ++ b)
          = c :: (list_ascii_of_string a ++ list_ascii_of_string b)).
  by rewrite IH.
Qed.

Lemma split_loop_field sep field rest current :
  sep ∉ field →
  split_loop sep (field ++ sep :: rest) current
  = (current ++ field) :: split_loop sep rest [].
Proof.
  revert current. induction field as [|c field IH]; intros current Hsep.
  - cbn [app split_loop]. rewrite Ascii.eqb_refl. by rewrite app_nil_r.
  - cbn [app split_loop]. destruct (Ascii.eqb_spec c sep) as [-> | Hc].
    + exfalso. apply Hsep. left.
    + rewrite IH; [by rewrite <- app_assoc |]. intros Hin. apply Hsep. by right.
Qed.

Lemma split_concat sep fields :
  fields ≠ [] →
  Forall (fun field => sep ∉ list_ascii_of_string field) fields →
  split sep (String.concat (String sep EmptyString) fields) = fields.
Proof.
  unfold split. induction fields as [|field fields IH]; intros Hne Hall; [done |].
  apply Forall_cons in Hall as [Hfield Hall].
  destruct fields as [|field' fields].
  - cbn [String.concat]. rewrite split_loop_no_separator by done.
    cbn [app map]. by rewrite string_of_list_ascii_of_string.
  - change (String.concat (String sep EmptyString) (field :: field' :: fields))
      with (field ++ String sep (String.concat (String sep EmptyString)
                                   (field' :: fields)))%string.
    rewrite list_ascii_of_string_app.
    change (list_ascii_of_string (String sep ?s)) with (sep :: list_ascii_of_string s).
    rewrite split_loop_field by done. cbn [map app].
    rewrite string_of_list_ascii_of_string. f_equal. by apply IH.
Qed.

(** A line of at least ten tab-separated fields, with runs of digits as
    second, fourth and fifth field, is read into the record of its first,
    second, fourth, fifth, sixth and tenth field; the position is moved from
    the 1-based convention of the file to 0-based, and the other fields are
    ignored. *)
Theorem X24_sam_line_fields (qname rname cigar rnext pnext tlen seq : string)
    (flag_digits pos_digits mapq_digits : list ascii) (others : list string) :
  Forall (fun field => "009"%char ∉ list_ascii_of_string field)
         ([qname; join_chars flag_digits; rname; join_chars pos_digits;
           join_chars mapq_digits; cigar; rnext; pnext; tlen; seq] ++ others) →
  Spec.digit_run flag_digits →
  Spec.digit_run pos_digits →
  Spec.digit_run mapq_digits →
  Read.of_sam_line
    (String.concat (String "009" EmptyString)
       ([qname; join_chars flag_digits; rname; join_chars pos_digits;
         join_chars mapq_digits; cigar; rnext; pnext; tlen; seq] ++ others))
  = Return (Read.init qname (Spec.decimal flag_digits) (Spec.decimal pos_digits)
              (Spec.decimal mapq_digits) cigar seq)
  ∧ Read.leftmost_position
      (Read.init qname (Spec.decimal flag_digits) (Spec.decimal pos_digits)
         (Spec.decimal mapq_digits) cigar seq)
    = Spec.decimal pos_digits - 1.
Proof.
  intros Htabs Hflag Hpos Hmapq. split; [| done].
  unfold Read.of_sam_line. rewrite split_concat by done.
  set (fields := [qname; join_chars flag_digits; rname; join_chars pos_digits;
                  join_chars mapq_digits; cigar; rnext; pnext; tlen; seq] ++ others).
  assert (H0 : Py.getitem fields 0 = Return qname)
    by exact (getitem_lookup fields 0 _ eq_refl).
  assert (H1 : Py.getitem fields 1 = Return (join_chars flag_digits))
    by exact (getitem_lookup fields 1 _ eq_refl).
  assert (H3 : Py.getitem fields 3 = Return (join_chars pos_digits))
    by exact (getitem_lookup fields 3 _ eq_refl).
  assert (H4 : Py.getitem fields 4 = Return (join_chars mapq_digits))
    by exact (getitem_lookup fields 4 _ eq_refl).
  assert (H5 : Py.getitem fields 5 = Return cigar)
    by exact (getitem_lookup fields 5 _ eq_refl).
  assert (H9 : Py.getitem fields 9 = Return seq)
    by exact (getitem_lookup fields 9 _ eq_refl).
  rewrite H0, H1, H3, H4, H5, H9. cbn [mbind result_bind Py.bind].
  rewrite (int_digit_run _ Hflag). cbn [mbind result_bind Py.bind].
  rewrite (int_digit_run _ Hpos). cbn [mbind result_bind Py.bind].
  rewrite (int_digit_run _ Hmapq). done.
Qed.

Lemma X24_witness :
  Read.of_sam_line
    (String.concat (String "009" EmptyString)
       (["r1"; join_chars ["9"; "9"]%char; "KIR2DL1*001"; join_chars ["1"; "2"]%char;
         join_chars ["2"; "5"; "5"]%char; "3M"; "="; "40"; "0"; "ACT"]%string
        ++ ["*"%string]))
  = Return (Read.init "r1" (Spec.decimal ["9"; "9"]%char) (Spec.decimal ["1"; "2"]%char)
              (Spec.decimal ["2"; "5"; "5"]%char) "3M" "ACT")
  ∧ Read.leftmost_position
      (Read.init "r1" (Spec.decimal ["9"; "9"]%char) (Spec.decimal ["1"; "2"]%char)
         (Spec.decimal ["2"; "5"; "5"]%char) "3M" "ACT")
    = Spec.decimal ["1"; "2"]%char - 1.
Proof.
  apply (X24_sam_line_fields "r1" "KIR2DL1*001" "3M" "=" "40" "0" "ACT"
           ["9"; "9"]%char ["1"; "2"]%char ["2"; "5"; "5"]%char ["*"%string]).
  - repeat (apply Forall_cons; split; [by apply (bool_decide_unpack _) |]).
    by apply Forall_nil.
  - split; [done | by repeat constructor].
  - split; [done | by repeat constructor].
  - split; [done | by repeat constructor].
Defined.

Lemma getitem_error {A : Type} (l : list A) (i : Z) e :
  Py.getitem l i = Raise e → e = IndexError.
Proof.
  unfold Py.getitem. destruct (_ || _); [by intros [= <-] |].
  destruct (l !! _); [done | by intros [= <-]].
Qed.

Lemma int_error s e : Py.int s = Raise e → e = ValueError.
Proof. unfold Py.int. destruct (int_signed _); [done | by intros [= <-]]. Qed.

Lemma length_split_loop sep s current :
  length (split_loop sep s current) = S (length (filter (fun c => c = sep) s)).
Proof.
  revert current. induction s as [|c s IH]; intros current; [done |].
  cbn [split_loop]. destruct (Ascii.eqb_spec c sep) as [-> | Hc].
  - rewrite filter_cons_True by done. cbn [length]. by rewrite IH.
  - rewrite filter_cons_False by done. apply IH.
Qed.

(** A line with fewer than nine tabs, a blank line for one, never gives a
    record: the constructor raises, [IndexError] at the first field that is
    missing unless the text of an earlier number field made [int] raise
    [ValueError]. *)
Theorem X25_short_sam_line_raises (sam_line : string) :
  (length (filter (fun c => c = "009"%char) (list_ascii_of_string sam_line)) < 9)%nat →
  ∃ e, Read.of_sam_line sam_line = Raise e ∧ (e = IndexError ∨ e = ValueError).
Proof.
  intros Htabs. unfold Read.of_sam_line.
  assert (H9 : Py.getitem (split "009" sam_line) 9 = Raise IndexError).
  { apply getitem_beyond. unfold split. rewrite length_map, length_split_loop. lia. }
  destruct (Py.getitem (split "009" sam_line) 0) as [qname | e] eqn:H0.
  2:{ apply getitem_error in H0 as ->. exists IndexError. split; [done | by left]. }
  cbn [mbind result_bind Py.bind].
  destruct (Py.getitem (split "009" sam_line) 1) as [flag_text | e] eqn:H1.
  2:{ apply getitem_error in H1 as ->. exists IndexError. split; [done | by left]. }
  cbn [mbind result_bind Py.bind].
  destruct (Py.int flag_text) as [flag_field | e] eqn:Hflag.
  2:{ apply int_error in Hflag as ->. exists ValueError. split; [done | by right]. }
  cbn [mbind result_bind Py.bind].
  destruct (Py.getitem (split "009" sam_line) 3) as [pos_text | e] eqn:H3.
  2:{ apply getitem_error in H3 as ->. exists IndexError. split; [done | by left]. }
  cbn [mbind result_bind Py.bind].
  destruct (Py.int pos_text) as [pos_field | e] eqn:Hpos.
  2:{ apply int_error in Hpos as ->. exists ValueError. split; [done | by right]. }
  cbn [mbind result_bind Py.bind].
  destruct (Py.getitem (split "009" sam_line) 4) as [mapq_text | e] eqn:H4.
  2:{ apply getitem_error in H4 as ->. exists IndexError. split; [done | by left]. }
  cbn [mbind result_bind Py.bind].
  destruct (Py.int mapq_text) as [mapq_field | e] eqn:Hmapq.
  2:{ apply int_error in Hmapq as ->. exists ValueError. split; [done | by right]. }
  cbn [mbind result_bind Py.bind].
  destruct (Py.getitem (split "009" sam_line) 5) as [cigar | e] eqn:H5.
  2:{ apply getitem_error in H5 as ->. exists IndexError. split; [done | by left]. }
  cbn [mbind result_bind Py.bind]. rewrite H9.
  exists IndexError. split; [done | by left].
Qed.

Lemma X25_witness :
  ∃ e, Read.of_sam_line "" = Raise e ∧ (e = IndexError ∨ e = ValueError).
Proof.
  apply (X25_short_sam_line_raises ""). cbn. lia.
Defined.

(** ** CombinedAnalysis.py: the gene of a reference line *)

Lemma split_loop_head sep field rest current :
  sep ∉ field →
  ∃ others, split_loop sep (field ++ sep :: rest) current = (current ++ field) :: others.
Proof. intros Hsep. eexists. by apply split_loop_field. Qed.

(** Where the allele id holds a "*", the gene read off the text of the line
    is the gene read off the id, whatever follows the id on the line. *)
Lemma line_gene_of_id allele_id allele_sequence :
  "*"%char ∈ list_ascii_of_string allele_id →
  CombinedAnalysis.line_gene allele_id allele_sequence
  = ProgressiveAnalysis.kir_gene_of allele_id.
Proof.
  intros Hstar. apply list_elem_of_split_l in Hstar as (field & rest & Hid & Hfield).
  unfold CombinedAnalysis.line_gene, ProgressiveAnalysis.kir_gene_of, split.
  rewrite list_ascii_of_string_app, Hid, <- app_assoc. cbn [app].
  destruct (split_loop_head "*" field
              (rest ++ list_ascii_of_string
                         (String "009" (String.concat "" allele_sequence))) [] Hfield)
    as [others ->].
  destruct (split_loop_head "*" field rest [] Hfield) as [others' ->].
  done.
Qed.
